(** * quiz-validator: the validation and scoring engine

    A shallow embedding of [validateField], [validateQuizQuestion] and
    [validateQuizSet] of the quiz-validator library (index.ts), and the
    properties of the field evaluator, the question validator, the score
    and the set summary; then of the code around them: the importers
    ([convertFromQuizlet], [convertFromAnki], [convertFromCsv]), the
    reports ([generateReport], [generateBatchReport]), the options and the
    exit code of the validate command, and the analytics
    ([analyzeQuizSet], [findDuplicates], [analyzeDifficultyDistribution],
    [estimateCompletionTime], [identifyProblematicQuestions],
    [generateImprovementSuggestions]).

    Conventions of the embedding
    - a JavaScript value ([any]) is a [JsValue], the values a parsed
      document holds and [undefined]; strings are sequences of code units,
      [String.length] is [.length]; a question record has the declared
      fields of [QuizQuestion] and a map for the other keys (properties
      inherited from [Object.prototype] are left out);
    - an optional property is an [option]; a property of the options
      object is an [OptionalProp]: it may be missing, or present and
      holding [undefined], which object spread copies over the default;
    - lengths and length bounds are integers ([Z]);
    - the score and the average are computed in binary64, as the engine
      does: [/] and [*] are [SFdiv] and [SFmul] of Corelib's [SpecFloat]
      at precision 53, and [Math.round] is taken on the resulting double;
    - [errors.push(e)] appends [e] to the list threaded through the
      function;
    - where a function looks at the code units of a string ([trim],
      [split], [toLowerCase]) they are below U+0100, the code units a
      [string] holds; the literals of the reports are written as they are
      in the source;
    - a function that can throw returns an [option], [None] for the
      exception;
    - a plain object used as a counter is a [gmap]. *)

From Stdlib Require Import ZArith String Ascii List Lia SpecFloat.
From Stdlib Require Import DecimalString.
From stdpp Require Import gmap strings list.

Open Scope string_scope.
Open Scope Z_scope.

(** ** JavaScript values *)

#[local] Set Warnings "-register-all,-clear-no-such-hyp".

Inductive JsValue : Type :=
  | VUndefined
  | VNull
  | VBool (b : bool)
  | VNum (n : Z)
  | VStr (s : string)
  | VArr (xs : list JsValue)
  | VObj (props : list (string * JsValue)).

(** [value === undefined || value === null || value === ''] *)
Definition is_empty (value : JsValue) : bool :=
  match value with
  | VUndefined | VNull => true
  | VStr s => bool_decide (s = EmptyString)
  | _ => false
  end.

(** Truthiness of a value: [undefined], [null], [false], [0] and the empty
    string are falsy. *)
Definition to_boolean (value : JsValue) : bool :=
  match value with
  | VUndefined | VNull => false
  | VBool b => b
  | VNum n => negb (n =? 0)
  | VStr s => negb (bool_decide (s = EmptyString))
  | VArr _ | VObj _ => true
  end.

(** Truthiness of an optional boolean ([rule.required], [opts.requireX]). *)
Definition truthy (b : option bool) : bool :=
  match b with Some true => true | _ => false end.

(** [msg || dflt] on an optional string: [undefined] and the empty string
    are falsy. *)
Definition or_default (msg : option string) (dflt : string) : string :=
  match msg with
  | Some s => if bool_decide (s = EmptyString) then dflt else s
  | None => dflt
  end.

(** Number to string, as a template literal prints an integer. *)
Definition Number_toString (z : Z) : string :=
  NilZero.string_of_int (Z.to_int z).

Definition str_length (s : string) : Z := Z.of_nat (String.length s).

(** ** Data model *)

Record ValidationRule : Type := {
  field : string;
  minLength : option Z;
  maxLength : option Z;
  required : option bool;
  pattern : option (string -> bool);
  customValidator : option (JsValue -> bool);
  errorMessage : option string
}.

Record ValidationError : Type := {
  err_field : string;
  err_message : string;
  err_value : option JsValue;
  err_rule : string
}.

(** ** validateField *)

Definition validateField (value : JsValue) (rule : ValidationRule)
  : option ValidationError :=
  (* Required check *)
  if truthy (required rule) && is_empty value then
    Some {| err_field := field rule;
            err_message :=
              or_default (errorMessage rule) (field rule ++ " is required");
            err_value := Some value;
            err_rule := "required" |}
  (* Skip other checks if value is empty and not required *)
  else if negb (truthy (required rule)) && is_empty value then None
  else
    (* String length checks *)
    match
      match value with
      | VStr s =>
          match
            match minLength rule with
            | Some m =>
                if str_length s <? m then
                  Some {| err_field := field rule;
                          err_message :=
                            or_default (errorMessage rule)
                              (field rule ++ " must be at least "
                                 ++ Number_toString m ++ " characters (got "
                                 ++ Number_toString (str_length s) ++ ")");
                          err_value := Some value;
                          err_rule := "minLength" |}
                else None
            | None => None
            end
          with
          | Some e => Some e
          | None =>
              match maxLength rule with
              | Some m =>
                  if str_length s >? m then
                    Some {| err_field := field rule;
                            err_message :=
                              or_default (errorMessage rule)
                                (field rule ++ " must be at most "
                                   ++ Number_toString m ++ " characters (got "
                                   ++ Number_toString (str_length s) ++ ")");
                            err_value := Some value;
                            err_rule := "maxLength" |}
                  else None
              | None => None
              end
          end
      | _ => None
      end
    with
    | Some e => Some e
    | None =>
        (* Pattern check *)
        match
          match pattern rule, value with
          | Some p, VStr s =>
              if negb (p s) then
                Some {| err_field := field rule;
                        err_message :=
                          or_default (errorMessage rule)
                            (field rule ++ " does not match required pattern");
                        err_value := Some value;
                        err_rule := "pattern" |}
              else None
          | _, _ => None
          end
        with
        | Some e => Some e
        | None =>
            (* Custom validator *)
            match customValidator rule with
            | Some f =>
                if negb (f value) then
                  Some {| err_field := field rule;
                          err_message :=
                            or_default (errorMessage rule)
                              (field rule ++ " failed custom validation");
                          err_value := Some value;
                          err_rule := "custom" |}
                else None
            | None => None
            end
        end
    end.

(** ** Numbers: binary64 *)

(** An integer as a double (exact below 2^53). *)
Definition Number (z : Z) : spec_float := binary_normalize 53 1024 z 0 false.

Definition Number_div : spec_float -> spec_float -> spec_float := SFdiv 53 1024.
Definition Number_mul : spec_float -> spec_float -> spec_float := SFmul 53 1024.

(** [Math.round]: the integer closest to [x], ties towards +infinity, that
    is floor(x + 1/2) computed exactly.  A NaN or an infinity has no
    integer value; the engine never rounds one (the divisor is at least 1)
    and the embedding maps it to 0. *)
Definition Math_round (x : spec_float) : Z :=
  match x with
  | S754_finite s m e =>
      let n := cond_Zopp s (Z.pos m) in
      if 0 <=? e then n * 2 ^ e
      else (2 * n + 2 ^ (- e)) `div` 2 ^ (1 - e)
  | _ => 0
  end.

(** ** Questions, options, results *)

Record QuizQuestion : Type := {
  id_ : option JsValue;
  question : string;
  options : option (list string);
  correctAnswer : option JsValue;
  explanation : option string;
  category : option string;
  difficulty : option JsValue;
  (* [key: string]: any *)
  extra : gmap string JsValue
}.

(** A property of an object literal: not there, there and [undefined], or
    there with a value. *)
Inductive OptionalProp (A : Type) : Type :=
  | Missing
  | Undefined
  | Given (a : A).
Arguments Missing {A}.
Arguments Undefined {A}.
Arguments Given {A} a.

(** Reading a property: a missing one reads as [undefined]. *)
Definition read {A} (p : OptionalProp A) : option A :=
  match p with Given a => Some a | _ => None end.

(** One property of [{ ...a, ...b }]: [b]'s own property wins, even when it
    holds [undefined]. *)
Definition spread_prop {A} (a b : OptionalProp A) : OptionalProp A :=
  match b with Missing => a | _ => b end.

Record QuizValidationOptions : Type := {
  questionMinLength : OptionalProp Z;
  questionMaxLength : OptionalProp Z;
  optionMinLength : OptionalProp Z;
  optionMaxLength : OptionalProp Z;
  explanationMinLength : OptionalProp Z;
  explanationMaxLength : OptionalProp Z;
  minOptions : OptionalProp Z;
  maxOptions : OptionalProp Z;
  requireExplanation : OptionalProp bool;
  requireCategory : OptionalProp bool;
  requireDifficulty : OptionalProp bool;
  customRules : option (list ValidationRule)
}.

Definition DEFAULT_OPTIONS : QuizValidationOptions := {|
  questionMinLength := Given 5;
  questionMaxLength := Given 500;
  optionMinLength := Given 1;
  optionMaxLength := Given 200;
  explanationMinLength := Given 10;
  explanationMaxLength := Given 1000;
  minOptions := Given 2;
  maxOptions := Given 10;
  requireExplanation := Given false;
  requireCategory := Given false;
  requireDifficulty := Given false;
  customRules := None
|}.

(** [{ ...a, ...b }] *)
Definition spread (a b : QuizValidationOptions) : QuizValidationOptions := {|
  questionMinLength := spread_prop (questionMinLength a) (questionMinLength b);
  questionMaxLength := spread_prop (questionMaxLength a) (questionMaxLength b);
  optionMinLength := spread_prop (optionMinLength a) (optionMinLength b);
  optionMaxLength := spread_prop (optionMaxLength a) (optionMaxLength b);
  explanationMinLength :=
    spread_prop (explanationMinLength a) (explanationMinLength b);
  explanationMaxLength :=
    spread_prop (explanationMaxLength a) (explanationMaxLength b);
  minOptions := spread_prop (minOptions a) (minOptions b);
  maxOptions := spread_prop (maxOptions a) (maxOptions b);
  requireExplanation :=
    spread_prop (requireExplanation a) (requireExplanation b);
  requireCategory := spread_prop (requireCategory a) (requireCategory b);
  requireDifficulty := spread_prop (requireDifficulty a) (requireDifficulty b);
  customRules :=
    match customRules b with Some r => Some r | None => customRules a end
|}.

(** The options object [{}]. *)
Definition no_options : QuizValidationOptions := {|
  questionMinLength := Missing; questionMaxLength := Missing;
  optionMinLength := Missing; optionMaxLength := Missing;
  explanationMinLength := Missing; explanationMaxLength := Missing;
  minOptions := Missing; maxOptions := Missing;
  requireExplanation := Missing; requireCategory := Missing;
  requireDifficulty := Missing; customRules := None
|}.

Record ValidationResult : Type := {
  valid : bool;
  errors : list ValidationError;
  warnings : list ValidationError;
  score : Z
}.

(** An optional string property as a value. *)
Definition of_string (o : option string) : JsValue :=
  match o with Some s => VStr s | None => VUndefined end.

Definition of_any (o : option JsValue) : JsValue :=
  match o with Some v => v | None => VUndefined end.

(** [question[name]] *)
Definition get_field (q : QuizQuestion) (name : string) : JsValue :=
  if decide (name = "id") then of_any (id_ q)
  else if decide (name = "question") then VStr (question q)
  else if decide (name = "options") then
    match options q with Some os => VArr (VStr <$> os) | None => VUndefined end
  else if decide (name = "correctAnswer") then of_any (correctAnswer q)
  else if decide (name = "explanation") then of_string (explanation q)
  else if decide (name = "category") then of_string (category q)
  else if decide (name = "difficulty") then of_any (difficulty q)
  else of_any (extra q !! name).

(** [errors.push(e)] *)
Definition push (errors : list ValidationError) (e : ValidationError)
  : list ValidationError := (errors ++ [e])%list.

(** [if (e) errors.push(e)] *)
Definition push_if (errors : list ValidationError)
    (e : option ValidationError) : list ValidationError :=
  match e with Some e => push errors e | None => errors end.

(** [question.options.forEach((option, index) => ...)], from [index] on. *)
Fixpoint forEach_option (opts : QuizValidationOptions) (os : list string)
    (index : nat) (errors : list ValidationError) : list ValidationError :=
  match os with
  | [] => errors
  | option :: rest =>
      let optionError :=
        validateField (VStr option)
          {| field := "options[" ++ Number_toString (Z.of_nat index) ++ "]";
             required := Some true;
             minLength := read (optionMinLength opts);
             maxLength := read (optionMaxLength opts);
             pattern := None; customValidator := None;
             errorMessage := None |} in
      forEach_option opts rest (S index) (push_if errors optionError)
  end.

(** [for (const rule of options.customRules) ...] *)
Fixpoint for_customRules (q : QuizQuestion)
    (rules : list ValidationRule) (errors : list ValidationError)
  : list ValidationError :=
  match rules with
  | [] => errors
  | rule :: rest =>
      let value := get_field q (field rule) in
      let error := validateField value rule in
      for_customRules q rest (push_if errors error)
  end.

(** [new Set(question.options)] *)
Definition uniqueOptions (os : list string) : gset string := list_to_set os.

Definition totalChecks (q : QuizQuestion)
    (opts user_options : QuizValidationOptions) : Z :=
  4 (* base fields (question, options count, duplicates, correctAnswer) *)
  + match options q with Some os => Z.of_nat (length os) | None => 0 end
  + (if truthy (read (requireExplanation opts)) then 1 else 0)
  + (if truthy (read (requireCategory opts)) then 1 else 0)
  + (if truthy (read (requireDifficulty opts)) then 1 else 0)
  + match customRules user_options with
    | Some rules => Z.of_nat (length rules)
    | None => 0
    end.

(** [Math.max(0,
      Math.round(((totalChecks - failedChecks) / totalChecks) * 100))] *)
Definition compute_score (totalChecks failedChecks : Z) : Z :=
  Z.max 0
    (Math_round
       (Number_mul
          (Number_div (Number (totalChecks - failedChecks))
             (Number totalChecks))
          (Number 100))).

Definition validateQuizQuestion (q : QuizQuestion)
    (user_options : QuizValidationOptions) : ValidationResult :=
  let opts := spread DEFAULT_OPTIONS user_options in
  let errors : list ValidationError := [] in
  let warnings : list ValidationError := [] in
  (* Validate question text *)
  let questionError :=
    validateField (VStr (question q))
      {| field := "question"; required := Some true;
         minLength := read (questionMinLength opts);
         maxLength := read (questionMaxLength opts);
         pattern := None; customValidator := None; errorMessage := None |} in
  let errors := push_if errors questionError in
  (* Validate options *)
  let '(errors, warnings) :=
    match options q with
    | Some os =>
        let len := Z.of_nat (length os) in
        let errors :=
          match read (minOptions opts) with
          | Some m =>
              if len <? m then
                push errors
                  {| err_field := "options";
                     err_message :=
                       "At least " ++ Number_toString m
                         ++ " options required (got "
                         ++ Number_toString len ++ ")";
                     err_value := Some (VNum len);
                     err_rule := "minOptions" |}
              else errors
          | None => errors
          end in
        let errors :=
          match read (maxOptions opts) with
          | Some m =>
              if len >? m then
                push errors
                  {| err_field := "options";
                     err_message :=
                       "At most " ++ Number_toString m
                         ++ " options allowed (got "
                         ++ Number_toString len ++ ")";
                     err_value := Some (VNum len);
                     err_rule := "maxOptions" |}
              else errors
          | None => errors
          end in
        (* Validate each option *)
        let errors := forEach_option opts os 0 errors in
        (* Check for duplicate options *)
        let warnings :=
          if negb (Z.of_nat (size (uniqueOptions os)) =? len) then
            push warnings
              {| err_field := "options";
                 err_message := "Duplicate options detected";
                 err_value := None;
                 err_rule := "duplicates" |}
          else warnings in
        (errors, warnings)
    | None => (errors, warnings)
    end in
  (* Validate explanation *)
  let errors :=
    if truthy (read (requireExplanation opts))
       || to_boolean (of_string (explanation q))
    then
      push_if errors
        (validateField (of_string (explanation q))
           {| field := "explanation";
              required := read (requireExplanation opts);
              minLength := read (explanationMinLength opts);
              maxLength := read (explanationMaxLength opts);
              pattern := None; customValidator := None;
              errorMessage := None |})
    else errors in
  (* Validate category *)
  let errors :=
    if truthy (read (requireCategory opts)) then
      push_if errors
        (validateField (of_string (category q))
           {| field := "category"; required := Some true;
              minLength := None; maxLength := None;
              pattern := None; customValidator := None;
              errorMessage := None |})
    else errors in
  (* Validate difficulty *)
  let errors :=
    if truthy (read (requireDifficulty opts)) then
      push_if errors
        (validateField (of_any (difficulty q))
           {| field := "difficulty"; required := Some true;
              minLength := None; maxLength := None;
              pattern := None; customValidator := None;
              errorMessage := None |})
    else errors in
  (* Apply custom rules *)
  let errors :=
    match customRules user_options with
    | Some rules => for_customRules q rules errors
    | None => errors
    end in
  (* Calculate score (0-100) *)
  let totalChecks := totalChecks q opts user_options in
  let failedChecks := Z.of_nat (length errors) in
  let score := compute_score totalChecks failedChecks in
  {| valid := Z.of_nat (length errors) =? 0;
     errors := errors;
     warnings := warnings;
     score := score |}.

(** ** validateQuizSet *)

Record Summary : Type := {
  total : Z;
  passed : Z;
  failed : Z;
  averageScore : Z
}.

Record SetResult : Type := {
  set_valid : bool;
  results : list ValidationResult;
  summary : Summary
}.

Definition validateQuizSet (questions : list QuizQuestion)
    (user_options : QuizValidationOptions) : SetResult :=
  let results := map (fun q => validateQuizQuestion q user_options) questions in
  let passed := Z.of_nat (length (List.filter (fun r => valid r) results)) in
  let failed :=
    Z.of_nat (length (List.filter (fun r => negb (valid r)) results)) in
  let averageScore :=
    Number_div
      (Number (fold_left (fun sum r => sum + score r) results 0))
      (Number (Z.max 1 (Z.of_nat (length results)))) in
  {| set_valid := failed =? 0;
     results := results;
     summary :=
       {| total := Z.of_nat (length questions);
          passed := passed;
          failed := failed;
          averageScore := Math_round averageScore |} |}.

(** ** The checks of the field evaluator, one by one

    Each check of the specification as a function of its own: it fails
    (returns its error) or passes ([None]), whatever the other checks do. *)

Definition absent (value : JsValue) : Prop :=
  value = VUndefined \/ value = VNull \/ value = VStr EmptyString.

Definition mk_error (rule : ValidationRule) (dflt : string) (value : JsValue)
    (kind : string) : ValidationError :=
  {| err_field := field rule;
     err_message :=
       match errorMessage rule with
       | Some msg => if decide (msg = EmptyString) then dflt else msg
       | None => dflt
       end;
     err_value := Some value;
     err_rule := kind |}.

Definition check_required (value : JsValue) (rule : ValidationRule)
  : option ValidationError :=
  match required rule, value with
  | Some true, (VUndefined | VNull) | Some true, VStr EmptyString =>
      Some (mk_error rule (field rule ++ " is required") value "required")
  | _, _ => None
  end.

Definition check_minLength (value : JsValue) (rule : ValidationRule)
  : option ValidationError :=
  match minLength rule, value with
  | Some m, VStr s =>
      if decide (str_length s < m) then
        Some (mk_error rule
                (field rule ++ " must be at least " ++ Number_toString m
                   ++ " characters (got " ++ Number_toString (str_length s)
                   ++ ")")
                value "minLength")
      else None
  | _, _ => None
  end.

Definition check_maxLength (value : JsValue) (rule : ValidationRule)
  : option ValidationError :=
  match maxLength rule, value with
  | Some m, VStr s =>
      if decide (m < str_length s) then
        Some (mk_error rule
                (field rule ++ " must be at most " ++ Number_toString m
                   ++ " characters (got " ++ Number_toString (str_length s)
                   ++ ")")
                value "maxLength")
      else None
  | _, _ => None
  end.

Definition check_pattern (value : JsValue) (rule : ValidationRule)
  : option ValidationError :=
  match pattern rule, value with
  | Some p, VStr s =>
      if p s then None
      else Some (mk_error rule
                   (field rule ++ " does not match required pattern")
                   value "pattern")
  | _, _ => None
  end.

Definition check_custom (value : JsValue) (rule : ValidationRule)
  : option ValidationError :=
  match customValidator rule with
  | Some f =>
      if f value then None
      else Some (mk_error rule (field rule ++ " failed custom validation")
                   value "custom")
  | None => None
  end.

(** The error of the first failing check of a sequence. *)
Fixpoint first_failure (checks : list (option ValidationError))
  : option ValidationError :=
  match checks with
  | [] => None
  | Some e :: _ => Some e
  | None :: rest => first_failure rest
  end.

Definition is_string (value : JsValue) : bool :=
  match value with VStr _ => true | _ => false end.


(** ** Vocabulary of the statements *)

(** The rule kinds an entry of [errors] can carry. *)
Definition error_kinds : list string :=
  ["required"; "minLength"; "maxLength"; "pattern"; "custom";
   "minOptions"; "maxOptions"].

Definition error_kind (e : ValidationError) : Prop := err_rule e ∈ error_kinds.

Definition duplicates_warning : ValidationError :=
  {| err_field := "options"; err_message := "Duplicate options detected";
     err_value := None; err_rule := "duplicates" |}.

(** The record [q] with its [correctAnswer] replaced ([None]: removed). *)
Definition with_correctAnswer (q : QuizQuestion) (answer : option JsValue)
  : QuizQuestion :=
  {| id_ := id_ q; question := question q; options := options q;
     correctAnswer := answer; explanation := explanation q;
     category := category q; difficulty := difficulty q; extra := extra q |}.

(** The sum of the scores of a list of results. *)
Definition sum_scores (rs : list ValidationResult) : Z :=
  foldr Z.add 0 (score <$> rs).

(** The ingredients of the score formula, in the words of the
    specification. *)
Definition optionCount (q : QuizQuestion) : Z :=
  match options q with Some os => Z.of_nat (length os) | None => 0 end.

Definition customRuleCount (o : QuizValidationOptions) : Z :=
  match customRules o with
  | Some rules => Z.of_nat (length rules)
  | None => 0
  end.

(** [1] if the option is switched on, else [0] (the default is off). *)
Definition one_if (flag : OptionalProp bool) : Z :=
  match flag with Given true => 1 | _ => 0 end.

Definition spec_totalChecks (q : QuizQuestion) (o : QuizValidationOptions)
  : Z :=
  4 + optionCount q + one_if (requireExplanation o)
  + one_if (requireCategory o) + one_if (requireDifficulty o)
  + customRuleCount o.

(** [max(0, round(((totalChecks - failedChecks) / totalChecks) * 100))],
    in binary64. *)
Definition spec_score (totalChecks failedChecks : Z) : Z :=
  Z.max 0
    (Math_round
       (Number_mul
          (Number_div (Number (totalChecks - failedChecks))
             (Number totalChecks))
          (Number 100))).

(** A JavaScript array has at most 2^32 - 1 elements. *)
Definition MAX_ARRAY_LENGTH : Z := 2 ^ 32 - 1.

Definition array_sized (q : QuizQuestion) (o : QuizValidationOptions) : Prop :=
  optionCount q <= MAX_ARRAY_LENGTH /\ customRuleCount o <= MAX_ARRAY_LENGTH.

(** ** Sample inputs *)

(** A question record with the question text and the options only. *)
Definition plain_question (text : string) (os : option (list string))
  : QuizQuestion :=
  {| id_ := None; question := text; options := os; correctAnswer := None;
     explanation := None; category := None; difficulty := None;
     extra := ∅ |}.

(** [{ requireExplanation: true }] *)
Definition require_explanation : QuizValidationOptions :=
  {| questionMinLength := Missing; questionMaxLength := Missing;
     optionMinLength := Missing; optionMaxLength := Missing;
     explanationMinLength := Missing; explanationMaxLength := Missing;
     minOptions := Missing; maxOptions := Missing;
     requireExplanation := Given true; requireCategory := Missing;
     requireDifficulty := Missing; customRules := None |}.

Definition with_customRules (rules : list ValidationRule)
  : QuizValidationOptions :=
  {| questionMinLength := Missing; questionMaxLength := Missing;
     optionMinLength := Missing; optionMaxLength := Missing;
     explanationMinLength := Missing; explanationMaxLength := Missing;
     minOptions := Missing; maxOptions := Missing;
     requireExplanation := Missing; requireCategory := Missing;
     requireDifficulty := Missing; customRules := Some rules |}.

(** [{ customRules: [{ field: 'correctAnswer', required: true }] }] *)
Definition require_correctAnswer : QuizValidationOptions :=
  with_customRules
    [ {| field := "correctAnswer"; minLength := None; maxLength := None;
         required := Some true; pattern := None; customValidator := None;
         errorMessage := None |} ].

(** The custom rule of the test suite: [points] must be at least 10. *)
Definition points_rule : QuizValidationOptions :=
  with_customRules
    [ {| field := "points"; minLength := None; maxLength := None;
         required := None; pattern := None;
         customValidator :=
           Some (fun v => match v with VNum n => 10 <=? n | _ => false end);
         errorMessage := Some "Points must be at least 10" |} ].

Definition four_options : QuizQuestion :=
  plain_question "What is 2+2?" (Some ["3"; "4"; "5"; "6"]).

(** 36 options, 17 of them empty, and room for them: 40 checks, 17 of
    which fail. *)
Definition tie_question : QuizQuestion :=
  plain_question "What is 2+2?"
    (Some (List.repeat EmptyString 17 ++ List.repeat "A" 19)%list).

Definition loose_options : QuizValidationOptions :=
  {| questionMinLength := Missing; questionMaxLength := Missing;
     optionMinLength := Missing; optionMaxLength := Missing;
     explanationMinLength := Missing; explanationMaxLength := Missing;
     minOptions := Missing; maxOptions := Given 100;
     requireExplanation := Missing; requireCategory := Missing;
     requireDifficulty := Missing; customRules := None |}.

(** 396 options, all "A": 400 checks. *)
Definition many_options : QuizQuestion :=
  plain_question "What is 2+2?" (Some (List.repeat "A" 396)).

(** ** Strings: the methods the importers and the analytics use *)

(** White space and line terminators, as [trim] and the class [\s] take
    them, among the code units below U+0100: tab, line feed, vertical tab,
    form feed, carriage return, space and no-break space. *)
Definition is_whitespace (c : ascii) : bool :=
  let n := N_of_ascii c in
  ((9 <=? n) && (n <=? 13) || (n =? 32) || (n =? 160))%N.

Fixpoint String_trimStart (s : string) : string :=
  match s with
  | EmptyString => EmptyString
  | String c rest => if is_whitespace c then String_trimStart rest else s
  end.

Fixpoint String_trimEnd (s : string) : string :=
  match s with
  | EmptyString => EmptyString
  | String c rest =>
      match String_trimEnd rest with
      | EmptyString =>
          if is_whitespace c then EmptyString else String c EmptyString
      | kept => String c kept
      end
  end.

(** [s.trim()] *)
Definition String_trim (s : string) : string :=
  String_trimEnd (String_trimStart s).

(** [s.split(sep)] for a separator of one code unit: the pieces between
    the separators, the empty ones too, so at least one piece. *)
Fixpoint String_split (sep : ascii) (s : string) : list string :=
  match s with
  | EmptyString => [EmptyString]
  | String c rest =>
      if Ascii.eqb c sep then EmptyString :: String_split sep rest
      else
        match String_split sep rest with
        | piece :: pieces => String c piece :: pieces
        | [] => [String c EmptyString]
        end
  end.

(** [pieces.join(sep)] *)
Definition Array_join (sep : string) (pieces : list string) : string :=
  String.concat sep pieces.

Definition LF : ascii := "010"%char.
Definition TAB : ascii := "009"%char.
Definition QUOTE : ascii := "034"%char.
Definition COMMA : ascii := ","%char.

(** A string as a condition: the empty string is falsy. *)
Definition nonempty (s : string) : bool :=
  negb (bool_decide (s = EmptyString)).

(** [content.split('\n').filter(line => line.trim())] *)
Definition content_lines (content : string) : list string :=
  List.filter (fun line => nonempty (String_trim line))
    (String_split LF content).

(** ** Importers *)

(** [{ question: term, explanation: definition }] *)
Definition quizlet_card (term definition : string) : QuizQuestion :=
  {| id_ := None; question := term; options := None; correctAnswer := None;
     explanation := Some definition; category := None; difficulty := None;
     extra := ∅ |}.

(** [for (let i = 0; i < lines.length; i += 2)], leaving the loop when
    [lines[i + 1]] is not there. *)
Fixpoint quizlet_loop (lines : list string) : list QuizQuestion :=
  match lines with
  | line0 :: line1 :: rest =>
      let term := String_trim line0 in
      let definition := String_trim line1 in
      quizlet_card term definition :: quizlet_loop rest
  | _ => []
  end.

Definition convertFromQuizlet (content : string) : list QuizQuestion :=
  quizlet_loop (content_lines content).

(** One line of an Anki export; a line of fewer than two parts gives no
    card. *)
Definition anki_card (line : string) : option QuizQuestion :=
  match String_split TAB line with
  | front :: back :: tags =>
      Some
        {| id_ := None;
           question := String_trim front;
           options := None;
           correctAnswer := None;
           explanation := Some (String_trim back);
           category :=
             match tags with
             | tag :: _ => Some (String_trim tag)
             | [] => None
             end;
           difficulty := None;
           extra :=
             {[ "tags" := VArr ((fun t => VStr (String_trim t)) <$> tags) ]}
        |}
  | _ => None
  end.

Definition convertFromAnki (content : string) : list QuizQuestion :=
  omap anki_card (content_lines content).

(** [parseCSVLine]: the loop over the code units of the line, from the
    state [(result, current, inQuotes)]. *)
Fixpoint parseCSVLine_loop (line : string) (result : list string)
    (current : string) (inQuotes : bool) : list string :=
  match line with
  | EmptyString => (result ++ [String_trim current])%list
  | String char rest =>
      if Ascii.eqb char QUOTE then
        parseCSVLine_loop rest result current (negb inQuotes)
      else if Ascii.eqb char COMMA && negb inQuotes then
        parseCSVLine_loop rest (result ++ [String_trim current])%list
          EmptyString inQuotes
      else
        parseCSVLine_loop rest result (current ++ String char EmptyString)
          inQuotes
  end.

Definition parseCSVLine (line : string) : list string :=
  parseCSVLine_loop line [] EmptyString false.

(** One data line of a CSV file; a line of fewer than two values gives no
    question.  The options are the non-empty values of columns 2 to 5. *)
Definition csv_question (line : string) : option QuizQuestion :=
  let values := parseCSVLine line in
  match values with
  | value0 :: value1 :: columns =>
      Some
        {| id_ := None;
           question := value0;
           options := Some (List.filter nonempty (take 4 columns));
           correctAnswer := Some (VStr value1);
           explanation := None; category := None; difficulty := None;
           extra := ∅ |}
  | _ => None
  end.

(** [convertFromCsv]: the first line is the header, read and not used;
    without a first line [lines[0].split] throws a [TypeError], here
    [None]. *)
Definition convertFromCsv (content : string) : option (list QuizQuestion) :=
  match content_lines content with
  | [] => None
  | header :: rows => Some (omap csv_question rows)
  end.


(** ** Reports *)

(** A value in a template literal. *)
Fixpoint String_of (value : JsValue) : string :=
  match value with
  | VUndefined => "undefined"
  | VNull => "null"
  | VBool true => "true"
  | VBool false => "false"
  | VNum n => Number_toString n
  | VStr s => s
  | VArr xs =>
      Array_join ","
        (map (fun x =>
                match x with
                | VUndefined | VNull => EmptyString
                | _ => String_of x
                end) xs)
  | VObj _ => "[object Object]"
  end.

(** [lines.push(line)] *)
Definition lines_push (lines : list string) (line : string) : list string :=
  (lines ++ [line])%list.

(** [items.forEach((item) => { lines.push(line(item)); })] *)
Definition lines_forEach {A} (items : list A) (line : A -> string)
    (lines : list string) : list string :=
  fold_left (fun lines item => lines_push lines (line item)) items lines.

(** The lines of [generateReport], before they are joined. *)
Definition generateReport_lines (result : ValidationResult)
    (questionId : JsValue) : list string :=
  let lines : list string := [] in
  let lines :=
    match questionId with
    | VUndefined => lines
    | _ => lines_push lines ("## Question " ++ String_of questionId)
    end in
  let lines :=
    lines_push lines
      ("**Score**: " ++ Number_toString (score result) ++ "/100") in
  let lines :=
    lines_push lines
      ("**Status**: " ++ (if valid result then "✅ PASS" else "❌ FAIL")) in
  let lines := lines_push lines EmptyString in
  let lines :=
    if 0 <? Z.of_nat (length (errors result)) then
      let lines := lines_push lines "### Errors" in
      let lines :=
        lines_forEach (errors result)
          (fun error =>
             "- **" ++ err_field error ++ "**: " ++ err_message error)
          lines in
      lines_push lines EmptyString
    else lines in
  let lines :=
    if 0 <? Z.of_nat (length (warnings result)) then
      let lines := lines_push lines "### Warnings" in
      let lines :=
        lines_forEach (warnings result)
          (fun warning =>
             "- **" ++ err_field warning ++ "**: " ++ err_message warning)
          lines in
      lines_push lines EmptyString
    else lines in
  let lines :=
    if valid result then lines_push lines "✅ All validation checks passed!"
    else lines in
  lines.

Definition generateReport (result : ValidationResult) (questionId : JsValue)
  : string :=
  Array_join (String LF EmptyString) (generateReport_lines result questionId).

(** ** The validate command *)

(** A property written [name: value]: it is there, whatever [value] is. *)
Definition property {A} (value : option A) : OptionalProp A :=
  match value with Some a => Given a | None => Undefined end.

(** The options [validateCommand] validates with:
    [{ requireExplanation: options.strict,
       requireCategory: options.strict,
       requireDifficulty: options.strict }] *)
Definition validateCommand_options (strict : option bool)
  : QuizValidationOptions :=
  {| questionMinLength := Missing; questionMaxLength := Missing;
     optionMinLength := Missing; optionMaxLength := Missing;
     explanationMinLength := Missing; explanationMaxLength := Missing;
     minOptions := Missing; maxOptions := Missing;
     requireExplanation := property strict;
     requireCategory := property strict;
     requireDifficulty := property strict;
     customRules := None |}.

(** [validateCommand], from the parsed questions to the exit code of the
    run: the result of [validateQuizSet] and
    [process.exit(result.valid ? 0 : 1)]. *)
Definition validateCommand_result (questions : list QuizQuestion)
    (strict : option bool) : SetResult :=
  validateQuizSet questions (validateCommand_options strict).

Definition validateCommand_exit (questions : list QuizQuestion)
    (strict : option bool) : Z :=
  if set_valid (validateCommand_result questions strict) then 0 else 1.

(** ** Analytics: problematic questions *)

Record Problematic : Type := {
  (* [questions[index]], [undefined] past the end of [questions] *)
  problem_question : option QuizQuestion;
  issues : list string;
  problem_score : Z
}.

Record ProblematicQuestions : Type := {
  problematic : list Problematic;
  count : Z
}.

(** [validationResults.forEach((result, index) => ...)], from [index] on. *)
Fixpoint forEach_result (questions : list QuizQuestion)
    (validationResults : list ValidationResult) (index : nat)
    (problematic : list Problematic) : list Problematic :=
  match validationResults with
  | [] => problematic
  | result :: rest =>
      let problematic :=
        if negb (valid result) || (score result <? 70) then
          (problematic ++
             [ {| problem_question := questions !! index;
                  issues := map err_message (errors result);
                  problem_score := score result |} ])%list
        else problematic in
      forEach_result questions rest (S index) problematic
  end.

Definition identifyProblematicQuestions (questions : list QuizQuestion)
    (validationResults : list ValidationResult) : ProblematicQuestions :=
  let problematic := forEach_result questions validationResults 0 [] in
  {| problematic := problematic;
     count := Z.of_nat (length problematic) |}.

(** ** Vocabulary of the statements on importers and reports *)

(** [c] occurs in [s]. *)
Fixpoint has_char (c : ascii) (s : string) : bool :=
  match s with
  | EmptyString => false
  | String a rest => Ascii.eqb a c || has_char c rest
  end.

(** Nothing for [trim] to remove. *)
Definition trimmed (s : string) : Prop := String_trim s = s.

(** Only white space. *)
Fixpoint blank (s : string) : bool :=
  match s with
  | EmptyString => true
  | String c rest => is_whitespace c && blank rest
  end.

(** A field an export holds on a line of its own: not empty, nothing to
    trim, no line feed. *)
Definition clean (s : string) : Prop :=
  s <> EmptyString /\ trimmed s /\ has_char LF s = false.

(** The lines of a Quizlet export: of each card the term, then the
    definition. *)
Definition quizlet_lines (cards : list (string * string)) : list string :=
  flat_map (fun card => [card.1; card.2]) cards.

(** A note of an Anki export: front, back and tags. *)
Record AnkiNote : Type := {
  front : string;
  back : string;
  tags : list string
}.

Definition anki_fields (note : AnkiNote) : list string :=
  front note :: back note :: tags note.

(** The line of a note: its fields, tab separated. *)
Definition anki_line (note : AnkiNote) : string :=
  Array_join (String TAB EmptyString) (anki_fields note).

(** The question a note stands for. *)
Definition anki_question (note : AnkiNote) : QuizQuestion :=
  {| id_ := None; question := front note; options := None;
     correctAnswer := None; explanation := Some (back note);
     category := head (tags note); difficulty := None;
     extra := {[ "tags" := VArr (VStr <$> tags note) ]} |}.

(** A field of a tab separated line: nothing to trim, no tab, no line
    feed. *)
Definition anki_field (s : string) : Prop :=
  trimmed s /\ has_char TAB s = false /\ has_char LF s = false.

(** A field between double quotes. *)
Definition quoted (value : string) : string :=
  String QUOTE (value ++ String QUOTE EmptyString).

(** A record of a CSV file: question, answer and options. *)
Record CsvRecord : Type := {
  csv_text : string;
  csv_answer : string;
  csv_options : list string
}.

Definition csv_fields (r : CsvRecord) : list string :=
  csv_text r :: csv_answer r :: csv_options r.

(** The line of a record: every field quoted, comma separated. *)
Definition csv_line (r : CsvRecord) : string :=
  Array_join (String COMMA EmptyString) (quoted <$> csv_fields r).

(** The question a record stands for. *)
Definition csv_record_question (r : CsvRecord) : QuizQuestion :=
  {| id_ := None; question := csv_text r; options := Some (csv_options r);
     correctAnswer := Some (VStr (csv_answer r)); explanation := None;
     category := None; difficulty := None; extra := ∅ |}.

(** A field of a quoted CSV line: nothing to trim, no quote, no line
    feed. *)
Definition csv_field (s : string) : Prop :=
  trimmed s /\ has_char QUOTE s = false /\ has_char LF s = false.

(** The question fails validation. *)
Definition fails (o : QuizValidationOptions) (q : QuizQuestion) : bool :=
  negb (valid (validateQuizQuestion q o)).

(** The entry of a question among the problematic ones. *)
Definition problem_of (o : QuizValidationOptions) (q : QuizQuestion)
  : Problematic :=
  {| problem_question := Some q;
     issues := map err_message (errors (validateQuizQuestion q o));
     problem_score := score (validateQuizQuestion q o) |}.

(** The line of an error or a warning in a report. *)
Definition error_line (e : ValidationError) : string :=
  "- **" ++ err_field e ++ "**: " ++ err_message e.

Definition title_lines (questionId : JsValue) : list string :=
  match questionId with
  | VUndefined => []
  | _ => ["## Question " ++ String_of questionId]
  end.

Definition score_line (result : ValidationResult) : string :=
  "**Score**: " ++ Number_toString (score result) ++ "/100".

(** A section of a report: nothing without entries; else the heading, a
    line per entry and an empty line. *)
Definition section_lines (heading : string) (entries : list ValidationError)
  : list string :=
  match entries with
  | [] => []
  | _ => (heading :: map error_line entries ++ [EmptyString])%list
  end.

(** ** Analytics: numbers *)

(** [x < y] on numbers; a comparison with NaN is false. *)
Definition Number_lt (x y : spec_float) : bool := SFltb x y.

(** The literal [0.8]: the double closest to 8/10,
    7205759403792794 * 2^-53. *)
Definition Number_0_8 : spec_float :=
  S754_finite false 7205759403792794 (-53).

(** [Math.ceil] and [Math.floor] of a finite number, as integers; like
    [Math_round] they are not used on NaN or an infinity, here 0. *)
Definition Math_ceil (x : spec_float) : Z :=
  match x with
  | S754_finite s m e =>
      let n := cond_Zopp s (Z.pos m) in
      if 0 <=? e then n * 2 ^ e else - ((- n) `div` 2 ^ (- e))
  | _ => 0
  end.

Definition Math_floor (x : spec_float) : Z :=
  match x with
  | S754_finite s m e =>
      let n := cond_Zopp s (Z.pos m) in
      if 0 <=? e then n * 2 ^ e else n `div` 2 ^ (- e)
  | _ => 0
  end.



(** ** Analytics: duplicates *)

(** [toLowerCase] on a code unit below U+0100: the letters A to Z and the
    capital letters of Latin-1, U+00C0 to U+00DE without the
    multiplication sign. *)
Definition toLowerCase_unit (c : ascii) : ascii :=
  let n := N_of_ascii c in
  if ((65 <=? n) && (n <=? 90)
      || (192 <=? n) && (n <=? 222) && negb (n =? 215))%N
  then ascii_of_N (n + 32)
  else c.

Fixpoint String_toLowerCase (s : string) : string :=
  match s with
  | EmptyString => EmptyString
  | String c rest => String (toLowerCase_unit c) (String_toLowerCase rest)
  end.

(** [s.split(/\s+/)]: the pieces between the runs of white space; a run at
    the start or at the end leaves an empty piece there.  [in_run] tells
    that the code unit before was white space. *)
Fixpoint String_split_spaces_from (s : string) (in_run : bool)
  : list string :=
  match s with
  | EmptyString => [EmptyString]
  | String c rest =>
      if is_whitespace c then
        if in_run then String_split_spaces_from rest true
        else EmptyString :: String_split_spaces_from rest true
      else
        match String_split_spaces_from rest false with
        | piece :: pieces => String c piece :: pieces
        | [] => [String c EmptyString]
        end
  end.

Definition String_split_spaces (s : string) : list string :=
  String_split_spaces_from s false.

(** [new Set(text.toLowerCase().split(/\s+/))] *)
Definition word_set (text : string) : gset string :=
  list_to_set (String_split_spaces (String_toLowerCase text)).

Definition calculateSimilarity (text1 text2 : string) : spec_float :=
  let words1 := word_set text1 in
  let words2 := word_set text2 in
  let intersection : gset string := filter (fun w => w ∈ words2) words1 in
  let union : gset string := words1 ∪ words2 in
  Number_div (Number (Z.of_nat (size intersection)))
    (Number (Z.of_nat (size union))).

Record Duplicate : Type := {
  question1 : QuizQuestion;
  question2 : QuizQuestion;
  similarity : spec_float
}.

(** The inner loop of [findDuplicates]: [questions[i]] against the
    questions after it. *)
Fixpoint findDuplicates_inner (qi : QuizQuestion) (later : list QuizQuestion)
    (duplicates : list Duplicate) : list Duplicate :=
  match later with
  | [] => duplicates
  | qj :: rest =>
      let similarity := calculateSimilarity (question qi) (question qj) in
      let duplicates :=
        if Number_lt Number_0_8 similarity then
          (duplicates ++
             [ {| question1 := qi; question2 := qj;
                  similarity := similarity |} ])%list
        else duplicates in
      findDuplicates_inner qi rest duplicates
  end.

(** The outer loop, over [i]. *)
Fixpoint findDuplicates_outer (questions : list QuizQuestion)
    (duplicates : list Duplicate) : list Duplicate :=
  match questions with
  | [] => duplicates
  | qi :: later =>
      findDuplicates_outer later (findDuplicates_inner qi later duplicates)
  end.

Definition findDuplicates (questions : list QuizQuestion) : list Duplicate :=
  findDuplicates_outer questions [].

(** ** Analytics: distributions *)

(** [distribution[key] = (distribution[key] || 0) + 1], on an object whose
    keys are not names of [Object.prototype]. *)
Definition increment (distribution : gmap string Z) (key : string)
  : gmap string Z :=
  let current :=
    match distribution !! key with
    | Some n => if n =? 0 then 0 else n
    | None => 0
    end in
  <[ key := current + 1 ]> distribution.

(** [if (q.difficulty) { const key = String(q.difficulty); ... }] *)
Definition count_difficulty (distribution : gmap string Z) (q : QuizQuestion)
  : gmap string Z :=
  if to_boolean (of_any (difficulty q)) then
    increment distribution (String_of (of_any (difficulty q)))
  else distribution.

(** [if (q.category) { ...[q.category]... }] *)
Definition count_category (distribution : gmap string Z) (q : QuizQuestion)
  : gmap string Z :=
  match category q with
  | Some c => if nonempty c then increment distribution c else distribution
  | None => distribution
  end.




(** ** Analytics: completion time *)

Record CompletionTime : Type := {
  totalMinutes : Z;
  totalSeconds : spec_float;
  formatted : string
}.

(** [estimateCompletionTime], for a whole number of seconds per question
    (30 when it is left out). *)
Definition estimateCompletionTime (questions : list QuizQuestion)
    (secondsPerQuestion : option Z) : CompletionTime :=
  let secondsPerQuestion := default 30 secondsPerQuestion in
  let totalSeconds :=
    Number_mul (Number (Z.of_nat (length questions)))
      (Number secondsPerQuestion) in
  let totalMinutes := Math_ceil (Number_div totalSeconds (Number 60)) in
  let hours := Math_floor (Number_div (Number totalMinutes) (Number 60)) in
  let minutes := Z.rem totalMinutes 60 in
  let formatted :=
    if 0 <? hours then
      Number_toString hours ++ "h " ++ Number_toString minutes ++ "m"
    else Number_toString minutes ++ " minutes" in
  {| totalMinutes := totalMinutes;
     totalSeconds := totalSeconds;
     formatted := formatted |}.

(** ** Analytics: the quiz set *)

(** [x.toFixed(0)]: the integer closest to [x], a tie taken away from
    zero, in decimal digits (the percentages printed here are far below the
    1e21 from which [toFixed] changes notation). *)
Definition Number_toFixed_0 (x : spec_float) : string :=
  match x with
  | S754_zero _ => "0"
  | S754_infinity false => "Infinity"
  | S754_infinity true => "-Infinity"
  | S754_nan => "NaN"
  | S754_finite s m e =>
      (if s then "-" else EmptyString)
        ++ Number_toString (Math_round (S754_finite false m e))
  end.

(** [Object.keys(distribution).length] *)
Definition Object_keys_length (distribution : gmap string Z) : Z :=
  Z.of_nat (size distribution).

Record QuizAnalytics : Type := {
  totalQuestions : Z;
  averageQuestionLength : spec_float;
  averageExplanationLength : spec_float;
  averageOptionCount : spec_float;
  difficultyDistribution : gmap string Z;
  categoryDistribution : gmap string Z;
  qualityScore : Z;
  recommendations : list string
}.

(** [q.explanation?.length || 0] and [q.options?.length || 0] *)
Definition explanation_length (q : QuizQuestion) : Z :=
  match explanation q with Some s => str_length s | None => 0 end.

Definition options_length (q : QuizQuestion) : Z :=
  match options q with Some os => Z.of_nat (length os) | None => 0 end.

(** [if (test) { qualityScore -= points; recommendations.push(message); }]
    on the pair [(qualityScore, recommendations)]. *)
Definition deduct (test : bool) (points : Z) (message : string)
    (state : Z * list string) : Z * list string :=
  if test then (state.1 - points, lines_push state.2 message) else state.

Definition analyzeQuizSet (questions : list QuizQuestion) : QuizAnalytics :=
  let n := Z.of_nat (length questions) in
  if n =? 0 then
    {| totalQuestions := 0;
       averageQuestionLength := Number 0;
       averageExplanationLength := Number 0;
       averageOptionCount := Number 0;
       difficultyDistribution := ∅;
       categoryDistribution := ∅;
       qualityScore := 0;
       recommendations := ["No questions to analyze"] |}
  else
    (* Calculate averages *)
    let totalQuestionLength :=
      fold_left (fun sum q => sum + str_length (question q)) questions 0 in
    let averageQuestionLength :=
      Number_div (Number totalQuestionLength) (Number n) in
    let questionsWithExplanation :=
      List.filter (fun q => to_boolean (of_string (explanation q)))
        questions in
    let withExplanation := Z.of_nat (length questionsWithExplanation) in
    let totalExplanationLength :=
      fold_left (fun sum q => sum + explanation_length q)
        questionsWithExplanation 0 in
    let averageExplanationLength :=
      if 0 <? withExplanation then
        Number_div (Number totalExplanationLength) (Number withExplanation)
      else Number 0 in
    let totalOptionCount :=
      fold_left (fun sum q => sum + options_length q) questions 0 in
    let averageOptionCount :=
      Number_div (Number totalOptionCount) (Number n) in
    (* Calculate distributions *)
    let difficultyDistribution := fold_left count_difficulty questions ∅ in
    let categoryDistribution := fold_left count_category questions ∅ in
    (* Calculate quality score *)
    let state : Z * list string := (100, []) in
    let state :=
      deduct (Number_lt averageQuestionLength (Number 20)) 10
        "Questions are too short on average" state in
    let explanationCoverage :=
      Number_mul (Number_div (Number withExplanation) (Number n))
        (Number 100) in
    let state :=
      deduct (Number_lt explanationCoverage (Number 80)) 15
        ("Only " ++ Number_toFixed_0 explanationCoverage
           ++ "% of questions have explanations") state in
    let state :=
      deduct (Number_lt averageExplanationLength (Number 50)
              && (0 <? withExplanation)) 10
        "Explanations are too short on average" state in
    let state :=
      deduct (Number_lt averageOptionCount (Number 3)) 10
        "Too few options per question on average" state in
    let state :=
      deduct (Object_keys_length difficultyDistribution =? 1) 10
        "All questions have the same difficulty level" state in
    let state :=
      deduct (Object_keys_length categoryDistribution =? 0) 5
        "No categories assigned to questions" state in
    let recommendations :=
      if Z.of_nat (length state.2) =? 0 then
        lines_push state.2 "Quiz set is well-balanced and high quality"
      else state.2 in
    {| totalQuestions := n;
       averageQuestionLength := averageQuestionLength;
       averageExplanationLength := averageExplanationLength;
       averageOptionCount := averageOptionCount;
       difficultyDistribution := difficultyDistribution;
       categoryDistribution := categoryDistribution;
       qualityScore := Z.max 0 state.1;
       recommendations := recommendations |}.

(** ** Vocabulary of the statements on analytics *)

(** The two texts share more than four fifths of their words: with [A] and
    [B] the sets of their words, [|A ∩ B| / |A ∪ B| > 4/5]. *)
Definition similar (text1 text2 : string) : Prop :=
  4 * Z.of_nat (size (word_set text1 ∪ word_set text2))
  < 5 * Z.of_nat (size (word_set text1 ∩ word_set text2)).

(** The entry of [findDuplicates] for two questions. *)
Definition duplicate_of (qi qj : QuizQuestion) : Duplicate :=
  {| question1 := qi; question2 := qj;
     similarity := calculateSimilarity (question qi) (question qj) |}.



(** The sum of a field over the questions. *)
Definition total_of (f : QuizQuestion -> Z) (questions : list QuizQuestion)
  : Z :=
  fold_left (fun sum q => sum + f q) questions 0.

(** The penalties of [analyzeQuizSet], from the outcome of its six tests
    and the message of the second one: the score and the recommendations
    before the last step. *)
Definition quality_penalties
    (short uncovered brief few uniform uncategorized : bool)
    (message : string) : Z * list string :=
  deduct uncategorized 5 "No categories assigned to questions"
    (deduct uniform 10 "All questions have the same difficulty level"
       (deduct few 10 "Too few options per question on average"
          (deduct brief 10 "Explanations are too short on average"
             (deduct uncovered 15 message
                (deduct short 10 "Questions are too short on average"
                   (100, [])))))).

(** The questions with an explanation. *)
Definition explained (questions : list QuizQuestion) : list QuizQuestion :=
  List.filter (fun q => to_boolean (of_string (explanation q))) questions.

(** [explanationCoverage] of [analyzeQuizSet]. *)
Definition explanationCoverage (questions : list QuizQuestion) : spec_float :=
  Number_mul
    (Number_div (Number (Z.of_nat (length (explained questions))))
       (Number (Z.of_nat (length questions))))
    (Number 100).

(** ** Analytics: suggestions *)




(** ** The batch report *)

(** [Math.round(x)] in a template literal. *)
Definition Math_round_toString (x : spec_float) : string :=
  match x with
  | S754_nan => "NaN"
  | S754_infinity false => "Infinity"
  | S754_infinity true => "-Infinity"
  | _ => Number_toString (Math_round x)
  end.

(** [Math.round((count / results.length) * 100)], as printed. *)
Definition percent_of (count length : Z) : string :=
  Math_round_toString
    (Number_mul (Number_div (Number count) (Number length)) (Number 100)).

(** [questions[index].id || index + 1]; reading [id] of a question that is
    not there throws a [TypeError], here [None]. *)
Definition report_id (questions : list QuizQuestion) (index : nat)
  : option JsValue :=
  match questions !! index with
  | Some q =>
      Some (if to_boolean (of_any (id_ q)) then of_any (id_ q)
            else VNum (Z.of_nat index + 1))
  | None => None
  end.

(** [results.forEach((result, index) => ...)] of the failed questions,
    from [index] on. *)
Fixpoint forEach_failed (questions : list QuizQuestion)
    (results : list ValidationResult) (index : nat) (lines : list string)
  : option (list string) :=
  match results with
  | [] => Some lines
  | result :: rest =>
      if negb (valid result) then
        match report_id questions index with
        | Some id =>
            let lines := lines_push lines EmptyString in
            let lines := lines_push lines (generateReport result id) in
            forEach_failed questions rest (S index) lines
        | None => None
        end
      else forEach_failed questions rest (S index) lines
  end.

(** The lines of [generateBatchReport] before they are joined; [None] when
    the function throws. *)
Definition generateBatchReport_lines (questions : list QuizQuestion)
    (results : list ValidationResult) : option (list string) :=
  let lines : list string := [] in
  let lines := lines_push lines "# Quiz Validation Report" in
  let lines := lines_push lines EmptyString in
  let length_ := Z.of_nat (length results) in
  let passed := Z.of_nat (length (List.filter (fun r => valid r) results)) in
  let failed :=
    Z.of_nat (length (List.filter (fun r => negb (valid r)) results)) in
  let avgScore :=
    Number_div (Number (fold_left (fun sum r => sum + score r) results 0))
      (Number (Z.max 1 length_)) in
  let lines := lines_push lines "## Summary" in
  let lines :=
    lines_push lines ("- **Total Questions**: " ++ Number_toString length_) in
  let lines :=
    lines_push lines
      ("- **Passed**: " ++ Number_toString passed ++ " ("
         ++ percent_of passed length_ ++ "%)") in
  let lines :=
    lines_push lines
      ("- **Failed**: " ++ Number_toString failed ++ " ("
         ++ percent_of failed length_ ++ "%)") in
  let lines :=
    lines_push lines
      ("- **Average Score**: " ++ Math_round_toString avgScore ++ "/100") in
  let lines := lines_push lines EmptyString in
  (* Failed questions *)
  if 0 <? failed then
    let lines := lines_push lines "## Failed Questions" in
    forEach_failed questions results 0 lines
  else Some lines.

Definition generateBatchReport (questions : list QuizQuestion)
    (results : list ValidationResult) : option string :=
  Array_join (String LF EmptyString)
    <$> generateBatchReport_lines questions results.

(** * Properties *)

(** ** The field evaluator *)

Lemma is_empty_absent value : is_empty value = true <-> absent value.
Proof.
  unfold absent. destruct value as [| |b|n|s|xs|ps]; simpl;
    rewrite ?bool_decide_eq_true; split; intros H; auto;
    try discriminate H;
    try (destruct H as [H|[H|H]]; congruence).
  subst s. auto.
Qed.

Lemma or_default_mk rule dflt value kind :
  {| err_field := field rule;
     err_message := or_default (errorMessage rule) dflt;
     err_value := Some value;
     err_rule := kind |} = mk_error rule dflt value kind.
Proof.
  unfold mk_error, or_default. destruct (errorMessage rule) as [msg|]; [|done].
  by destruct (decide (msg = EmptyString));
    [rewrite bool_decide_eq_true_2 | rewrite bool_decide_eq_false_2].
Qed.

(** The evaluator on an absent value: the required error or nothing. *)
Lemma validateField_absent value rule :
  absent value ->
  validateField value rule =
    if truthy (required rule)
    then Some (mk_error rule (field rule ++ " is required") value "required")
    else None.
Proof.
  intros Habs%is_empty_absent. unfold validateField. rewrite Habs.
  destruct (truthy (required rule)); simpl; [|done].
  by rewrite or_default_mk.
Qed.

Ltac length_tests :=
  repeat match goal with
    | |- context [decide (?a < ?b)] =>
        destruct (decide (a < b));
        [ rewrite ?Z.gtb_ltb, ?(proj2 (Z.ltb_lt a b)) by assumption
        | rewrite ?Z.gtb_ltb, ?(proj2 (Z.ltb_ge a b)) by lia ]
    end.

(** The evaluator on a value that is there: the four later checks in
    sequence. *)
Lemma validateField_present value rule :
  is_empty value = false ->
  validateField value rule =
    first_failure [check_minLength value rule; check_maxLength value rule;
                   check_pattern value rule; check_custom value rule].
Proof.
  intros Hne. unfold validateField. rewrite Hne, !andb_false_r.
  unfold check_minLength, check_maxLength, check_pattern, check_custom.
  destruct value as [| |b|n|s|xs|ps]; try discriminate Hne; simpl;
    destruct (minLength rule) as [m|], (maxLength rule) as [m'|],
      (pattern rule) as [p|]; destruct (customValidator rule) as [f|];
      simpl; length_tests; simpl;
      try destruct (p s); simpl; try destruct (f _); simpl;
      by rewrite ?or_default_mk.
Qed.

Lemma truthy_false b : truthy b = false <-> b = Some false \/ b = None.
Proof. destruct b as [[]|]; simpl; split; intros; try tauto; try congruence;
  destruct H; congruence. Qed.

Lemma is_empty_string s : s <> EmptyString -> is_empty (VStr s) = false.
Proof. intros H. simpl. by apply bool_decide_eq_false_2. Qed.

Lemma check_required_present value rule :
  is_empty value = false -> check_required value rule = None.
Proof.
  unfold check_required.
  by destruct (required rule) as [[]|], value as [| |b|n|[|c s]|xs|ps].
Qed.

Lemma check_required_absent value rule :
  absent value ->
  check_required value rule =
    if truthy (required rule)
    then Some (mk_error rule (field rule ++ " is required") value "required")
    else None.
Proof.
  unfold check_required.
  intros [->|[->| ->]]; by destruct (required rule) as [[]|].
Qed.

(** C4, as the specification states it, fails: an [errorMessage] that is
    set, but to the empty string, is not the message of the required error. *)
Lemma required_message_when_set_counterexample :
  ~ (forall value rule msg,
       absent value -> required rule = Some true ->
       errorMessage rule = Some msg ->
       err_message <$> validateField value rule = Some msg).
Proof.
  intros H.
  specialize (H VUndefined
    {| field := "f"; minLength := None; maxLength := None;
       required := Some true; pattern := None; customValidator := None;
       errorMessage := Some EmptyString |} EmptyString).
  discriminate H; [unfold absent; auto | reflexivity | reflexivity].
Qed.

(** C4 (amended).  On an absent value ([undefined], [null] or the empty
    string): when [rule.required] is true, [validateField] returns a
    required-kind error on [rule.field] carrying the value, whose message
    is [rule.errorMessage] when that is set to a non-empty string and
    "<field> is required" when it is unset or the empty string; when
    [rule.required] is false or unset, [validateField] returns null,
    whatever [minLength], [maxLength], [pattern] and [customValidator]
    are. *)
Theorem validateField_absent_value :
  forall value rule,
    absent value ->
    (required rule = Some true ->
     exists e,
       validateField value rule = Some e /\
       err_rule e = "required" /\ err_field e = field rule /\
       err_value e = Some value /\
       (forall msg, errorMessage rule = Some msg -> msg <> EmptyString ->
                    err_message e = msg) /\
       (errorMessage rule = None \/ errorMessage rule = Some EmptyString ->
        err_message e = field rule ++ " is required")) /\
    (required rule = Some false \/ required rule = None ->
     validateField value rule = None).
Proof.
  intros value rule Habs. rewrite (validateField_absent _ _ Habs). split.
  - intros ->. simpl. eexists. split; [reflexivity|]. simpl.
    repeat split; auto.
    + intros msg -> Hmsg. by destruct (decide (msg = EmptyString)).
    + by intros [-> | ->].
  - intros Hreq%truthy_false. by rewrite Hreq.
Qed.

Lemma validateField_absent_value_witness :
  absent (VStr EmptyString) /\
  exists e,
    validateField (VStr EmptyString)
      {| field := "test"; minLength := None; maxLength := None;
         required := Some true; pattern := None; customValidator := None;
         errorMessage := Some "Custom error message" |} = Some e /\
    err_rule e = "required" /\ err_message e = "Custom error message".
Proof.
  assert (Habs : absent (VStr EmptyString)) by (unfold absent; auto).
  split; [exact Habs|].
  destruct (validateField_absent_value (VStr EmptyString)
    {| field := "test"; minLength := None; maxLength := None;
       required := Some true; pattern := None; customValidator := None;
       errorMessage := Some "Custom error message" |} Habs) as [Hreq _].
  destruct (Hreq eq_refl) as (e & He & Hrule & _ & _ & Hmsg & _).
  exists e. split; [exact He|]. split; [exact Hrule|].
  apply Hmsg; [reflexivity | discriminate].
Defined.

(** C5, as the specification states it, fails: the empty string is shorter
    than a positive [minLength], and an optional rule returns null on it. *)
Lemma length_bound_iff_counterexample :
  ~ (forall (v : string) (m : Z) rule,
       minLength rule = Some m ->
       (validateField (VStr v) rule <> None <-> str_length v < m)).
Proof.
  intros H.
  specialize (H EmptyString 5
    {| field := "optional"; minLength := Some 5; maxLength := None;
       required := None; pattern := None; customValidator := None;
       errorMessage := None |} eq_refl).
  apply H; [reflexivity | reflexivity].
Qed.

(** The kind of the error of each check. *)
Lemma check_minLength_kind value rule e :
  check_minLength value rule = Some e -> err_rule e = "minLength".
Proof.
  unfold check_minLength.
  destruct (minLength rule), value; try discriminate.
  case_decide; intros; by simplify_eq.
Qed.

Lemma check_maxLength_kind value rule e :
  check_maxLength value rule = Some e -> err_rule e = "maxLength".
Proof.
  unfold check_maxLength.
  destruct (maxLength rule), value; try discriminate.
  case_decide; intros; by simplify_eq.
Qed.

Lemma check_pattern_kind value rule e :
  check_pattern value rule = Some e -> err_rule e = "pattern".
Proof.
  unfold check_pattern.
  destruct (pattern rule) as [p|], value as [| |b|n|s|xs|ps]; try discriminate.
  destruct (p s); intros; by simplify_eq.
Qed.

Lemma check_custom_kind value rule e :
  check_custom value rule = Some e -> err_rule e = "custom".
Proof.
  unfold check_custom. destruct (customValidator rule) as [f|]; [|done].
  destruct (f value); intros; by simplify_eq.
Qed.

Lemma check_minLength_fails (v : string) rule m :
  minLength rule = Some m ->
  is_Some (check_minLength (VStr v) rule) <-> str_length v < m.
Proof.
  intros Hmin. unfold check_minLength. rewrite Hmin.
  case_decide; split; intros Hs; try done; by destruct Hs.
Qed.

Lemma check_maxLength_fails (v : string) rule M :
  maxLength rule = Some M ->
  is_Some (check_maxLength (VStr v) rule) <-> M < str_length v.
Proof.
  intros Hmax. unfold check_maxLength. rewrite Hmax.
  case_decide; split; intros Hs; try done; by destruct Hs.
Qed.

(** A non-empty string and a minimum length: the minLength error iff the
    string is shorter. *)
Lemma validateField_minLength (v : string) rule m :
  v <> EmptyString -> minLength rule = Some m ->
  (exists e, validateField (VStr v) rule = Some e /\ err_rule e = "minLength")
  <-> str_length v < m.
Proof.
  intros Hv Hmin. rewrite validateField_present by by apply is_empty_string.
  rewrite <- (check_minLength_fails v rule m Hmin). simpl.
  destruct (check_minLength (VStr v) rule) as [e|] eqn:Hcmin.
  - split; [by eauto|]. intros _. exists e.
    split; [done | by eapply check_minLength_kind].
  - split; [|by intros []]. intros (e & He & Hkind). exfalso.
    destruct (check_maxLength (VStr v) rule) as [e'|] eqn:Hcmax; simpl in He.
    { apply check_maxLength_kind in Hcmax. simplify_eq. congruence. }
    destruct (check_pattern (VStr v) rule) as [e'|] eqn:Hcpat; simpl in He.
    { apply check_pattern_kind in Hcpat. simplify_eq. congruence. }
    destruct (check_custom (VStr v) rule) as [e'|] eqn:Hccus; [|done].
    apply check_custom_kind in Hccus. simplify_eq. congruence.
Qed.

(** A non-empty string that meets the minimum length, if there is one, and
    a maximum length: the maxLength error iff the string is longer. *)
Lemma validateField_maxLength (v : string) rule M :
  v <> EmptyString -> maxLength rule = Some M ->
  (forall m, minLength rule = Some m -> m <= str_length v) ->
  (exists e, validateField (VStr v) rule = Some e /\ err_rule e = "maxLength")
  <-> M < str_length v.
Proof.
  intros Hv Hmax Hmin.
  rewrite validateField_present by by apply is_empty_string.
  rewrite <- (check_maxLength_fails v rule M Hmax). simpl.
  assert (Hcmin : check_minLength (VStr v) rule = None).
  { destruct (minLength rule) as [m|] eqn:Hm;
      [|unfold check_minLength; by rewrite Hm].
    destruct (check_minLength (VStr v) rule) eqn:Hc; [|done].
    assert (str_length v < m)
      by (apply (check_minLength_fails v rule); [done | by eauto]).
    specialize (Hmin m eq_refl). lia. }
  rewrite Hcmin.
  destruct (check_maxLength (VStr v) rule) as [e|] eqn:Hcmax.
  - split; [by eauto|]. intros _. exists e.
    split; [done | by eapply check_maxLength_kind].
  - split; [|by intros []]. intros (e & He & Hkind). exfalso.
    destruct (check_pattern (VStr v) rule) as [e'|] eqn:Hcpat; simpl in He.
    { apply check_pattern_kind in Hcpat. simplify_eq. congruence. }
    destruct (check_custom (VStr v) rule) as [e'|] eqn:Hccus; [|done].
    apply check_custom_kind in Hccus. simplify_eq. congruence.
Qed.

(** A rule whose only constraint is a length bound. *)
Lemma validateField_only_minLength (v : string) rule m :
  v <> EmptyString -> minLength rule = Some m -> maxLength rule = None ->
  pattern rule = None -> customValidator rule = None ->
  validateField (VStr v) rule <> None <-> str_length v < m.
Proof.
  intros Hv Hmin Hmax Hpat Hcus.
  rewrite validateField_present by by apply is_empty_string.
  unfold check_minLength, check_maxLength, check_pattern, check_custom.
  rewrite Hmin, Hmax, Hpat, Hcus. simpl. by case_decide.
Qed.

Lemma validateField_only_maxLength (v : string) rule M :
  v <> EmptyString -> maxLength rule = Some M -> minLength rule = None ->
  pattern rule = None -> customValidator rule = None ->
  validateField (VStr v) rule <> None <-> M < str_length v.
Proof.
  intros Hv Hmax Hmin Hpat Hcus.
  rewrite validateField_present by by apply is_empty_string.
  unfold check_minLength, check_maxLength, check_pattern, check_custom.
  rewrite Hmin, Hmax, Hpat, Hcus. simpl. by case_decide.
Qed.

(** C5 (amended).  For a non-empty string [v]: a rule with
    [minLength = m] yields a minLength-kind error iff [len v < m]; a rule
    with [maxLength = M] whose [minLength], if any, is met yields a
    maxLength-kind error iff [len v > M]; and when the rule has no other
    constraint (no pattern, no custom validator, no other length bound)
    [validateField] returns an error iff that bound is violated.  The
    empty string counts as absent: it yields an error iff the rule is
    required, whatever the bounds. *)
Theorem validateField_length_bounds :
  forall (v : string) rule,
    (v <> EmptyString ->
     (forall m, minLength rule = Some m ->
        ((exists e, validateField (VStr v) rule = Some e /\
                    err_rule e = "minLength") <-> str_length v < m)) /\
     (forall M, maxLength rule = Some M ->
        (forall m, minLength rule = Some m -> m <= str_length v) ->
        ((exists e, validateField (VStr v) rule = Some e /\
                    err_rule e = "maxLength") <-> M < str_length v)) /\
     (forall m, minLength rule = Some m -> maxLength rule = None ->
        pattern rule = None -> customValidator rule = None ->
        (validateField (VStr v) rule <> None <-> str_length v < m)) /\
     (forall M, maxLength rule = Some M -> minLength rule = None ->
        pattern rule = None -> customValidator rule = None ->
        (validateField (VStr v) rule <> None <-> M < str_length v))) /\
    (v = EmptyString ->
     (validateField (VStr v) rule <> None <-> required rule = Some true)).
Proof.
  intros v rule. split.
  - intros Hv. split; [|split; [|split]].
    + intros m. by apply validateField_minLength.
    + intros M. by apply validateField_maxLength.
    + intros m. by apply validateField_only_minLength.
    + intros M. by apply validateField_only_maxLength.
  - intros ->.
    rewrite validateField_absent by (unfold absent; auto).
    destruct (required rule) as [[]|]; simpl; split; congruence.
Qed.

Lemma validateField_length_bounds_witness :
  "abc" <> EmptyString /\
  (validateField (VStr "abc")
     {| field := "test"; minLength := Some 5; maxLength := None;
        required := None; pattern := None; customValidator := None;
        errorMessage := None |} <> None <-> str_length "abc" < 5).
Proof.
  assert (Hne : "abc" <> EmptyString) by discriminate.
  split; [exact Hne|].
  destruct (validateField_length_bounds "abc"
    {| field := "test"; minLength := Some 5; maxLength := None;
       required := None; pattern := None; customValidator := None;
       errorMessage := None |}) as [Hbounds _].
  destruct (Hbounds Hne) as (_ & _ & Hmin & _).
  exact (Hmin 5 eq_refl eq_refl eq_refl eq_refl).
Defined.

(** C6, as the specification states it, fails: on the empty string an
    optional rule with [minLength = 5] returns null, although the required
    check passes and the minLength check is the first to fail. *)
Lemma first_failing_check_counterexample :
  ~ (forall value rule,
       validateField value rule =
         first_failure
           [check_required value rule; check_minLength value rule;
            check_maxLength value rule; check_pattern value rule;
            check_custom value rule]).
Proof.
  intros H.
  specialize (H (VStr EmptyString)
    {| field := "optional"; minLength := Some 5; maxLength := None;
       required := None; pattern := None; customValidator := None;
       errorMessage := None |}).
  vm_compute in H. discriminate H.
Qed.

(** C6 (amended).  [validateField] runs its checks in the order required,
    minLength, maxLength, pattern, customValidator and returns the error of
    the first one that fails, whatever the later ones would say, except
    that an absent value of a rule that is not required returns null with
    no further check.  On a value that is neither a string nor absent the
    length and pattern checks do not apply: the result is that of the
    required and custom checks alone, and an error can only be a custom
    one. *)
Theorem validateField_precedence :
  forall value rule,
    (absent value -> required rule <> Some true ->
     validateField value rule = None) /\
    (~ (absent value /\ required rule <> Some true) ->
     validateField value rule =
       first_failure
         [check_required value rule; check_minLength value rule;
          check_maxLength value rule; check_pattern value rule;
          check_custom value rule]) /\
    (is_string value = false -> ~ absent value ->
     validateField value rule =
       first_failure [check_required value rule; check_custom value rule] /\
     check_minLength value rule = None /\
     check_maxLength value rule = None /\
     check_pattern value rule = None /\
     forall e, validateField value rule = Some e -> err_rule e = "custom").
Proof.
  intros value rule. repeat split.
  - intros Habs Hreq. rewrite validateField_absent by done.
    by destruct (required rule) as [[]|].
  - intros Hcase. destruct (is_empty value) eqn:Hemp.
    + apply is_empty_absent in Hemp.
      rewrite validateField_absent, check_required_absent by done.
      destruct (required rule) as [[]|] eqn:Hreq; simpl; [done| |];
        exfalso; apply Hcase; split; congruence.
    + rewrite validateField_present by done.
      simpl. by rewrite check_required_present.
  - rewrite validateField_present, check_required_present; try done.
    + unfold check_minLength, check_maxLength, check_pattern.
      destruct value; try discriminate; simpl;
        by destruct (minLength rule), (maxLength rule), (pattern rule).
    + destruct (is_empty value) eqn:Hemp; [|done].
      by apply is_empty_absent in Hemp.
    + destruct (is_empty value) eqn:Hemp; [|done].
      by apply is_empty_absent in Hemp.
  - unfold check_minLength. destruct value; try discriminate;
      by destruct (minLength rule).
  - unfold check_maxLength. destruct value; try discriminate;
      by destruct (maxLength rule).
  - unfold check_pattern. destruct value; try discriminate;
      by destruct (pattern rule).
  - intros e. rewrite validateField_present.
    + unfold check_minLength, check_maxLength, check_pattern, check_custom.
      destruct value; try discriminate; simpl;
        destruct (minLength rule), (maxLength rule), (pattern rule);
        destruct (customValidator rule) as [f|]; simpl;
        try destruct (f _); simpl; intros; simplify_eq; done.
    + destruct (is_empty value) eqn:Hemp; [|done].
      by apply is_empty_absent in Hemp.
Qed.

Lemma validateField_precedence_witness :
  is_string (VNum 3) = false /\ ~ absent (VNum 3) /\
  forall e,
    validateField (VNum 3)
      {| field := "even"; minLength := Some 5; maxLength := None;
         required := Some true; pattern := Some (fun _ => false);
         customValidator :=
           Some (fun v => match v with VNum n => Z.even n | _ => false end);
         errorMessage := None |} = Some e ->
    err_rule e = "custom".
Proof.
  assert (Hpres : ~ absent (VNum 3)).
  { intros [H|[H|H]]; discriminate H. }
  split; [reflexivity|]. split; [exact Hpres|].
  destruct (validateField_precedence (VNum 3)
    {| field := "even"; minLength := Some 5; maxLength := None;
       required := Some true; pattern := Some (fun _ => false);
       customValidator :=
         Some (fun v => match v with VNum n => Z.even n | _ => false end);
       errorMessage := None |}) as (_ & _ & Hnum).
  destruct (Hnum eq_refl Hpres) as (_ & _ & _ & _ & Hkind).
  exact Hkind.
Defined.

(** ** The question validator: errors and warnings *)

Lemma validateField_kind value rule e :
  validateField value rule = Some e -> error_kind e.
Proof.
  unfold error_kind, error_kinds. destruct (is_empty value) eqn:Hemp.
  - rewrite validateField_absent by by apply is_empty_absent.
    destruct (truthy (required rule)); intros; simplify_eq. simpl. set_solver.
  - rewrite validateField_present by done.
    unfold check_minLength, check_maxLength, check_pattern, check_custom.
    destruct value as [| |b|n|s|xs|ps]; simpl;
      destruct (minLength rule), (maxLength rule), (pattern rule) as [p|];
      destruct (customValidator rule) as [f|]; simpl;
      repeat case_decide; simpl;
      try destruct (p s); simpl; try destruct (f _); simpl;
      intros; simplify_eq; simpl; set_solver.
Qed.

Section Accumulate.
Variable P : ValidationError -> Prop.

Lemma push_Forall errs e : Forall P errs -> P e -> Forall P (push errs e).
Proof. intros. apply Forall_app. by split; [|constructor]. Qed.

Lemma push_if_Forall errs o :
  Forall P errs -> (forall e, o = Some e -> P e) -> Forall P (push_if errs o).
Proof. destruct o; simpl; intros; [apply push_Forall|]; auto. Qed.

Hypothesis validateField_P :
  forall value rule e, validateField value rule = Some e -> P e.

Lemma forEach_option_Forall opts os index errs :
  Forall P errs -> Forall P (forEach_option opts os index errs).
Proof.
  revert index errs. induction os as [|option rest IH]; intros; simpl; [done|].
  apply IH, push_if_Forall; eauto.
Qed.

Lemma for_customRules_Forall q rules errs :
  Forall P errs -> Forall P (for_customRules q rules errs).
Proof.
  revert errs. induction rules as [|rule rest IH]; intros; simpl; [done|].
  apply IH, push_if_Forall; eauto.
Qed.
End Accumulate.

Lemma push_length errs e : length (push errs e) = S (length errs).
Proof. unfold push. rewrite length_app. simpl. lia. Qed.

Lemma push_if_length errs o :
  (length errs <= length (push_if errs o) <= S (length errs))%nat.
Proof. destruct o; simpl; rewrite ?push_length; lia. Qed.

Lemma forEach_option_length opts os index errs :
  (length errs <= length (forEach_option opts os index errs)
   <= length errs + length os)%nat.
Proof.
  revert index errs. induction os as [|option rest IH]; intros; simpl; [lia|].
  match goal with |- context [push_if errs ?o] =>
    pose proof (push_if_length errs o);
    pose proof (IH (S index) (push_if errs o)) end.
  lia.
Qed.

Lemma for_customRules_length q rules errs :
  (length errs <= length (for_customRules q rules errs)
   <= length errs + length rules)%nat.
Proof.
  revert errs. induction rules as [|rule rest IH]; intros; simpl; [lia|].
  match goal with |- context [push_if errs ?o] =>
    pose proof (push_if_length errs o);
    pose proof (IH (push_if errs o)) end.
  lia.
Qed.

(** Every entry of [errors] has one of the seven error kinds. *)
Lemma errors_kind q o : Forall error_kind (errors (validateQuizQuestion q o)).
Proof.
  unfold validateQuizQuestion.
  destruct (options q) as [os|]; simpl.
  all: repeat first
    [ apply for_customRules_Forall; [apply validateField_kind|]
    | apply forEach_option_Forall; [apply validateField_kind|]
    | apply push_if_Forall; [|apply validateField_kind]
    | apply push_Forall; [|unfold error_kind, error_kinds; simpl; set_solver]
    | apply Forall_nil_2
    | match goal with
      | |- Forall _ (match ?x with _ => _ end) => destruct x
      end ].
Qed.

Lemma valid_iff_no_errors q o :
  valid (validateQuizQuestion q o) = true <->
  errors (validateQuizQuestion q o) = [].
Proof.
  unfold validateQuizQuestion. destruct (options q); simpl;
    rewrite Z.eqb_eq; (split; [intros H; apply length_zero_iff_nil; lia
                              | intros ->; reflexivity]).
Qed.

(** The size of [new Set(os)] is the length of [os] exactly when [os] has
    no duplicates. *)
Lemma uniqueOptions_size os :
  (size (uniqueOptions os) <= length os)%nat /\
  (size (uniqueOptions os) = length os <-> NoDup os).
Proof.
  unfold uniqueOptions. induction os as [|x os [IHle IHeq]]; simpl.
  - split; [done|]. split; [constructor | done].
  - destruct (decide (x ∈ os)) as [Hin|Hnin].
    + assert (Heq : {[x]} ∪ list_to_set os = (list_to_set os : gset string))
        by set_solver.
      rewrite Heq. split; [lia|]. split; [lia|].
      intros Hnd. by apply NoDup_cons in Hnd as [? _].
    + rewrite size_union, size_singleton by set_solver.
      split; [lia|]. rewrite NoDup_cons. split.
      * intros. split; [done|]. apply IHeq. lia.
      * intros [_ Hnd%IHeq]. lia.
Qed.

Lemma warnings_eq q o :
  warnings (validateQuizQuestion q o) =
    match options q with
    | Some os => if decide (NoDup os) then [] else [duplicates_warning]
    | None => []
    end.
Proof.
  unfold validateQuizQuestion. destruct (options q) as [os|]; simpl; [|done].
  destruct (uniqueOptions_size os) as [_ Hsz].
  destruct (decide (NoDup os)) as [Hnd|Hnd].
  - apply Hsz in Hnd as ->. by rewrite Z.eqb_refl.
  - rewrite (proj2 (Z.eqb_neq _ _)); [done|]. intros Heq. apply Hnd, Hsz. lia.
Qed.

(** C3.  [valid] is true iff [errors] is empty; warnings play no part: a
    question whose options hold a duplicate gets the duplicates entry in
    [warnings] (and nothing else there), no entry of [errors] is of kind
    duplicates, and [valid] is still decided by [errors] alone. *)
Theorem valid_iff_errors_empty :
  forall q o,
    let r := validateQuizQuestion q o in
    (valid r = true <-> errors r = []) /\
    (forall os, options q = Some os -> ~ NoDup os ->
       warnings r = [duplicates_warning] /\
       exists w, w ∈ warnings r /\ err_rule w = "duplicates") /\
    (forall e, e ∈ errors r -> err_rule e <> "duplicates").
Proof.
  intros q o r. subst r. split; [apply valid_iff_no_errors|]. split.
  - intros os Hos Hdup. rewrite warnings_eq, Hos, decide_False by done.
    split; [done|]. exists duplicates_warning. split; [set_solver | done].
  - intros e He Hk.
    pose proof (errors_kind q o) as Hall.
    rewrite Forall_forall in Hall. specialize (Hall e He).
    unfold error_kind, error_kinds in Hall. rewrite Hk in Hall.
    set_solver.
Qed.

Lemma valid_iff_errors_empty_witness :
  options (plain_question "Test question?" (Some ["Same"; "Different"; "Same"]))
    = Some ["Same"; "Different"; "Same"] /\
  ~ NoDup ["Same"; "Different"; "Same"] /\
  let r := validateQuizQuestion
             (plain_question "Test question?"
                (Some ["Same"; "Different"; "Same"])) no_options in
  warnings r = [duplicates_warning] /\ valid r = true.
Proof.
  assert (Hdup : ~ NoDup ["Same"; "Different"; "Same"]).
  { intros Hnd. apply NoDup_cons in Hnd as [Hnin _]. apply Hnin.
    right. left. }
  split; [reflexivity|]. split; [exact Hdup|].
  destruct (valid_iff_errors_empty
    (plain_question "Test question?" (Some ["Same"; "Different"; "Same"]))
    no_options) as (Hvalid & Hwarn & _).
  split.
  - exact (proj1 (Hwarn _ eq_refl Hdup)).
  - apply Hvalid. vm_compute. reflexivity.
Defined.

(** ** The example of the specification *)

(** C9, as the specification states it, fails: the question text "Q?" is
    shorter than the default [questionMinLength] of 5, so there are two
    errors, not one. *)
Lemma example_one_error_counterexample :
  length (errors (validateQuizQuestion
                    (plain_question "Q?" (Some ["A"; "B"]))
                    require_explanation)) <> 1%nat.
Proof. vm_compute. discriminate. Qed.

(** C9 (amended).  On the question [{question: "Q?", options: ["A","B"]}]
    with [{requireExplanation: true}] the validator returns two errors:
    a minLength error on field question, then the one error on field
    explanation, of kind required. *)
Theorem example_require_explanation :
  errors (validateQuizQuestion (plain_question "Q?" (Some ["A"; "B"]))
            require_explanation)
  = [ {| err_field := "question";
         err_message := "question must be at least 5 characters (got 2)";
         err_value := Some (VStr "Q?");
         err_rule := "minLength" |};
      {| err_field := "explanation";
         err_message := "explanation is required";
         err_value := Some VUndefined;
         err_rule := "required" |} ].
Proof. vm_compute. reflexivity. Qed.

(** ** The correctAnswer field *)

Lemma get_field_with_correctAnswer q answer name :
  name <> "correctAnswer" ->
  get_field (with_correctAnswer q answer) name = get_field q name.
Proof.
  intros Hname. unfold get_field. simpl.
  repeat case_decide; try done.
Qed.

Lemma for_customRules_with_correctAnswer q answer rules errs :
  Forall (fun rule => field rule <> "correctAnswer") rules ->
  for_customRules (with_correctAnswer q answer) rules errs
  = for_customRules q rules errs.
Proof.
  intros Hrules. revert errs.
  induction Hrules as [|rule rest Hrule _ IH]; intros errs; simpl; [done|].
  by rewrite get_field_with_correctAnswer, IH.
Qed.

(** C10, as the specification states it, fails: a custom rule may name the
    field correctAnswer, and [question[rule.field]] then reads it. *)
Lemma correctAnswer_never_read_counterexample :
  ~ (forall q answer o,
       validateQuizQuestion (with_correctAnswer q answer) o
       = validateQuizQuestion q o).
Proof.
  intros H.
  specialize (H four_options (Some (VStr "4")) require_correctAnswer).
  vm_compute in H. discriminate H.
Qed.

(** C10 (amended).  Two question records that differ only in
    [correctAnswer] (one may lack it) get the same result (valid, errors,
    warnings and score) under every options configuration none of whose
    custom rules names the field correctAnswer: the built-in checks never
    read it, although the constant 4 of the score counts it. *)
Theorem correctAnswer_not_validated :
  forall q answer o,
    (forall rules, customRules o = Some rules ->
       Forall (fun rule => field rule <> "correctAnswer") rules) ->
    validateQuizQuestion (with_correctAnswer q answer) o
    = validateQuizQuestion q o.
Proof.
  intros q answer o Hrules. unfold validateQuizQuestion, totalChecks. simpl.
  destruct (customRules o) as [rules|] eqn:Hcr; [|reflexivity].
  specialize (Hrules rules eq_refl).
  destruct (options q) as [os|]; simpl;
    by rewrite !for_customRules_with_correctAnswer.
Qed.

Lemma correctAnswer_not_validated_witness :
  (forall rules, customRules points_rule = Some rules ->
     Forall (fun rule => field rule <> "correctAnswer") rules) /\
  validateQuizQuestion (with_correctAnswer four_options (Some (VStr "4")))
    points_rule
  = validateQuizQuestion four_options points_rule.
Proof.
  assert (Hrules : forall rules, customRules points_rule = Some rules ->
            Forall (fun rule => field rule <> "correctAnswer") rules).
  { intros rules [= <-]. repeat constructor. discriminate. }
  split; [exact Hrules|].
  exact (correctAnswer_not_validated _ _ _ Hrules).
Defined.

(** ** Binary64 arithmetic of the score

    What the score needs of [SpecFloat]: an integer below 2^53 is a double,
    and a quotient of two of them, like its product with one hundred, is a
    double within one unit of its last place of the exact value.  That much
    decides [Math.round] of the percentage everywhere but at a tie. *)

Module Binary64.

Lemma pow2_succ d : 0 <= d -> 2 ^ (d + 1) = 2 * 2 ^ d.
Proof. intros. rewrite Z.pow_add_r by lia. lia. Qed.

Lemma pow2_pos d : 0 <= d -> 0 < 2 ^ d.
Proof. intros. apply Z.pow_pos_nonneg; lia. Qed.

Lemma digits2_bounds p :
  2 ^ (Z.pos (digits2_pos p) - 1) <= Z.pos p < 2 ^ Z.pos (digits2_pos p).
Proof.
  induction p as [p IH|p IH|]; simpl digits2_pos; [| |simpl; lia].
  all: rewrite Pos2Z.inj_succ; set (d := Z.pos (digits2_pos p)) in *;
    replace (Z.succ d - 1) with (d - 1 + 1) by lia;
    replace (Z.succ d) with (d - 1 + 1 + 1) by lia;
    replace d with (d - 1 + 1) in IH at 2 by lia;
    rewrite !pow2_succ in * by lia; lia.
Qed.

Lemma digits2_unique p d :
  2 ^ (d - 1) <= Z.pos p < 2 ^ d -> Z.pos (digits2_pos p) = d.
Proof.
  intros [Hlo Hhi]. pose proof (digits2_bounds p) as [Hlo' Hhi'].
  set (d' := Z.pos (digits2_pos p)) in *.
  assert (0 < d).
  { destruct (Z.lt_trichotomy d 0) as [Hd|[Hd|Hd]];
      [|subst d; simpl in *; lia|done].
    rewrite Z.pow_neg_r in Hhi by done. lia. }
  destruct (Z.lt_trichotomy d' d) as [Hlt|[Heq|Hgt]]; [|done|].
  - assert (2 ^ d' <= 2 ^ (d - 1)) by (apply Z.pow_le_mono_r; lia). lia.
  - assert (2 ^ d <= 2 ^ (d' - 1)) by (apply Z.pow_le_mono_r; lia). lia.
Qed.

(** [iter_pos] as an iteration over [nat]. *)
Lemma iter_pos_nat {A} (f : A -> A) p x :
  SpecFloat.iter_pos f p x = Nat.iter (Pos.to_nat p) f x.
Proof.
  revert x. induction p as [p IH|p IH|]; intros x.
  - change (SpecFloat.iter_pos f p~1 x)
      with (SpecFloat.iter_pos f p (SpecFloat.iter_pos f p (f x))).
    rewrite !IH, Pos2Nat.inj_xI. set (k := Pos.to_nat p).
    replace (S (2 * k)) with (k + (k + 1))%nat by lia.
    by rewrite !Nat.iter_add.
  - change (SpecFloat.iter_pos f p~0 x)
      with (SpecFloat.iter_pos f p (SpecFloat.iter_pos f p x)).
    rewrite !IH, Pos2Nat.inj_xO. set (k := Pos.to_nat p).
    replace (2 * k)%nat with (k + k)%nat by lia.
    by rewrite Nat.iter_add.
  - reflexivity.
Qed.

Lemma shr_1_m r : 0 <= shr_m r -> shr_m (shr_1 r) = shr_m r / 2.
Proof.
  destruct r as [m b s]; simpl. intros Hm.
  destruct m as [|[p|p|]|p]; simpl; try lia; try reflexivity.
  - rewrite Pos2Z.inj_xI. apply Z.div_unique with 1; lia.
  - rewrite Pos2Z.inj_xO. apply Z.div_unique with 0; lia.
Qed.

Lemma shr_1_exact r :
  0 <= shr_m r -> shr_r r = false -> shr_s r = false -> shr_m r mod 2 = 0 ->
  shr_r (shr_1 r) = false /\ shr_s (shr_1 r) = false.
Proof.
  destruct r as [m b s]; simpl. intros Hm -> -> Hmod.
  destruct m as [|[p|p|]|p]; simpl; try lia; try done.
  - rewrite Pos2Z.inj_xI in Hmod.
    rewrite Z.add_comm, Z.mul_comm, Z_mod_plus_full in Hmod. discriminate.
Qed.

Lemma shr_iter_m n r :
  0 <= shr_m r -> shr_m (Nat.iter n shr_1 r) = shr_m r / 2 ^ Z.of_nat n.
Proof.
  intros Hm. induction n as [|n IH].
  - simpl. by rewrite Z.div_1_r.
  - rewrite Nat2Z.inj_succ, Z.pow_succ_r by lia. simpl.
    rewrite shr_1_m, IH.
    + rewrite Z.div_div by (try apply pow2_pos; lia). f_equal. lia.
    + rewrite IH. apply Z.div_pos; [lia|apply pow2_pos; lia].
Qed.

Lemma shr_iter_exact n r :
  0 <= shr_m r -> shr_r r = false -> shr_s r = false ->
  shr_m r mod 2 ^ Z.of_nat n = 0 ->
  shr_r (Nat.iter n shr_1 r) = false /\ shr_s (Nat.iter n shr_1 r) = false.
Proof.
  intros Hm Hr Hs. induction n as [|n IH]; intros Hmod; [done|].
  rewrite Nat2Z.inj_succ, Z.pow_succ_r in Hmod by lia.
  assert (Hpos : 0 < 2 ^ Z.of_nat n) by (apply pow2_pos; lia).
  assert (Hmod' : shr_m r mod 2 ^ Z.of_nat n = 0).
  { apply Z.mod_divide in Hmod; [|lia]. apply Z.mod_divide; [lia|].
    destruct Hmod as [k Hk]. exists (k * 2). lia. }
  destruct (IH Hmod') as [Hr' Hs']. simpl.
  apply shr_1_exact; auto.
  - rewrite shr_iter_m by done. apply Z.div_pos; lia.
  - rewrite shr_iter_m by done.
    apply Z.mod_divide in Hmod; [|lia]. destruct Hmod as [k Hk].
    rewrite Hk, Z.mul_assoc, Z.div_mul by lia. apply Z.mod_mul. lia.
Qed.

Lemma shr_spec rec e n :
  0 <= n -> 0 <= shr_m rec ->
  exists rec',
    shr rec e n = (rec', e + n) /\
    shr_m rec' = shr_m rec / 2 ^ n /\
    (shr_r rec = false -> shr_s rec = false -> shr_m rec mod 2 ^ n = 0 ->
     shr_r rec' = false /\ shr_s rec' = false).
Proof.
  intros Hn Hm. destruct n as [|p|p]; [| |lia].
  - exists rec. simpl. rewrite Z.add_0_r, Z.div_1_r. auto.
  - exists (SpecFloat.iter_pos shr_1 p rec). simpl shr.
    rewrite iter_pos_nat, <- (positive_nat_Z p).
    split; [done|]. split; [by apply shr_iter_m|].
    intros. by apply shr_iter_exact.
Qed.

Lemma fexp_normal e : -1074 <= e - 53 -> fexp 53 1024 e = e - 53.
Proof. unfold fexp, emin. lia. Qed.

Lemma loc_of_shr_record_exact rec :
  shr_r rec = false -> shr_s rec = false -> loc_of_shr_record rec = loc_Exact.
Proof. by destruct rec as [m [] []]. Qed.

Lemma shr_fexp_spec mx e l n :
  0 <= n -> 2 ^ (52 + n) <= Z.pos mx < 2 ^ (53 + n) -> -1074 <= e + n ->
  exists rec',
    shr_fexp 53 1024 (Z.pos mx) e l = (rec', e + n) /\
    shr_m rec' = Z.pos mx / 2 ^ n /\
    (l = loc_Exact -> Z.pos mx mod 2 ^ n = 0 ->
     loc_of_shr_record rec' = loc_Exact).
Proof.
  intros Hn Hmx He. unfold shr_fexp. simpl Zdigits2.
  rewrite (digits2_unique mx (53 + n)), fexp_normal by
    (try replace (53 + n - 1) with (52 + n) by lia; first [done | lia]).
  replace (53 + n + e - 53 - e) with n by lia.
  destruct (shr_spec (shr_record_of_loc (Z.pos mx) l) e n)
    as (rec' & Hshr & Hm & Hex); [done | by destruct l as [|[]] |].
  exists rec'. split; [done|].
  split; [rewrite Hm; by destruct l as [|[]]|].
  intros -> Hmod. simpl in Hex. destruct (Hex eq_refl eq_refl Hmod).
  by apply loc_of_shr_record_exact.
Qed.

Lemma round_nearest_even_bounds m l :
  m <= round_nearest_even m l <= m + 1 /\
  (l = loc_Exact -> round_nearest_even m l = m).
Proof.
  unfold round_nearest_even.
  destruct l as [|[]]; try destruct (Z.even m); split; try lia; try done.
Qed.

Lemma binary_round_aux_bound s mx ex lx n :
  0 <= n -> 2 ^ (52 + n) <= Z.pos mx < 2 ^ (53 + n) ->
  -1074 <= ex + n -> ex + n + 1 <= 971 ->
  exists m' e',
    binary_round_aux 53 1024 s (Z.pos mx) ex lx = S754_finite s m' e' /\
    2 ^ 52 <= Z.pos m' < 2 ^ 53 /\
    ex + n <= e' <= ex + n + 1 /\
    Z.pos mx / 2 ^ n <= Z.pos m' * 2 ^ (e' - (ex + n))
      <= Z.pos mx / 2 ^ n + 1 /\
    (lx = loc_Exact -> Z.pos mx mod 2 ^ n = 0 ->
     Z.pos m' * 2 ^ (e' - (ex + n)) = Z.pos mx / 2 ^ n).
Proof.
  intros Hn Hmx Hlo Hhi. unfold binary_round_aux.
  destruct (shr_fexp_spec mx ex lx n) as (rec1 & -> & Hm1 & Hloc1); [done..|].
  pose proof (round_nearest_even_bounds (shr_m rec1) (loc_of_shr_record rec1))
    as [Hrne Hrne_exact].
  assert (Hpow : 0 < 2 ^ n) by (apply pow2_pos; lia).
  assert (Hm1_bounds : 2 ^ 52 <= shr_m rec1 < 2 ^ 53).
  { rewrite Hm1. rewrite !Z.pow_add_r in Hmx by lia. split.
    - apply Z.div_le_lower_bound; lia.
    - apply Z.div_lt_upper_bound; lia. }
  set (m2 := round_nearest_even (shr_m rec1) (loc_of_shr_record rec1)) in *.
  destruct m2 as [|pm2|pm2] eqn:Hm2; [lia| |lia].
  destruct (decide (Z.pos pm2 < 2 ^ 53)) as [Hlt|Hge].
  - destruct (shr_fexp_spec pm2 (ex + n) loc_Exact 0) as (rec2 & -> & Hmr2 & _);
      [lia | simpl; lia | lia |].
    rewrite Z.div_1_r in Hmr2. rewrite Hmr2, Z.add_0_r.
    rewrite (proj2 (Z.leb_le _ _)) by lia.
    exists pm2, (ex + n). rewrite Z.sub_diag, Z.mul_1_r.
    repeat split; try lia.
    intros Hlx Hmod. rewrite <- Hm1. apply Hrne_exact. by apply Hloc1.
  - assert (Hpm2 : Z.pos pm2 = 2 ^ 53) by lia.
    destruct (shr_fexp_spec pm2 (ex + n) loc_Exact 1) as (rec2 & -> & Hmr2 & _);
      [lia | rewrite Hpm2; simpl; lia | lia |].
    rewrite Hpm2 in Hmr2. change (2 ^ 53 / 2 ^ 1) with (Z.pos (2 ^ 52)) in Hmr2.
    rewrite Hmr2. rewrite (proj2 (Z.leb_le _ _)) by lia.
    exists (2 ^ 52)%positive, (ex + n + 1).
    replace (ex + n + 1 - (ex + n)) with 1 by lia.
    change (Z.pos (2 ^ 52) * 2 ^ 1) with (2 ^ 53). rewrite <- Hpm2.
    repeat split; try lia.
    intros Hlx Hmod. rewrite <- Hm1. apply Hrne_exact. by apply Hloc1.
Qed.

Lemma binary_round_aux_canonical s m e :
  2 ^ 52 <= Z.pos m < 2 ^ 53 -> -1074 <= e -> e + 1 <= 971 ->
  binary_round_aux 53 1024 s (Z.pos m) e loc_Exact = S754_finite s m e.
Proof.
  intros Hm Hlo Hhi.
  destruct (binary_round_aux_bound s m e loc_Exact 0)
    as (m' & e' & -> & Hm' & He' & _ & Hexact); [lia | done | lia | lia |].
  specialize (Hexact eq_refl (Z.mod_1_r _)).
  rewrite Z.div_1_r, Z.add_0_r in *.
  assert (e' = e \/ e' = e + 1) as [-> | ->] by lia.
  - rewrite Z.sub_diag, Z.mul_1_r in Hexact. by simplify_eq.
  - replace (e + 1 - e) with 1 in Hexact by lia. lia.
Qed.

Lemma iter_xO p k : Z.pos (Pos.iter xO p k) = Z.pos p * 2 ^ Z.pos k.
Proof.
  induction k as [|k IH] using Pos.peano_ind.
  - simpl. lia.
  - rewrite Pos.iter_succ, Pos2Z.inj_xO, IH, Pos2Z.inj_succ, Z.pow_succ_r; lia.
Qed.

(** An integer below 2^53 is a double: its mantissa is the integer shifted
    to 53 bits. *)
Lemma Number_pos z :
  0 < z < 2 ^ 53 ->
  exists m e,
    Number z = S754_finite false m e /\
    2 ^ 52 <= Z.pos m < 2 ^ 53 /\ -52 <= e <= 0 /\ Z.pos m = z * 2 ^ (- e).
Proof.
  intros [Hz0 Hz]. destruct z as [|p|p]; [lia| |lia].
  unfold Number, binary_normalize, binary_round.
  pose proof (digits2_bounds p) as [Hdlo Hdhi].
  set (d := Z.pos (digits2_pos p)) in *.
  assert (Hd : 1 <= d <= 53).
  { split; [subst d; lia|].
    destruct (decide (d <= 53)); [done|].
    assert (2 ^ 53 <= 2 ^ (d - 1)) by (apply Z.pow_le_mono_r; lia). lia. }
  rewrite Z.add_0_r, fexp_normal by lia. unfold shl_align.
  rewrite Z.sub_0_r.
  destruct (d - 53) as [|k|k] eqn:Hk; [| lia |].
  - assert (d = 53) as Hd53 by lia. rewrite Hd53 in *.
    rewrite binary_round_aux_canonical by (simpl in *; lia).
    exists p, 0. simpl in *. repeat split; lia.
  - assert (Hpk : Z.pos (Pos.iter xO p k) = Z.pos p * 2 ^ Z.pos k)
      by apply iter_xO.
    assert (Hdk : Z.pos k = 53 - d) by lia.
    assert (Hpow : 2 ^ (d - 1) * 2 ^ Z.pos k = 2 ^ 52).
    { rewrite <- Z.pow_add_r by lia. f_equal. lia. }
    assert (Hpow' : 2 ^ d * 2 ^ Z.pos k = 2 ^ 53).
    { rewrite <- Z.pow_add_r by lia. f_equal. lia. }
    assert (0 < 2 ^ Z.pos k) by (apply pow2_pos; lia).
    rewrite binary_round_aux_canonical by (rewrite ?Hpk; nia).
    exists (Pos.iter xO p k), (Z.neg k).
    repeat split; try nia.
    rewrite Hpk. done.
Qed.

Lemma Number_100 : Number 100 = S754_finite false 7036874417766400 (-46).
Proof. reflexivity. Qed.

Lemma div_eucl_eq a b : Z.div_eucl a b = (a / b, a mod b).
Proof. unfold Z.div, Z.modulo. by destruct (Z.div_eucl a b). Qed.

(** The division core on two 53-bit mantissas. *)
Lemma SFdiv_core_normal m1 e1 m2 e2 :
  2 ^ 52 <= Z.pos m1 < 2 ^ 53 -> 2 ^ 52 <= Z.pos m2 < 2 ^ 53 ->
  -1074 <= e1 - e2 - 53 ->
  SFdiv_core_binary 53 1024 (Z.pos m1) e1 (Z.pos m2) e2
  = (Z.pos m1 * 2 ^ 53 / Z.pos m2, e1 - e2 - 53,
     new_location (Z.pos m2) (Z.pos m1 * 2 ^ 53 mod Z.pos m2)).
Proof.
  intros Hm1 Hm2 He. unfold SFdiv_core_binary. simpl Zdigits2.
  rewrite (digits2_unique m1 53), (digits2_unique m2 53) by done.
  rewrite fexp_normal by lia.
  replace (53 + e1 - (53 + e2) - 53) with (e1 - e2 - 53) by lia.
  rewrite Z.min_l by lia.
  replace (e1 - e2 - (e1 - e2 - 53)) with 53 by lia.
  rewrite Z.shiftl_mul_pow2 by lia.
  by rewrite div_eucl_eq.
Qed.

Lemma new_location_exact m : new_location m 0 = loc_Exact.
Proof. unfold new_location. by destruct (Z.even m). Qed.

Lemma Number_div_self t :
  0 < t < 2 ^ 53 ->
  Number_div (Number t) (Number t) = S754_finite false (2 ^ 52) (-52).
Proof.
  intros Ht. destruct (Number_pos t Ht) as (m & e & -> & Hm & He & _).
  unfold Number_div, SFdiv. rewrite SFdiv_core_normal by (done || lia).
  rewrite (Z.mul_comm (Z.pos m)), Z.div_mul, Z.mod_mul by lia.
  rewrite new_location_exact. replace (e - e - 53) with (-53) by lia.
  reflexivity.
Qed.

(** The double quotient of two integers encloses the exact one: with the
    result [m * 2^e], [m - 1 <= a / t * 2^-e < m + 1]. *)
Lemma Number_div_enclosure a t :
  0 < a < 2 ^ 51 -> 0 < t < 2 ^ 53 ->
  exists m e,
    Number_div (Number a) (Number t) = S754_finite false m e /\
    2 ^ 52 <= Z.pos m < 2 ^ 53 /\ -105 <= e < 0 /\
    Z.pos m * t <= a * 2 ^ (- e) + t /\
    a * 2 ^ (- e) < (Z.pos m + 1) * t.
Proof.
  intros Ha Ht.
  destruct (Number_pos a) as (ma & ea & -> & Hma & Hea & Hva); [lia|].
  destruct (Number_pos t) as (mt & et & -> & Hmt & Het & Hvt); [lia|].
  unfold Number_div, SFdiv. rewrite SFdiv_core_normal by (done || lia).
  simpl xorb.
  set (q := Z.pos ma * 2 ^ 53 / Z.pos mt).
  set (e0 := ea - et - 53).
  set (Q := 2 ^ (- e0)).
  assert (Hpet : 0 < 2 ^ (- et)) by (apply pow2_pos; lia).
  assert (HQ : Z.pos ma * 2 ^ 53 = a * Q * 2 ^ (- et)).
  { rewrite Hva. subst Q e0. rewrite <- !Z.mul_assoc, <- !Z.pow_add_r by lia.
    do 2 f_equal. lia. }
  assert (Hq : 2 ^ 52 <= q < 2 ^ 54).
  { subst q. split.
    - apply Z.div_le_lower_bound; [lia|]. nia.
    - apply Z.div_lt_upper_bound; [lia|].
      change (2 ^ 54) with (2 * 2 ^ 53). nia. }
  assert (Hqt : q * t <= a * Q < (q + 1) * t).
  { pose proof (Z.mul_div_le (Z.pos ma * 2 ^ 53) (Z.pos mt) ltac:(lia)) as Hlo.
    pose proof (Z.mul_succ_div_gt (Z.pos ma * 2 ^ 53) (Z.pos mt) ltac:(lia))
      as Hhi.
    fold q in Hlo, Hhi. rewrite HQ, Hvt in Hlo, Hhi. split.
    - apply (Z.mul_le_mono_pos_r _ _ (2 ^ (- et))); [exact Hpet | lia].
    - apply (Z.mul_lt_mono_pos_r (2 ^ (- et))); [exact Hpet | lia]. }
  destruct q as [|pq|pq] eqn:Hpq; [lia| |lia].
  assert (Hk : exists k,
            (k = 0 \/ k = 1) /\ 2 ^ (52 + k) <= Z.pos pq < 2 ^ (53 + k)).
  { destruct (decide (Z.pos pq < 2 ^ 53)); [exists 0 | exists 1]; simpl; lia. }
  destruct Hk as (k & Hk01 & Hpqk).
  destruct (binary_round_aux_bound false pq e0
              (new_location (Z.pos mt) (Z.pos ma * 2 ^ 53 mod Z.pos mt)) k)
    as (m' & e' & -> & Hm' & He' & [Hlow Hup] & _); [lia | done | lia | lia |].
  set (A := Z.pos pq / 2 ^ k) in *.
  set (G := 2 ^ (- (e0 + k))).
  set (V := Z.pos m' * 2 ^ (e' - (e0 + k))) in *.
  assert (HA : 2 ^ 52 <= A).
  { subst A. apply Z.div_le_lower_bound; [apply pow2_pos; lia|].
    rewrite <- Z.pow_add_r by lia.
    replace (k + 52) with (52 + k) by lia. lia. }
  assert (HQG : Q = G * 2 ^ k).
  { subst Q G. rewrite <- Z.pow_add_r by lia. f_equal. lia. }
  assert (HAt : A * t <= a * G < (A + 1) * t).
  { destruct Hk01 as [-> | ->].
    - subst A. rewrite Z.div_1_r. rewrite HQG, Z.mul_1_r in Hqt. done.
    - assert (2 * A <= Z.pos pq <= 2 * A + 1).
      { subst A. change (2 ^ 1) with 2.
        pose proof (Z.mul_div_le (Z.pos pq) 2 ltac:(lia)).
        pose proof (Z.mul_succ_div_gt (Z.pos pq) 2 ltac:(lia)). lia. }
      rewrite HQG in Hqt. change (2 ^ 1) with 2 in Hqt.
      assert (2 * A * t <= Z.pos pq * t)
        by (apply Z.mul_le_mono_nonneg_r; lia).
      assert ((Z.pos pq + 1) * t <= (2 * A + 2) * t)
        by (apply Z.mul_le_mono_nonneg_r; lia).
      lia. }
  assert (HG0 : 0 < G) by (apply pow2_pos; lia).
  assert (HG : 2 * t < G).
  { assert (2 ^ 52 * t <= A * t) by (apply Z.mul_le_mono_nonneg_r; lia).
    assert (a * G < 2 ^ 51 * G) by (apply Z.mul_lt_mono_pos_r; lia).
    clearbody A G. clear - HAt H H0. lia. }
  assert (Hek : e0 + k <= -2).
  { destruct (decide (e0 + k <= -2)); [done|].
    assert (G <= 2 ^ 1) by (apply Z.pow_le_mono_r; lia). lia. }
  exists m', e'. split; [done|]. split; [done|]. split; [lia|].
  set (P := 2 ^ (- e')).
  assert (HP : 0 < P) by (apply pow2_pos; lia).
  set (J := 2 ^ (e' - (e0 + k))) in *.
  assert (HJ : 1 <= J) by (pose proof (pow2_pos (e' - (e0 + k))); lia).
  assert (HGP : G = P * J).
  { subst G P J. rewrite <- Z.pow_add_r by lia. f_equal. lia. }
  assert (HV : V = Z.pos m' * J) by reflexivity.
  clearbody A G V P J. subst G V.
  assert (Ht1 : t * 1 <= t * J) by (apply Z.mul_le_mono_nonneg_l; lia).
  split.
  - apply (Z.mul_le_mono_pos_r _ _ J); [lia|].
    assert (Z.pos m' * J * t <= (A + 1) * t)
      by (apply Z.mul_le_mono_nonneg_r; lia).
    clear - HAt Ht1 H. lia.
  - apply (Z.mul_lt_mono_pos_r J); [lia|].
    assert ((A + 1) * t <= (Z.pos m' * J + 1) * t)
      by (apply Z.mul_le_mono_nonneg_r; lia).
    clear - HAt Ht1 H. lia.
Qed.

Lemma Math_round_negative m e :
  e < 0 ->
  Math_round (S754_finite false m e)
  = (2 * Z.pos m + 2 ^ (- e)) / (2 * 2 ^ (- e)).
Proof.
  intros He. unfold Math_round. simpl cond_Zopp.
  rewrite (proj2 (Z.leb_gt 0 e)) by done.
  replace (1 - e) with (- e + 1) by lia. by rewrite pow2_succ by lia.
Qed.

(** The double product of a double, at most one, and one hundred encloses
    the exact product. *)
Lemma Number_mul_100_enclosure m1 e1 :
  2 ^ 52 <= Z.pos m1 < 2 ^ 53 -> -105 <= e1 <= -52 ->
  exists m e,
    Number_mul (S754_finite false m1 e1) (Number 100)
    = S754_finite false m e /\
    2 ^ 52 <= Z.pos m < 2 ^ 53 /\ e1 <= e < 0 /\
    Z.pos m * 2 ^ (- e1) <= 100 * Z.pos m1 * 2 ^ (- e) + 2 ^ (- e1) /\
    100 * Z.pos m1 * 2 ^ (- e) < (Z.pos m + 1) * 2 ^ (- e1).
Proof.
  intros Hm1 He1. rewrite Number_100. unfold Number_mul, SFmul. simpl xorb.
  set (c := 7036874417766400%positive).
  set (M := (m1 * c)%positive).
  assert (HM : Z.pos M = Z.pos m1 * (100 * 2 ^ 46)) by (subst M; lia).
  set (E := e1 + -46).
  assert (Hn : exists n,
            (n = 52 \/ n = 53) /\ 2 ^ (52 + n) <= Z.pos M < 2 ^ (53 + n)).
  { destruct (decide (Z.pos M < 2 ^ 105)); [exists 52 | exists 53]; simpl;
      rewrite HM; simpl in *; lia. }
  destruct Hn as (n & Hn & HMn).
  destruct (binary_round_aux_bound false M E loc_Exact n)
    as (m & e & -> & Hm & He & [Hlow Hup] & _); [lia | done | lia | lia |].
  exists m, e. split; [done|]. split; [done|]. split; [lia|].
  set (A := Z.pos M / 2 ^ n) in *.
  set (P1 := 2 ^ (- e1)).
  set (P := 2 ^ (- e)).
  set (J := 2 ^ (e - (E + n))) in *.
  set (G := 2 ^ (- (E + n))).
  assert (HP1 : 0 < P1) by (apply pow2_pos; lia).
  assert (HP : 0 < P) by (apply pow2_pos; lia).
  assert (HJ : 1 <= J) by (pose proof (pow2_pos (e - (E + n))); lia).
  assert (Hpn : 0 < 2 ^ n) by (apply pow2_pos; lia).
  assert (HGP : G = P * J).
  { subst G P J. rewrite <- Z.pow_add_r by lia. f_equal. lia. }
  assert (HnG : 2 ^ n * G = 2 ^ 46 * P1).
  { subst G P1 E. rewrite <- !Z.pow_add_r by lia. f_equal. lia. }
  assert (HAM : A * 2 ^ n <= Z.pos M < (A + 1) * 2 ^ n).
  { subst A. pose proof (Z.mul_div_le (Z.pos M) (2 ^ n) Hpn).
    pose proof (Z.mul_succ_div_gt (Z.pos M) (2 ^ n) Hpn). lia. }
  assert (HG0 : 0 < G) by (subst G; apply pow2_pos; lia).
  (* the exact product between two neighbours, at the scale of [G] *)
  assert (HAP : A * P1 <= 100 * Z.pos m1 * G < (A + 1) * P1).
  { assert (A * 2 ^ n * G <= Z.pos M * G)
      by (apply Z.mul_le_mono_nonneg_r; lia).
    assert (Z.pos M * G < (A + 1) * 2 ^ n * G)
      by (apply Z.mul_lt_mono_pos_r; lia).
    rewrite HM in *.
    assert (HA1 : A * 2 ^ n * G = A * P1 * 2 ^ 46) by (rewrite <- Z.mul_assoc, HnG; lia).
    assert (HA2 : (A + 1) * 2 ^ n * G = (A + 1) * P1 * 2 ^ 46)
      by (rewrite <- Z.mul_assoc, HnG; lia).
    rewrite HA1 in *. rewrite HA2 in *.
    clear - H H0. lia. }
  clearbody A G P P1 J. subst G.
  assert (HP1J : P1 * 1 <= P1 * J) by (apply Z.mul_le_mono_nonneg_l; lia).
  split.
  - apply (Z.mul_le_mono_pos_r _ _ J); [lia|].
    assert (Z.pos m * J * P1 <= (A + 1) * P1)
      by (apply Z.mul_le_mono_nonneg_r; lia).
    clear - HAP HP1J H. lia.
  - apply (Z.mul_lt_mono_pos_r J); [lia|].
    assert ((A + 1) * P1 <= (Z.pos m * J + 1) * P1)
      by (apply Z.mul_le_mono_nonneg_r; lia).
    clear - HAP HP1J H. lia.
Qed.

(** Rounding half up an enclosed percentage: with [m1 / P1] within one
    unit of [a / t] and [m2 / P2] within one unit of [100 * m1 / P1], at
    scales far finer than [1 / t], the integer nearest to [m2 / P2] is the
    integer nearest to [100 * a / t], or, if that is a tie, possibly the
    one below. *)
Lemma round_percent_enclosed a t m1 P1 m2 P2 :
  0 < a < t -> t < 2 ^ 40 -> 2 ^ 52 <= P1 -> 2 ^ 45 <= P2 ->
  m1 * t <= a * P1 + t -> a * P1 < (m1 + 1) * t ->
  m2 * P1 <= 100 * m1 * P2 + P1 -> 100 * m1 * P2 < (m2 + 1) * P1 ->
  let K := (200 * a + t) / (2 * t) in
  let S := (2 * m2 + P2) / (2 * P2) in
  S = K \/ (S = K - 1 /\ 200 * a + t = 2 * K * t).
Proof.
  intros Ha Ht HP1 HP2 Hd1 Hd2 Hm1 Hm2 K S.
  assert (HK : 2 * K * t <= 200 * a + t < 2 * (K + 1) * t).
  { subst K. pose proof (Z.mul_div_le (200 * a + t) (2 * t) ltac:(lia)).
    pose proof (Z.mul_succ_div_gt (200 * a + t) (2 * t) ltac:(lia)). lia. }
  clearbody K.
  (* the scales are finer than 1 / t *)
  assert (HD : 200 * (P2 * t) + 2 * (P1 * t) < P1 * P2).
  { assert (2 ^ 45 * P1 <= P2 * P1) by (apply Z.mul_le_mono_nonneg_r; lia).
    assert (P2 * 2 ^ 52 <= P2 * P1) by (apply Z.mul_le_mono_nonneg_l; lia).
    assert (P1 * t <= P1 * 2 ^ 40) by (apply Z.mul_le_mono_nonneg_l; lia).
    assert (P2 * t <= P2 * 2 ^ 40) by (apply Z.mul_le_mono_nonneg_l; lia).
    lia. }
  assert (HPP : 0 < P1 * t) by (apply Z.mul_pos_pos; lia).
  (* the two enclosures, multiplied out *)
  assert (Hlow : 200 * (a * P1 * P2) - 200 * (P2 * t)
                 < 2 * ((m2 + 1) * (P1 * t))).
  { assert (P2 * (a * P1 - t + 1) <= P2 * (m1 * t))
      by (apply Z.mul_le_mono_nonneg_l; lia).
    assert ((100 * m1 * P2 + 1) * t <= (m2 + 1) * P1 * t)
      by (apply Z.mul_le_mono_nonneg_r; lia).
    lia. }
  assert (Hupp : 2 * (m2 * (P1 * t))
                 <= 200 * (a * P1 * P2) + 200 * (P2 * t) + 2 * (P1 * t)).
  { assert (P2 * (m1 * t) <= P2 * (a * P1 + t))
      by (apply Z.mul_le_mono_nonneg_l; lia).
    assert (m2 * P1 * t <= (100 * m1 * P2 + P1) * t)
      by (apply Z.mul_le_mono_nonneg_r; lia).
    lia. }
  assert (HKlow : (2 * K * t - t) * (P1 * P2) <= 200 * a * (P1 * P2))
    by (apply Z.mul_le_mono_nonneg_r; lia).
  assert (HKupp : (200 * a + 1) * (P1 * P2) <= ((2 * K + 1) * t) * (P1 * P2))
    by (apply Z.mul_le_mono_nonneg_r; lia).
  assert (HP12 : 0 < P1 * P2) by (apply Z.mul_pos_pos; lia).
  assert (Ht1 : P1 * P2 * 1 <= P1 * P2 * t)
    by (apply Z.mul_le_mono_nonneg_l; lia).
  (* rounding [m2 / P2] *)
  assert (Hupper : 2 * m2 + P2 < 2 * (K + 1) * P2).
  { assert (2 * m2 < (2 * K + 1) * P2); [|lia].
    apply (Z.mul_lt_mono_pos_r (P1 * t)); [done|].
    clear - Hupp HKupp HD. lia. }
  assert (Hlower : 2 * (K - 1) * P2 <= 2 * m2 + P2).
  { assert ((2 * K - 3) * P2 < 2 * m2); [|lia].
    apply (Z.mul_lt_mono_pos_r (P1 * t)); [done|].
    clear - Hlow HKlow HD Ht1 HP12. lia. }
  destruct (decide (200 * a + t = 2 * K * t)) as [Htie|Hntie].
  - destruct (decide (2 * K * P2 <= 2 * m2 + P2)).
    + left. subst S. symmetry.
      apply Z.div_unique_pos with (2 * m2 + P2 - K * (2 * P2)); lia.
    + right. split; [|done]. subst S. symmetry.
      apply Z.div_unique_pos with (2 * m2 + P2 - (K - 1) * (2 * P2)); lia.
  - left.
    assert (HKlow' : (2 * K * t - t + 1) * (P1 * P2) <= 200 * a * (P1 * P2))
      by (apply Z.mul_le_mono_nonneg_r; lia).
    assert ((2 * K - 1) * P2 < 2 * m2).
    { apply (Z.mul_lt_mono_pos_r (P1 * t)); [done|].
      clear - Hlow HKlow' HD. lia. }
    subst S. symmetry.
    apply Z.div_unique_pos with (2 * m2 + P2 - K * (2 * P2)); lia.
Qed.

(** The rounded quotient of two integers is the exact one, rounded half
    up: a half-integer is a double, and the quotient is either on it or
    farther from it than a unit in the last place. *)
Lemma Math_round_div s n :
  0 <= s < 2 ^ 51 -> 0 < n < 2 ^ 53 ->
  Math_round (Number_div (Number s) (Number n)) = (2 * s + n) / (2 * n).
Proof.
  intros Hs Hn.
  destruct (decide (s = 0)) as [->|Hs0].
  { destruct (Number_pos n Hn) as (mn & en & -> & _). simpl.
    symmetry. apply Z.div_small. lia. }
  destruct (Number_div_enclosure s n) as (m & e & -> & Hm & He & Hlo & Hhi);
    [lia | done |].
  rewrite Math_round_negative by lia.
  set (P := 2 ^ (- e)) in *.
  assert (HP : 0 < P) by (apply pow2_pos; lia).
  assert (Heven : exists P', P = 2 * P').
  { exists (2 ^ (- e - 1)). subst P.
    replace (- e) with (- e - 1 + 1) at 1 by lia. apply pow2_succ. lia. }
  destruct Heven as [P' HP'].
  set (K := (2 * s + n) / (2 * n)).
  assert (HK : K * (2 * n) <= 2 * s + n < (K + 1) * (2 * n)).
  { subst K. pose proof (Z.mul_div_le (2 * s + n) (2 * n) ltac:(lia)).
    pose proof (Z.mul_succ_div_gt (2 * s + n) (2 * n) ltac:(lia)). lia. }
  clearbody K P.
  assert (HPn : 2 * n < P).
  { assert (2 ^ 52 * n <= Z.pos m * n) by (apply Z.mul_le_mono_nonneg_r; lia).
    assert (s * P <= (2 ^ 51 - 1) * P) by (apply Z.mul_le_mono_nonneg_r; lia).
    lia. }
  assert (HKlo : K * (2 * n) * P <= (2 * s + n) * P)
    by (apply Z.mul_le_mono_nonneg_r; lia).
  assert (HKhi : (2 * s + n + 1) * P <= (K + 1) * (2 * n) * P)
    by (apply Z.mul_le_mono_nonneg_r; lia).
  assert (Hlower : 2 * K * P <= 2 * Z.pos m + P).
  { assert (2 * K * P < 2 * Z.pos m + 2 + P); [|lia].
    apply (Z.mul_lt_mono_pos_r n); [lia|]. clear - HKlo Hhi. lia. }
  assert (Hupper : 2 * Z.pos m + P < 2 * (K + 1) * P).
  { apply (Z.mul_lt_mono_pos_r n); [lia|]. clear - HKhi Hlo HPn. lia. }
  symmetry. apply Z.div_unique_pos with (2 * Z.pos m + P - K * (2 * P)); lia.
Qed.

End Binary64.

(** ** The score on integers *)

(** The quotient is a double: [(23 / 40) * 100] evaluates to
    57.49999999999999, so 17 failed checks out of 40 score 57, where the
    exact 57.5 would round to 58. *)
Example compute_score_binary64 : compute_score 40 17 = 57.
Proof. reflexivity. Qed.

Lemma compute_score_none_failed t :
  0 < t < 2 ^ 53 -> compute_score t 0 = 100.
Proof.
  intros Ht. unfold compute_score.
  rewrite Z.sub_0_r, Binary64.Number_div_self by done.
  reflexivity.
Qed.

Lemma compute_score_all_failed t :
  0 < t < 2 ^ 53 -> compute_score t t = 0.
Proof.
  intros Ht. unfold compute_score. rewrite Z.sub_diag.
  destruct (Binary64.Number_pos t Ht) as (m & e & -> & _). reflexivity.
Qed.

(** The score is the exact percentage, rounded half up, unless that is a
    tie, which the two roundings of the double may push below the half. *)
Lemma compute_score_exact t f :
  0 < t < 2 ^ 40 -> 0 <= f <= t ->
  let K := (200 * (t - f) + t) / (2 * t) in
  compute_score t f = K \/
  (compute_score t f = K - 1 /\ 200 * (t - f) + t = 2 * K * t).
Proof.
  intros Ht Hf K.
  destruct (decide (f = 0)) as [->|Hf0].
  { left. rewrite compute_score_none_failed by lia. subst K.
    apply Z.div_unique_pos with t; lia. }
  destruct (decide (f = t)) as [->|Hft].
  { left. rewrite compute_score_all_failed by lia. subst K.
    rewrite Z.sub_diag. symmetry. apply Z.div_small. lia. }
  unfold compute_score. set (a := t - f) in *.
  destruct (Binary64.Number_div_enclosure a t)
    as (m1 & e1 & -> & Hm1 & He1 & Hlo1 & Hhi1); [lia | lia |].
  set (P1 := 2 ^ (- e1)) in *.
  (* the quotient is below one: its exponent is at most -52 *)
  assert (He1' : e1 <= -52).
  { destruct (decide (e1 <= -52)); [done|].
    assert (P1 <= 2 ^ 51) by (apply Z.pow_le_mono_r; lia).
    assert (2 ^ 52 * t <= Z.pos m1 * t) by (apply Z.mul_le_mono_nonneg_r; lia).
    assert (a * P1 <= a * 2 ^ 51) by (apply Z.mul_le_mono_nonneg_l; lia).
    lia. }
  assert (HP1 : 2 ^ 52 <= P1) by (apply Z.pow_le_mono_r; lia).
  destruct (Binary64.Number_mul_100_enclosure m1 e1)
    as (m2 & e2 & -> & Hm2 & He2 & Hlo2 & Hhi2); [done | lia |].
  fold P1 in Hlo2, Hhi2.
  rewrite Binary64.Math_round_negative by lia.
  set (P2 := 2 ^ (- e2)) in *.
  assert (HP2pos : 0 < P2) by (apply Binary64.pow2_pos; lia).
  clearbody P1 P2.
  assert (Hm1P1 : Z.pos m1 <= P1).
  { apply (Z.mul_le_mono_pos_r _ _ t); [lia|].
    assert (a * P1 <= (t - 1) * P1) by (apply Z.mul_le_mono_nonneg_r; lia).
    lia. }
  assert (HP2 : 2 ^ 45 <= P2).
  { assert (2 ^ 52 - 1 <= 100 * P2); [|lia].
    apply (Z.mul_le_mono_pos_r _ _ P1); [lia|].
    assert (2 ^ 52 * P1 <= Z.pos m2 * P1)
      by (apply Z.mul_le_mono_nonneg_r; lia).
    assert (Z.pos m1 * P2 <= P1 * P2) by (apply Z.mul_le_mono_nonneg_r; lia).
    lia. }
  rewrite Z.max_r by (apply Z.div_pos; lia).
  apply (Binary64.round_percent_enclosed a t (Z.pos m1) P1 (Z.pos m2) P2); lia.
Qed.

Lemma compute_score_bounds t f :
  0 < t < 2 ^ 40 -> 0 <= f <= t -> 0 <= compute_score t f <= 100.
Proof.
  intros Ht Hf. pose proof (compute_score_exact t f Ht Hf) as Hexact.
  simpl in Hexact. set (K := (200 * (t - f) + t) / (2 * t)) in *.
  assert (HK : K * (2 * t) <= 200 * (t - f) + t < (K + 1) * (2 * t)).
  { subst K.
    pose proof (Z.mul_div_le (200 * (t - f) + t) (2 * t) ltac:(lia)).
    pose proof (Z.mul_succ_div_gt (200 * (t - f) + t) (2 * t) ltac:(lia)).
    lia. }
  clearbody K. assert (0 <= K <= 100) by nia.
  unfold compute_score in *. lia.
Qed.

(** The score is 100 when fewer than one check in 200 failed, and below
    100 when more than one in 200 did. *)
Lemma compute_score_100 t f :
  0 < t < 2 ^ 40 -> 0 <= f <= t ->
  (200 * f < t -> compute_score t f = 100) /\
  (t < 200 * f -> compute_score t f < 100).
Proof.
  intros Ht Hf. pose proof (compute_score_exact t f Ht Hf) as Hexact.
  simpl in Hexact. set (K := (200 * (t - f) + t) / (2 * t)) in *.
  assert (HK : K * (2 * t) <= 200 * (t - f) + t < (K + 1) * (2 * t)).
  { subst K.
    pose proof (Z.mul_div_le (200 * (t - f) + t) (2 * t) ltac:(lia)).
    pose proof (Z.mul_succ_div_gt (200 * (t - f) + t) (2 * t) ltac:(lia)).
    lia. }
  clearbody K. split; intros Hcmp.
  - assert (K = 100) by nia. lia.
  - assert (K <= 99) by nia. lia.
Qed.

(** ** The score *)

Lemma totalChecks_spec q o :
  totalChecks q (spread DEFAULT_OPTIONS o) o = spec_totalChecks q o.
Proof.
  unfold totalChecks, spec_totalChecks, optionCount, customRuleCount. simpl.
  by destruct (requireExplanation o) as [| |[]],
    (requireCategory o) as [| |[]], (requireDifficulty o) as [| |[]].
Qed.

Lemma score_eq q o :
  score (validateQuizQuestion q o)
  = compute_score (spec_totalChecks q o)
      (Z.of_nat (length (errors (validateQuizQuestion q o)))).
Proof.
  rewrite <- totalChecks_spec. unfold validateQuizQuestion.
  by destruct (options q).
Qed.

Lemma if_push_if_length (b : bool) errs o :
  (length errs <= length (if b then push_if errs o else errs)
   <= length errs + Nat.b2n b)%nat.
Proof. destruct b; simpl; [pose proof (push_if_length errs o)|]; lia. Qed.

Lemma match_push_length {A} (x : option A) (c : A -> bool)
    (e : A -> ValidationError) errs :
  (length errs
   <= length (match x with
              | Some m => if c m then push errs (e m) else errs
              | None => errs
              end)
   <= S (length errs))%nat.
Proof. destruct x as [m|]; [destruct (c m)|]; rewrite ?push_length; lia. Qed.

Ltac name_list l :=
  let x := fresh "errs" in
  let Heq := fresh "Heq" in
  remember l as x eqn:Heq; clear Heq.

Ltac length_fact t :=
  lazymatch t with
  | for_customRules ?q ?r ?e => pose proof (for_customRules_length q r e)
  | forEach_option ?o ?os ?i ?e => pose proof (forEach_option_length o os i e)
  | push_if ?e ?o => pose proof (push_if_length e o)
  | (if ?b then push_if ?e ?o else ?e) => pose proof (if_push_if_length b e o)
  | match ?x with Some m => if @?c m then push ?errs (@?e m) else ?errs
                | None => ?errs end =>
      let H := fresh in
      pose proof (match_push_length x c e errs) as H; cbv beta in H
  end.

Ltac length_step :=
  match goal with
  | |- context [length ?t] => length_fact t; name_list t
  | _ : context [length ?t] |- _ => length_fact t; name_list t
  end.

(** No more checks fail than are counted. *)
Lemma errors_le_totalChecks q o :
  Z.of_nat (length (errors (validateQuizQuestion q o))) <= spec_totalChecks q o.
Proof.
  rewrite <- totalChecks_spec. unfold validateQuizQuestion, totalChecks.
  destruct (options q) as [os|], (customRules o) as [rules|]; simpl.
  all: repeat length_step.
  all: repeat match goal with
         | |- context [if ?b then 1 else 0] =>
             let c := fresh "c" in set (c := b) in *; clearbody c; destruct c
         end.
  all: simpl in *;
    repeat match goal with
      | H : context [Nat.b2n ?b] |- _ => destruct b; simpl in H
      end; lia.
Qed.

Lemma totalChecks_range q o :
  array_sized q o -> 4 <= spec_totalChecks q o < 2 ^ 34.
Proof.
  unfold array_sized, MAX_ARRAY_LENGTH, spec_totalChecks, optionCount,
    customRuleCount, one_if.
  intros [Hos Hrules].
  destruct (options q), (customRules o), (requireExplanation o) as [| |[]],
    (requireCategory o) as [| |[]], (requireDifficulty o) as [| |[]];
    simpl in *; lia.
Qed.

(** C1.  The score of [validateQuizQuestion] is the formula: with
    [totalChecks = 4 + optionCount + (1 if requireExplanation) +
    (1 if requireCategory) + (1 if requireDifficulty) + customRuleCount]
    (at least 4, so the division is safe) and
    [failedChecks = errors.length],
    [score = max(0, round(((totalChecks - failedChecks) / totalChecks)
    * 100))], the quotient and the product taken in binary64.  For arrays
    of JavaScript size that is the exact percentage rounded half up, except
    that an exact tie may come out one lower. *)
Theorem score_formula :
  forall q o,
    let r := validateQuizQuestion q o in
    let totalChecks := spec_totalChecks q o in
    let failedChecks := Z.of_nat (length (errors r)) in
    4 <= totalChecks /\
    score r = spec_score totalChecks failedChecks /\
    (array_sized q o ->
     let exact :=
       (200 * (totalChecks - failedChecks) + totalChecks)
         / (2 * totalChecks) in
     score r = exact \/
     (score r = exact - 1 /\
      200 * (totalChecks - failedChecks) + totalChecks
      = 2 * exact * totalChecks)).
Proof.
  intros q o r totalChecks failedChecks.
  assert (Hfour : 4 <= totalChecks).
  { subst totalChecks.
    unfold spec_totalChecks, optionCount, customRuleCount, one_if.
    destruct (options q), (customRules o), (requireExplanation o) as [| |[]],
      (requireCategory o) as [| |[]], (requireDifficulty o) as [| |[]]; lia. }
  split; [exact Hfour|]. split; [apply score_eq|].
  intros Hsized. subst r. rewrite score_eq.
  pose proof (totalChecks_range q o Hsized) as Ht.
  pose proof (errors_le_totalChecks q o) as Hf.
  apply compute_score_exact; subst totalChecks failedChecks; lia.
Qed.

(** A question with 36 options, 17 of them empty: 17 failed checks out of
    40 are 57.5 percent, and the score is 57. *)
Lemma score_formula_witness :
  array_sized tie_question loose_options /\
  spec_totalChecks tie_question loose_options = 40 /\
  length (errors (validateQuizQuestion tie_question loose_options)) = 17%nat /\
  score (validateQuizQuestion tie_question loose_options) = 57.
Proof.
  assert (Hsized : array_sized tie_question loose_options)
    by (split; vm_compute; discriminate).
  assert (Ht : spec_totalChecks tie_question loose_options = 40)
    by reflexivity.
  assert (Hf : length (errors (validateQuizQuestion tie_question
                                 loose_options)) = 17%nat)
    by (vm_compute; reflexivity).
  split; [exact Hsized|]. split; [exact Ht|]. split; [exact Hf|].
  destruct (score_formula tie_question loose_options) as (_ & _ & Hexact).
  specialize (Hexact Hsized). cbv zeta in Hexact. rewrite Ht, Hf in Hexact.
  change ((200 * (40 - Z.of_nat 17) + 40) / (2 * 40)) with 58 in Hexact.
  destruct Hexact as [Hscore | [Hscore _]]; [|exact Hscore].
  exfalso. vm_compute in Hscore. discriminate Hscore.
Defined.

(** ** The bounds of the score *)

Lemma score_range q o :
  array_sized q o -> 0 <= score (validateQuizQuestion q o) <= 100.
Proof.
  intros Hsized.
  pose proof (totalChecks_range q o Hsized) as Ht.
  pose proof (errors_le_totalChecks q o) as Hf.
  rewrite score_eq. apply compute_score_bounds; lia.
Qed.

(** C2, as the specification states it, fails: with 396 options, one
    error out of 400 checks gives 99.75, which rounds to 100. *)
Lemma score_100_iff_no_errors_counterexample :
  ~ (forall q o,
       let r := validateQuizQuestion q o in
       0 <= score r <= 100 /\ (score r = 100 <-> errors r = [])).
Proof.
  intros H. destruct (H many_options no_options) as [_ [Hnone _]].
  assert (Hscore : score (validateQuizQuestion many_options no_options) = 100)
    by (vm_compute; reflexivity).
  apply Hnone in Hscore. apply (f_equal length) in Hscore.
  vm_compute in Hscore. discriminate Hscore.
Qed.

(** C2 (amended).  For every question and options configuration (arrays
    of JavaScript size) the score is an integer with [0 <= score <= 100];
    it is 100 when [errors] is empty; and when there are fewer than 200
    checks it is 100 only when [errors] is empty.  In general the score is
    100 when fewer than one check in 200 failed and below 100 when more
    than one in 200 did, so from 200 checks on a score of 100 no longer
    tells that nothing failed. *)
Theorem score_bounds :
  forall q o,
    array_sized q o ->
    let r := validateQuizQuestion q o in
    let totalChecks := spec_totalChecks q o in
    let failedChecks := Z.of_nat (length (errors r)) in
    0 <= score r <= 100 /\
    (errors r = [] -> score r = 100) /\
    (totalChecks < 200 -> score r = 100 -> errors r = []) /\
    (200 * failedChecks < totalChecks -> score r = 100) /\
    (totalChecks < 200 * failedChecks -> score r < 100).
Proof.
  intros q o Hsized r totalChecks failedChecks.
  subst r totalChecks failedChecks.
  pose proof (totalChecks_range q o Hsized) as Ht.
  pose proof (errors_le_totalChecks q o) as Hf.
  split; [by apply score_range|].
  rewrite score_eq.
  destruct (compute_score_100 (spec_totalChecks q o)
              (Z.of_nat (length (errors (validateQuizQuestion q o)))))
    as [Hfew Hmany]; [lia | lia |].
  split; [|split; [|split]].
  - intros ->. apply compute_score_none_failed. lia.
  - intros Hsmall Hscore.
    destruct (errors (validateQuizQuestion q o)) as [|e errs] eqn:Herrs;
      [done|].
    simpl length in *. lia.
  - exact Hfew.
  - exact Hmany.
Qed.

Lemma score_bounds_witness :
  array_sized four_options no_options /\
  spec_totalChecks four_options no_options < 200 /\
  score (validateQuizQuestion four_options no_options) = 100 /\
  errors (validateQuizQuestion four_options no_options) = [].
Proof.
  assert (Hsized : array_sized four_options no_options)
    by (split; vm_compute; discriminate).
  assert (Hsmall : spec_totalChecks four_options no_options < 200)
    by reflexivity.
  assert (Hscore : score (validateQuizQuestion four_options no_options) = 100)
    by reflexivity.
  split; [exact Hsized|]. split; [exact Hsmall|]. split; [exact Hscore|].
  destruct (score_bounds four_options no_options Hsized)
    as (_ & _ & Hnone & _).
  exact (Hnone Hsmall Hscore).
Defined.

(** ** The set aggregator *)

Lemma filter_split_length {A} (p : A -> bool) (l : list A) :
  (length (List.filter p l) + length (List.filter (fun x => negb (p x)) l)
   = length l)%nat.
Proof.
  induction l as [|x l IH]; simpl; [done|].
  destruct (p x); simpl; lia.
Qed.

Lemma fold_left_sum {A} (f : A -> Z) (l : list A) (acc : Z) :
  fold_left (fun sum r => sum + f r) l acc = acc + foldr Z.add 0 (f <$> l).
Proof.
  revert acc. induction l as [|x l IH]; intros acc.
  - rewrite fmap_nil. simpl. lia.
  - rewrite fmap_cons. simpl. rewrite IH. lia.
Qed.

(** C7.  [validateQuizSet] returns one result per question, in the order
    of the input ([results[i]] is [validateQuizQuestion] of [questions[i]]
    under the same options), and its summary has [total = N],
    [passed + failed = total], while the set is valid iff [failed = 0]. *)
Theorem validateQuizSet_summary :
  forall questions o,
    let r := validateQuizSet questions o in
    length (results r) = length questions /\
    (forall i : nat,
       results r !! i
       = (fun q => validateQuizQuestion q o) <$> questions !! i) /\
    total (summary r) = Z.of_nat (length questions) /\
    passed (summary r) + failed (summary r) = total (summary r) /\
    passed (summary r) =
      Z.of_nat (length (List.filter (fun x => valid x) (results r))) /\
    (set_valid r = true <-> failed (summary r) = 0).
Proof.
  intros questions o r. subst r. unfold validateQuizSet. simpl.
  repeat split.
  - apply length_map.
  - intros i. apply list_lookup_fmap.
  - rewrite <- Nat2Z.inj_add, filter_split_length, length_map. done.
  - apply Z.eqb_eq.
  - apply Z.eqb_eq.
Qed.

Lemma sum_scores_range questions o :
  Forall (fun q => array_sized q o) questions ->
  0 <= sum_scores (results (validateQuizSet questions o))
    <= 100 * Z.of_nat (length questions).
Proof.
  unfold validateQuizSet, sum_scores. simpl.
  induction 1 as [|q questions Hq _ IH]; [simpl; lia|].
  rewrite map_cons, fmap_cons, length_cons, Nat2Z.inj_succ. simpl.
  pose proof (score_range q o Hq). lia.
Qed.

(** C8.  [summary.averageScore] is
    [Math.round(sum of the scores / Math.max(1, N))]; on the empty sequence
    [validateQuizSet] returns exactly [{ valid: true, results: [], summary:
    { total: 0, passed: 0, failed: 0, averageScore: 0 } }].  The quotient
    is taken in binary64, and for arrays of JavaScript size that makes no
    difference: the average is the exact mean, rounded half up. *)
Theorem validateQuizSet_averageScore :
  forall questions o,
    let r := validateQuizSet questions o in
    let N := Z.of_nat (length questions) in
    averageScore (summary r)
    = Math_round
        (Number_div (Number (sum_scores (results r))) (Number (Z.max 1 N))) /\
    validateQuizSet [] o
    = {| set_valid := true; results := [];
         summary := {| total := 0; passed := 0; failed := 0;
                       averageScore := 0 |} |} /\
    (N <= MAX_ARRAY_LENGTH ->
     Forall (fun q => array_sized q o) questions ->
     averageScore (summary r)
     = (2 * sum_scores (results r) + Z.max 1 N) / (2 * Z.max 1 N)).
Proof.
  intros questions o r N.
  assert (Havg : averageScore (summary r)
                 = Math_round
                     (Number_div (Number (sum_scores (results r)))
                        (Number (Z.max 1 N)))).
  { subst r N. unfold validateQuizSet, sum_scores. simpl.
    by rewrite fold_left_sum, length_map, Z.add_0_l. }
  split; [exact Havg|]. split; [reflexivity|].
  intros HN Hsized. rewrite Havg.
  pose proof (sum_scores_range questions o Hsized) as Hsum.
  fold r N in Hsum. unfold MAX_ARRAY_LENGTH in HN.
  apply Binary64.Math_round_div; lia.
Qed.

Lemma validateQuizSet_averageScore_witness :
  let questions :=
    [plain_question "Valid question?" (Some ["A"; "B"]);
     plain_question EmptyString (Some ["C"])] in
  Z.of_nat (length questions) <= MAX_ARRAY_LENGTH /\
  Forall (fun q => array_sized q no_options) questions /\
  averageScore (summary (validateQuizSet questions no_options)) = 80.
Proof.
  intros questions.
  assert (HN : Z.of_nat (length questions) <= MAX_ARRAY_LENGTH)
    by (vm_compute; discriminate).
  assert (Hsized : Forall (fun q => array_sized q no_options) questions)
    by (repeat constructor; vm_compute; discriminate).
  split; [exact HN|]. split; [exact Hsized|].
  destruct (validateQuizSet_averageScore questions no_options)
    as (_ & _ & Hexact).
  rewrite (Hexact HN Hsized). reflexivity.
Defined.

(** * Importers, commands and reports *)

(** ** Strings *)

Lemma has_char_app c a b : has_char c (a ++ b) = has_char c a || has_char c b.
Proof.
  induction a as [|x a IH]; simpl; [done|]. rewrite IH.
  by destruct (Ascii.eqb x c).
Qed.

Lemma String_split_nonempty sep s : String_split sep s <> [].
Proof.
  destruct s as [|c s]; simpl; [done|].
  destruct (Ascii.eqb c sep); [done|]. by destruct (String_split sep s).
Qed.

Lemma String_split_no_sep sep s :
  has_char sep s = false -> String_split sep s = [s].
Proof.
  induction s as [|c s IH]; simpl; [done|].
  intros [Hc Hs]%orb_false_iff. rewrite Hc, IH; done.
Qed.

Lemma String_split_app sep a b :
  has_char sep a = false ->
  String_split sep (a ++ String sep b) = a :: String_split sep b.
Proof.
  induction a as [|c a IH]; simpl.
  - intros _. by rewrite Ascii.eqb_refl.
  - intros [Hc Ha]%orb_false_iff. rewrite Hc, IH; done.
Qed.

Lemma String_split_pieces sep s :
  Forall (fun piece => has_char sep piece = false) (String_split sep s).
Proof.
  induction s as [|c s IH]; simpl.
  - by repeat constructor.
  - destruct (Ascii.eqb c sep) eqn:Hc; [by constructor|].
    destruct (String_split sep s) as [|piece pieces].
    + repeat constructor. simpl. by rewrite Hc.
    + inversion_clear IH. constructor; [|done]. simpl. by rewrite Hc.
Qed.

Lemma String_split_join sep pieces :
  pieces <> [] ->
  Forall (fun piece => has_char sep piece = false) pieces ->
  String_split sep (Array_join (String sep EmptyString) pieces) = pieces.
Proof.
  intros Hne Hall. induction Hall as [|piece pieces Hpiece Hall IH]; [done|].
  destruct pieces as [|piece' pieces].
  - simpl. by apply String_split_no_sep.
  - change (Array_join (String sep EmptyString) (piece :: piece' :: pieces))
      with (piece ++ String sep (Array_join (String sep EmptyString)
                                   (piece' :: pieces))).
    rewrite String_split_app by done. by rewrite IH.
Qed.

Lemma String_trimEnd_idem s :
  String_trimEnd (String_trimEnd s) = String_trimEnd s.
Proof.
  induction s as [|c s IH]; simpl; [done|].
  destruct (String_trimEnd s) as [|k kept] eqn:Hs.
  - destruct (is_whitespace c) eqn:Hc; simpl; [done|]. by rewrite Hc.
  - change (String_trimEnd (String c (String k kept)))
      with (match String_trimEnd (String k kept) with
            | EmptyString =>
                if is_whitespace c then EmptyString else String c EmptyString
            | kept' => String c kept'
            end).
    by rewrite IH.
Qed.

Lemma String_trimStart_head s :
  String_trimStart s = EmptyString \/
  exists c rest, String_trimStart s = String c rest /\ is_whitespace c = false.
Proof.
  induction s as [|c s IH]; simpl; [by left|].
  destruct (is_whitespace c) eqn:Hc; [done|]. right. eauto.
Qed.

Lemma String_trimEnd_head c rest :
  is_whitespace c = false ->
  exists kept, String_trimEnd (String c rest) = String c kept.
Proof.
  intros Hc. simpl. destruct (String_trimEnd rest); rewrite ?Hc; eauto.
Qed.

Lemma String_trim_head s :
  String_trim s = EmptyString \/
  exists c rest, String_trim s = String c rest /\ is_whitespace c = false.
Proof.
  unfold String_trim.
  destruct (String_trimStart_head s) as [->|(c & rest & -> & Hc)]; [by left|].
  right. destruct (String_trimEnd_head c rest Hc) as [kept ->]. eauto.
Qed.

Lemma String_trim_idem s : String_trim (String_trim s) = String_trim s.
Proof.
  destruct (String_trim_head s) as [->|(c & rest & Hs & Hc)]; [done|].
  unfold String_trim at 1. rewrite Hs. simpl String_trimStart. rewrite Hc.
  rewrite <- Hs. unfold String_trim. apply String_trimEnd_idem.
Qed.

Lemma has_char_trimStart c s :
  has_char c s = false -> has_char c (String_trimStart s) = false.
Proof.
  induction s as [|a s IH]; simpl; [done|].
  intros [Ha Hs]%orb_false_iff. destruct (is_whitespace a); [auto|].
  simpl. by rewrite Ha, Hs.
Qed.

Lemma has_char_trimEnd c s :
  has_char c s = false -> has_char c (String_trimEnd s) = false.
Proof.
  induction s as [|a s IH]; simpl; [done|].
  intros [Ha Hs]%orb_false_iff. specialize (IH Hs).
  destruct (String_trimEnd s) as [|k kept].
  - destruct (is_whitespace a); simpl; [done|]. by rewrite Ha.
  - simpl in *. by rewrite Ha, IH.
Qed.

Lemma has_char_trim c s :
  has_char c s = false -> has_char c (String_trim s) = false.
Proof. intros H. by apply has_char_trimEnd, has_char_trimStart. Qed.

(** Lines: joining pieces that are not blank and hold no line feed, then
    reading the lines, gives the pieces back. *)
Lemma content_lines_join pieces :
  Forall (fun piece => has_char LF piece = false
                       /\ String_trim piece <> EmptyString) pieces ->
  content_lines (Array_join (String LF EmptyString) pieces) = pieces.
Proof.
  intros Hall. unfold content_lines.
  destruct pieces as [|piece pieces]; [done|].
  rewrite String_split_join; [|done|].
  - induction Hall as [|p ps [_ Hp] _ IH]; [done|]. simpl.
    unfold nonempty at 1. rewrite bool_decide_eq_false_2 by done. simpl.
    by rewrite IH.
  - eapply Forall_impl; [exact Hall|]. by intros p [? _].
Qed.

(** ** The Quizlet importer *)

Lemma list_pair_ind {A} (P : list A -> Prop) :
  P [] -> (forall x, P [x]) -> (forall x y l, P l -> P (x :: y :: l)) ->
  forall l, P l.
Proof.
  intros Hnil Hone Hstep l.
  assert (H : P l /\ forall x, P (x :: l)); [|tauto].
  induction l as [|y l [IH1 IH2]]; [by split|]. split; [apply IH2|].
  intros x. by apply Hstep.
Qed.

Lemma quizlet_loop_lines cards :
  Forall (fun card => trimmed card.1 /\ trimmed card.2) cards ->
  quizlet_loop (quizlet_lines cards)
  = map (fun card => quizlet_card card.1 card.2) cards.
Proof.
  induction 1 as [|[t d] cards [Ht Hd] _ IH]; [done|].
  simpl in *. rewrite Ht, Hd. by rewrite IH.
Qed.

Lemma quizlet_loop_elem lines q :
  q ∈ quizlet_loop lines ->
  exists line0 line1,
    line0 ∈ lines /\ line1 ∈ lines /\
    q = quizlet_card (String_trim line0) (String_trim line1).
Proof.
  induction lines as [|l0|l0 l1 rest IH] using list_pair_ind;
    simpl; try (by intros ?%elem_of_nil).
  intros [->|Hq]%elem_of_cons.
  - exists l0, l1. set_solver.
  - destruct (IH Hq) as (a & b & ? & ? & ->).
    exists a, b. set_solver.
Qed.

Lemma content_lines_elem content line :
  line ∈ content_lines content ->
  String_trim line <> EmptyString /\ has_char LF line = false.
Proof.
  unfold content_lines. rewrite list_elem_of_In, filter_In, <- list_elem_of_In.
  intros [Hin Hne]. split.
  - unfold nonempty in Hne. by apply negb_true_iff, bool_decide_eq_false in Hne.
  - pose proof (String_split_pieces LF content) as Hall.
    rewrite Forall_forall in Hall. by apply Hall.
Qed.

Lemma quizlet_loop_length lines :
  length (quizlet_loop lines) = (length lines / 2)%nat.
Proof.
  induction lines as [|l0|l0 l1 rest IH] using list_pair_ind; [done..|].
  simpl quizlet_loop. simpl length. rewrite IH.
  change (S (S (length rest))) with (1 * 2 + length rest)%nat.
  rewrite Nat.div_add_l by done. lia.
Qed.

(** X1.  Reading back a Quizlet export: for cards whose terms and
    definitions are not empty, have nothing to trim and hold no line feed,
    [convertFromQuizlet] of the lines "term, definition, term, ..." joined
    by line feeds gives the cards back, in order, as questions with the
    term as [question] and the definition as [explanation]. *)
Theorem convertFromQuizlet_round_trip (cards : list (string * string)) :
  Forall (fun card => clean card.1 /\ clean card.2) cards ->
  convertFromQuizlet (Array_join (String LF EmptyString) (quizlet_lines cards))
  = map (fun card => quizlet_card card.1 card.2) cards.
Proof.
  intros Hall. unfold convertFromQuizlet. rewrite content_lines_join.
  - apply quizlet_loop_lines. eapply Forall_impl; [exact Hall|].
    intros card [(_ & ? & _) (_ & ? & _)]. done.
  - unfold quizlet_lines. induction Hall as [|[t d] cards [Ht Hd] _ IH]; simpl.
    + constructor.
    + destruct Ht as (Ht1 & Ht2 & Ht3), Hd as (Hd1 & Hd2 & Hd3).
      unfold trimmed in *. simpl in *. repeat constructor; try done; congruence.
Qed.

Lemma convertFromQuizlet_round_trip_witness :
  let cards := [("Term 1", "Definition 1"); ("Term 2", "Definition 2")] in
  Forall (fun card => clean card.1 /\ clean card.2) cards /\
  convertFromQuizlet
    (Array_join (String LF EmptyString)
       ["Term 1"; "Definition 1"; "Term 2"; "Definition 2"])
  = [quizlet_card "Term 1" "Definition 1";
     quizlet_card "Term 2" "Definition 2"].
Proof.
  intros cards.
  assert (Hclean : Forall (fun card => clean card.1 /\ clean card.2) cards)
    by (repeat constructor; discriminate).
  split; [exact Hclean|].
  exact (convertFromQuizlet_round_trip cards Hclean).
Defined.

(** X2.  The cards of [convertFromQuizlet]: there is one for every two
    non-blank lines of the content, a last line without a partner being
    dropped; and of every card the [question] and the [explanation] are not
    empty, have nothing left to trim and hold no line feed. *)
Theorem convertFromQuizlet_cards content :
  length (convertFromQuizlet content)
  = (length (content_lines content) / 2)%nat /\
  forall q, q ∈ convertFromQuizlet content ->
    exists term definition,
      q = quizlet_card term definition /\ clean term /\ clean definition.
Proof.
  split; [apply quizlet_loop_length|].
  intros q (l0 & l1 & H0 & H1 & ->)%quizlet_loop_elem.
  apply content_lines_elem in H0 as [H0 H0'], H1 as [H1 H1'].
  exists (String_trim l0), (String_trim l1). split; [done|].
  unfold clean, trimmed. rewrite !String_trim_idem.
  auto using has_char_trim.
Qed.

Lemma convertFromQuizlet_cards_witness :
  let content :=
    Array_join (String LF EmptyString)
      ["  Term 1  "; EmptyString; "  Definition 1  "; "Term 2"] in
  length (convertFromQuizlet content) = 1%nat /\
  exists term definition,
    quizlet_card "Term 1" "Definition 1" = quizlet_card term definition /\
    clean term /\ clean definition.
Proof.
  intros content.
  destruct (convertFromQuizlet_cards content) as [Hlen Hcards].
  split; [exact Hlen|].
  apply Hcards. vm_compute. left.
Defined.

Lemma validateQuizQuestion_quizlet_card term definition :
  term <> EmptyString -> definition <> EmptyString ->
  valid (validateQuizQuestion (quizlet_card term definition) no_options) = true
  <-> 5 <= str_length term <= 500 /\ 10 <= str_length definition <= 1000.
Proof.
  intros Ht Hd. unfold validateQuizQuestion, validateField. simpl.
  rewrite !bool_decide_eq_false_2 by done. simpl.
  destruct (str_length term <? 5) eqn:H1;
    destruct (str_length term >? 500) eqn:H2;
    destruct (str_length definition <? 10) eqn:H3;
    destruct (str_length definition >? 1000) eqn:H4; simpl; lia.
Qed.

(** X3.  A card of [convertFromQuizlet] under the default options: it is
    valid for [validateQuizQuestion] exactly when its term has 5 to 500
    code units and its definition 10 to 1000; no other check can fail. *)
Theorem convertFromQuizlet_valid content q :
  q ∈ convertFromQuizlet content ->
  exists term definition,
    q = quizlet_card term definition /\
    (valid (validateQuizQuestion q no_options) = true
     <-> 5 <= str_length term <= 500 /\ 10 <= str_length definition <= 1000).
Proof.
  intros (l0 & l1 & H0 & H1 & ->)%quizlet_loop_elem.
  apply content_lines_elem in H0 as [H0 _], H1 as [H1 _].
  eexists _, _. split; [done|]. by apply validateQuizQuestion_quizlet_card.
Qed.

Lemma convertFromQuizlet_valid_witness :
  let content := Array_join (String LF EmptyString) ["Term 1"; "Def 1"] in
  quizlet_card "Term 1" "Def 1" ∈ convertFromQuizlet content /\
  valid (validateQuizQuestion (quizlet_card "Term 1" "Def 1") no_options)
  = false.
Proof.
  intros content.
  assert (Hin : quizlet_card "Term 1" "Def 1" ∈ convertFromQuizlet content)
    by (vm_compute; left).
  split; [exact Hin|].
  destruct (convertFromQuizlet_valid content _ Hin)
    as (term & definition & Heq & Hvalid).
  injection Heq as <- <-.
  apply not_true_is_false. intros Htrue. apply Hvalid in Htrue.
  vm_compute in Htrue. destruct Htrue as [_ [Hlow _]]. apply Hlow. reflexivity.
Defined.

(** ** The Anki importer *)

Lemma has_char_join c sep pieces :
  has_char c sep = false ->
  Forall (fun piece => has_char c piece = false) pieces ->
  has_char c (Array_join sep pieces) = false.
Proof.
  intros Hsep. induction 1 as [|piece pieces Hp Hall IH]; [done|].
  destruct pieces as [|piece' pieces]; [done|].
  change (Array_join sep (piece :: piece' :: pieces))
    with (piece ++ sep ++ Array_join sep (piece' :: pieces)).
  rewrite !has_char_app, Hp, Hsep, IH. done.
Qed.

Lemma String_trim_nonblank c rest :
  is_whitespace c = false -> String_trim (String c rest) <> EmptyString.
Proof.
  intros Hc. unfold String_trim. simpl String_trimStart. rewrite Hc.
  by destruct (String_trimEnd_head c rest Hc) as [kept ->].
Qed.

Lemma trimmed_head s :
  trimmed s -> s <> EmptyString ->
  exists c rest, s = String c rest /\ is_whitespace c = false.
Proof.
  unfold trimmed. intros Hs Hne.
  destruct (String_trim_head s) as [H|(c & rest & H & Hc)]; [congruence|].
  exists c, rest. split; [congruence | done].
Qed.

Lemma String_split_has_sep sep s :
  has_char sep s = true ->
  exists piece0 piece1 pieces, String_split sep s = piece0 :: piece1 :: pieces.
Proof.
  induction s as [|c s IH]; simpl; [done|].
  destruct (Ascii.eqb c sep) eqn:Hc; simpl.
  - intros _. pose proof (String_split_nonempty sep s).
    destruct (String_split sep s) as [|p ps]; [done|]. eauto.
  - intros (p0 & p1 & ps & ->)%IH. eauto.
Qed.

Lemma anki_card_Some line :
  is_Some (anki_card line) <-> has_char TAB line = true.
Proof.
  unfold anki_card. destruct (has_char TAB line) eqn:Htab.
  - destruct (String_split_has_sep _ _ Htab) as (p0 & p1 & ps & ->).
    split; [done | eauto].
  - rewrite String_split_no_sep by done. split; [by intros [? ?] | done].
Qed.

Lemma omap_length_filter {A B} (f : A -> option B) (p : A -> bool) l :
  (forall x, is_Some (f x) <-> p x = true) ->
  length (omap f l) = length (List.filter p l).
Proof.
  intros Hfp. unfold omap. induction l as [|x l IH]; simpl; [done|].
  specialize (Hfp x). destruct (f x) eqn:Hf, (p x) eqn:Hp; simpl.
  - by rewrite IH.
  - destruct Hfp as [Hfp _]. by specialize (Hfp (mk_is_Some _ _ eq_refl)).
  - destruct Hfp as [_ Hfp]. by destruct (Hfp eq_refl).
  - done.
Qed.

Lemma anki_card_line note :
  Forall anki_field (anki_fields note) ->
  anki_card (anki_line note) = Some (anki_question note).
Proof.
  intros Hall. unfold anki_card, anki_line.
  rewrite String_split_join; [|done|].
  - unfold anki_fields in *.
    inversion_clear Hall as [|? ? (Hf & _) Hall'].
    inversion_clear Hall' as [|? ? (Hb & _) Htags].
    unfold trimmed in *. rewrite Hf, Hb. unfold anki_question. do 2 f_equal.
    + destruct Htags as [|t ts (Ht & _) _]; simpl; congruence.
    + do 2 f_equal. induction Htags as [|t ts (Ht & _) _ IH]; [done|].
      unfold trimmed in Ht. rewrite !fmap_cons, IH. congruence.
  - eapply Forall_impl; [exact Hall|]. by intros s (_ & ? & _).
Qed.

(** X4.  Reading back an Anki export: for notes whose fields have nothing
    to trim and hold no tab and no line feed, and whose front is not empty,
    [convertFromAnki] of the lines "front, tab, back, tab, tags..." joined
    by line feeds gives the notes back, in order: the front as [question],
    the back as [explanation], the first tag (if any) as [category] and all
    the tags under the key [tags]. *)
Theorem convertFromAnki_round_trip (notes : list AnkiNote) :
  Forall (fun note => front note <> EmptyString
                      /\ Forall anki_field (anki_fields note)) notes ->
  convertFromAnki (Array_join (String LF EmptyString) (anki_line <$> notes))
  = anki_question <$> notes.
Proof.
  intros Hall. unfold convertFromAnki. rewrite content_lines_join.
  - induction Hall as [|note notes [_ Hnote] _ IH]; [done|].
    rewrite !fmap_cons. unfold omap in *. cbn [list_omap].
    rewrite anki_card_line by done. by rewrite IH.
  - apply Forall_fmap. eapply Forall_impl; [exact Hall|].
    intros note [Hne Hfields]. simpl. split.
    + apply has_char_join; [done|].
      eapply Forall_impl; [exact Hfields|]. by intros s (_ & _ & ?).
    + inversion_clear Hfields as [|? ? (Hf & _) _].
      destruct (trimmed_head _ Hf Hne) as (c & rest & Heq & Hc).
      unfold anki_line, anki_fields. rewrite Heq.
      change (Array_join (String TAB EmptyString)
                (String c rest :: back note :: tags note))
        with (String c (rest ++ String TAB EmptyString
                ++ Array_join (String TAB EmptyString)
                     (back note :: tags note))).
      by apply String_trim_nonblank.
Qed.

Lemma convertFromAnki_round_trip_witness :
  let notes :=
    [ {| front := "What is 2+2?"; back := "4"; tags := ["Math"; "Easy"] |};
      {| front := "Term"; back := "Definition"; tags := [] |} ] in
  Forall (fun note => front note <> EmptyString
                      /\ Forall anki_field (anki_fields note)) notes /\
  category <$> convertFromAnki
                 (Array_join (String LF EmptyString) (anki_line <$> notes))
  = [Some "Math"; None].
Proof.
  intros notes.
  assert (Hnotes : Forall (fun note => front note <> EmptyString
                      /\ Forall anki_field (anki_fields note)) notes)
    by (repeat constructor; discriminate).
  split; [exact Hnotes|].
  rewrite (convertFromAnki_round_trip notes Hnotes). reflexivity.
Defined.

(** X5.  [convertFromAnki] leaves out the lines without a tab: it gives one
    question for each non-blank line of the content that holds a tab, and
    none for the others. *)
Theorem convertFromAnki_length content :
  length (convertFromAnki content)
  = length (List.filter (has_char TAB) (content_lines content)).
Proof. apply omap_length_filter, anki_card_Some. Qed.

Lemma validateQuizQuestion_empty_question q o :
  question q = EmptyString -> valid (validateQuizQuestion q o) = false.
Proof.
  intros Hq. apply not_true_is_false. rewrite valid_iff_no_errors.
  intros Hnil. apply (f_equal length) in Hnil. revert Hnil.
  unfold validateQuizQuestion. rewrite Hq.
  destruct (options q) as [os|], (customRules o) as [rules|]; simpl.
  all: repeat length_step.
  all: simpl in *; lia.
Qed.

(** X6.  A line of an Anki export that starts with a tab (an empty front)
    still gives a question, with the empty string as [question]; such a
    question fails [validateQuizQuestion] whatever the options are. *)
Theorem convertFromAnki_empty_front rest o :
  has_char LF rest = false -> String_trim (String TAB rest) <> EmptyString ->
  exists q,
    convertFromAnki (String TAB rest) = [q] /\ question q = EmptyString /\
    valid (validateQuizQuestion q o) = false.
Proof.
  intros Hlf Hne. unfold convertFromAnki, content_lines.
  rewrite String_split_no_sep by done. simpl List.filter.
  unfold nonempty. rewrite bool_decide_eq_false_2 by done. simpl negb.
  cbv iota. unfold omap, list_omap, anki_card.
  change (String_split TAB (String TAB rest))
    with (EmptyString :: String_split TAB rest).
  pose proof (String_split_nonempty TAB rest).
  destruct (String_split TAB rest) as [|back tags]; [done|].
  eexists. split; [reflexivity|]. split; [reflexivity|].
  by apply validateQuizQuestion_empty_question.
Qed.

Lemma convertFromAnki_empty_front_witness :
  has_char LF "Answer" = false /\
  String_trim (String TAB "Answer") <> EmptyString /\
  exists q,
    convertFromAnki (String TAB "Answer") = [q] /\ question q = EmptyString /\
    valid (validateQuizQuestion q no_options) = false.
Proof.
  assert (Hne : String_trim (String TAB "Answer") <> EmptyString)
    by discriminate.
  split; [reflexivity|]. split; [exact Hne|].
  exact (convertFromAnki_empty_front "Answer" no_options eq_refl Hne).
Defined.

(** ** The CSV importer *)

Lemma app_String c a b : String c a ++ b = String c (a ++ b).
Proof. reflexivity. Qed.

Lemma app_String_assoc a c b :
  (a ++ String c EmptyString) ++ b = a ++ String c b.
Proof.
  induction a as [|x a IH]; [done|]. by rewrite !app_String, IH.
Qed.

Lemma app_EmptyString_r a : a ++ EmptyString = a.
Proof. induction a as [|x a IH]; [done|]. by rewrite app_String, IH. Qed.

(** Outside quotes, without quotes ahead: the line splits at its commas. *)
Lemma parseCSVLine_loop_plain line result current :
  has_char QUOTE line = false ->
  parseCSVLine_loop line result current false
  = (result ++
      match String_split COMMA line with
      | piece :: pieces =>
          String_trim (current ++ piece) :: (String_trim <$> pieces)
      | [] => []
      end)%list.
Proof.
  revert result current. induction line as [|c line IH]; intros result current.
  - intros _. simpl. by rewrite app_EmptyString_r.
  - simpl. intros [Hc Hline]%orb_false_iff. rewrite Hc.
    destruct (Ascii.eqb c COMMA) eqn:Hcomma; simpl.
    + rewrite IH by done. rewrite <- app_assoc. simpl.
      rewrite app_EmptyString_r.
      pose proof (String_split_nonempty COMMA line).
      by destruct (String_split COMMA line).
    + rewrite IH by done.
      pose proof (String_split_nonempty COMMA line).
      destruct (String_split COMMA line); [done|].
      by rewrite app_String_assoc.
Qed.

(** Inside quotes, up to the closing quote: the commas are kept. *)
Lemma parseCSVLine_loop_quoted value rest result current :
  has_char QUOTE value = false ->
  parseCSVLine_loop (value ++ String QUOTE rest) result current true
  = parseCSVLine_loop rest result (current ++ value) false.
Proof.
  revert current. induction value as [|c value IH]; intros current.
  - intros _. simpl. by rewrite app_EmptyString_r.
  - simpl. intros [Hc Hvalue]%orb_false_iff. rewrite Hc.
    rewrite andb_false_r. rewrite IH by done. by rewrite app_String_assoc.
Qed.

Lemma parseCSVLine_loop_quote rest result current inQuotes :
  parseCSVLine_loop (String QUOTE rest) result current inQuotes
  = parseCSVLine_loop rest result current (negb inQuotes).
Proof. reflexivity. Qed.

Lemma parseCSVLine_loop_comma rest result current :
  parseCSVLine_loop (String COMMA rest) result current false
  = parseCSVLine_loop rest (result ++ [String_trim current])%list
      EmptyString false.
Proof. reflexivity. Qed.

Lemma parseCSVLine_loop_fields value values result :
  Forall (fun v => has_char QUOTE v = false) (value :: values) ->
  parseCSVLine_loop
    (Array_join (String COMMA EmptyString) (quoted <$> value :: values))
    result EmptyString false
  = (result ++ (String_trim <$> value :: values))%list.
Proof.
  revert value result.
  induction values as [|value' values IH]; intros value result Hall;
    inversion_clear Hall as [|? ? Hvalue Hvalues].
  - simpl. rewrite parseCSVLine_loop_quoted by done. done.
  - rewrite !fmap_cons.
    change (Array_join (String COMMA EmptyString)
              (quoted value :: quoted value' :: (quoted <$> values)))
      with (quoted value ++ String COMMA
              (Array_join (String COMMA EmptyString)
                 (quoted <$> value' :: values))).
    unfold quoted at 1.
    change (String QUOTE (value ++ String QUOTE EmptyString) ++ ?r)
      with (String QUOTE ((value ++ String QUOTE EmptyString) ++ r)).
    rewrite app_String_assoc, parseCSVLine_loop_quote.
    rewrite parseCSVLine_loop_quoted, parseCSVLine_loop_comma by done.
    rewrite IH by done. by rewrite <- app_assoc.
Qed.

(** X7.  A line without a double quote: [parseCSVLine] gives the pieces
    between the commas, each one trimmed. *)
Theorem parseCSVLine_plain line :
  has_char QUOTE line = false ->
  parseCSVLine line = String_trim <$> String_split COMMA line.
Proof.
  intros Hq. unfold parseCSVLine. rewrite parseCSVLine_loop_plain by done.
  pose proof (String_split_nonempty COMMA line).
  by destruct (String_split COMMA line).
Qed.

Lemma parseCSVLine_plain_witness :
  has_char QUOTE "a, b ,,c" = false /\
  parseCSVLine "a, b ,,c" = ["a"; "b"; EmptyString; "c"].
Proof.
  split; [reflexivity|].
  rewrite (parseCSVLine_plain "a, b ,,c" eq_refl). reflexivity.
Defined.

(** X8.  Reading back quoted fields: for fields that hold no double quote,
    [parseCSVLine] of the fields, each one between double quotes, joined by
    commas gives the fields back, trimmed; the commas inside a field do not
    split it, and the white space at its ends is lost though it was
    quoted. *)
Theorem parseCSVLine_quoted values :
  values <> [] -> Forall (fun v => has_char QUOTE v = false) values ->
  parseCSVLine (Array_join (String COMMA EmptyString) (quoted <$> values))
  = String_trim <$> values.
Proof.
  intros Hne Hall. destruct values as [|value values]; [done|].
  unfold parseCSVLine. by rewrite parseCSVLine_loop_fields.
Qed.

Lemma parseCSVLine_loop_values line result current inQuotes :
  let P v := trimmed v /\ has_char QUOTE v = false in
  Forall P result -> has_char QUOTE current = false ->
  Forall P (parseCSVLine_loop line result current inQuotes).
Proof.
  intros P. revert result current inQuotes.
  assert (Hpush : forall result current,
            Forall P result -> has_char QUOTE current = false ->
            Forall P (result ++ [String_trim current])).
  { intros result current Hres Hcur. apply Forall_app. split; [done|].
    repeat constructor; [apply String_trim_idem | by apply has_char_trim]. }
  induction line as [|c line IH]; intros result current inQuotes Hres Hcur;
    simpl; [by apply Hpush|].
  destruct (Ascii.eqb c QUOTE) eqn:Hc; [by apply IH|].
  destruct (Ascii.eqb c COMMA && negb inQuotes).
  - apply IH; [by apply Hpush | done].
  - apply IH; [done|]. rewrite has_char_app, Hcur. simpl. by rewrite Hc.
Qed.

Lemma parseCSVLine_loop_nonempty line result current inQuotes :
  parseCSVLine_loop line result current inQuotes <> [].
Proof.
  revert result current inQuotes.
  induction line as [|c line IH]; intros; simpl.
  - by destruct result.
  - destruct (Ascii.eqb c QUOTE); [apply IH|].
    destruct (Ascii.eqb c COMMA && negb inQuotes); apply IH.
Qed.

Lemma parseCSVLine_quoted_witness :
  let values := ["What is 2+2, exactly?"; " 4 "] in
  values <> [] /\ Forall (fun v => has_char QUOTE v = false) values /\
  parseCSVLine (Array_join (String COMMA EmptyString) (quoted <$> values))
  = ["What is 2+2, exactly?"; "4"].
Proof.
  intros values.
  assert (Hne : values <> []) by discriminate.
  assert (Hall : Forall (fun v => has_char QUOTE v = false) values)
    by (repeat constructor).
  split; [exact Hne|]. split; [exact Hall|].
  rewrite (parseCSVLine_quoted values Hne Hall). reflexivity.
Defined.

(** X9.  The values of [parseCSVLine]: there is at least one, whatever the
    line is, and each one has nothing left to trim and holds no double
    quote (the quotes are dropped wherever they stand). *)
Theorem parseCSVLine_values line :
  parseCSVLine line <> [] /\
  Forall (fun v => trimmed v /\ has_char QUOTE v = false) (parseCSVLine line).
Proof.
  split; [apply parseCSVLine_loop_nonempty|].
  by apply parseCSVLine_loop_values.
Qed.

Lemma String_trimStart_blank s :
  String_trimStart s = EmptyString <-> blank s = true.
Proof.
  induction s as [|c s IH]; simpl; [done|].
  destruct (is_whitespace c); simpl; [done|]. split; discriminate.
Qed.

Lemma String_trim_blank s : String_trim s = EmptyString <-> blank s = true.
Proof.
  rewrite <- String_trimStart_blank. unfold String_trim.
  destruct (String_trimStart_head s) as [->|(c & rest & -> & Hc)]; [done|].
  destruct (String_trimEnd_head c rest Hc) as [kept ->]. split; discriminate.
Qed.

Lemma String_split_blank s :
  blank s = true
  <-> Forall (fun piece => blank piece = true) (String_split LF s).
Proof.
  induction s as [|c s IH]; simpl.
  - split; [by repeat constructor | done].
  - destruct (Ascii.eqb c LF) eqn:Hc.
    + apply Ascii.eqb_eq in Hc as ->. simpl. rewrite IH.
      split; [by constructor | by inversion 1].
    + pose proof (String_split_nonempty LF s).
      destruct (String_split LF s) as [|piece pieces]; [done|].
      rewrite andb_true_iff, IH, !Forall_cons. simpl.
      rewrite andb_true_iff. tauto.
Qed.

Lemma content_lines_nil content :
  content_lines content = [] <-> String_trim content = EmptyString.
Proof.
  rewrite String_trim_blank, String_split_blank. unfold content_lines.
  induction (String_split LF content) as [|piece pieces IH]; simpl.
  - split; [constructor | done].
  - rewrite Forall_cons, <- IH, <- String_trim_blank. unfold nonempty.
    case_bool_decide; simpl; [tauto|]. split; [done | tauto].
Qed.

(** X11.  A content of white space only (the empty one too) has no line
    to read: [convertFromCsv] throws on it, and only on it, since it reads
    the header line before anything else, while [convertFromQuizlet] and
    [convertFromAnki] give no question. *)
Theorem importers_blank content :
  (convertFromCsv content = None <-> String_trim content = EmptyString) /\
  (String_trim content = EmptyString ->
   convertFromQuizlet content = [] /\ convertFromAnki content = []).
Proof.
  rewrite <- content_lines_nil.
  unfold convertFromCsv, convertFromQuizlet, convertFromAnki.
  destruct (content_lines content); split; done.
Qed.

Lemma importers_blank_witness :
  let content := String LF (String TAB " ") in
  String_trim content = EmptyString /\
  convertFromCsv content = None /\
  convertFromQuizlet content = [] /\ convertFromAnki content = [].
Proof.
  intros content.
  assert (Hblank : String_trim content = EmptyString) by reflexivity.
  destruct (importers_blank content) as [Hcsv Hothers].
  split; [exact Hblank|]. split; [exact (proj2 Hcsv Hblank)|].
  exact (Hothers Hblank).
Defined.

Lemma csv_question_line r :
  Forall csv_field (csv_fields r) ->
  Forall (fun o => o <> EmptyString) (csv_options r) ->
  (length (csv_options r) <= 4)%nat ->
  csv_question (csv_line r) = Some (csv_record_question r).
Proof.
  intros Hfields Hopts Hlen. unfold csv_question, csv_line.
  rewrite parseCSVLine_quoted; [|done|].
  - assert (Htrim : String_trim <$> csv_fields r = csv_fields r).
    { induction Hfields as [|s ss (Hs & _) _ IH]; [done|].
      rewrite fmap_cons, IH. unfold trimmed in Hs. congruence. }
    rewrite Htrim. unfold csv_fields, csv_record_question. do 3 f_equal.
    rewrite take_ge by lia.
    induction Hopts as [|o os Ho _ IH]; [done|]. simpl in *.
    unfold nonempty at 1. rewrite bool_decide_eq_false_2 by done. simpl.
    rewrite IH; [done|lia].
  - eapply Forall_impl; [exact Hfields|]. by intros s (_ & ? & _).
Qed.

Lemma has_char_quoted c s :
  c <> QUOTE -> has_char c (quoted s) = has_char c s.
Proof.
  intros Hc.
  assert (H : Ascii.eqb QUOTE c = false) by (apply Ascii.eqb_neq; congruence).
  unfold quoted. cbn [has_char]. rewrite has_char_app. cbn [has_char].
  rewrite H. simpl. by rewrite !orb_false_r.
Qed.

(** X10.  Reading back a CSV file: after any header line, for records
    whose fields have nothing to trim and hold no double quote and no line
    feed, with at most four options, none empty, [convertFromCsv] of the
    lines of quoted fields gives the records back, in order: the first
    field as [question], the second as [correctAnswer], the others as
    [options]. *)
Theorem convertFromCsv_round_trip header (records : list CsvRecord) :
  String_trim header <> EmptyString -> has_char LF header = false ->
  Forall (fun r => Forall csv_field (csv_fields r)
                   /\ Forall (fun o => o <> EmptyString) (csv_options r)
                   /\ (length (csv_options r) <= 4)%nat) records ->
  convertFromCsv
    (Array_join (String LF EmptyString) (header :: (csv_line <$> records)))
  = Some (csv_record_question <$> records).
Proof.
  intros Hheader Hlf Hall. unfold convertFromCsv. rewrite content_lines_join.
  - f_equal. induction Hall as [|r records (Hf & Ho & Hl) _ IH]; [done|].
    rewrite !fmap_cons. unfold omap in *. cbn [list_omap].
    rewrite csv_question_line by done. by rewrite IH.
  - constructor; [done|]. apply Forall_fmap.
    eapply Forall_impl; [exact Hall|]. intros r (Hf & _ & _).
    change (has_char LF (csv_line r) = false
            /\ String_trim (csv_line r) <> EmptyString). split.
    + apply has_char_join; [done|]. apply Forall_fmap.
      eapply Forall_impl; [exact Hf|]. intros s (_ & _ & Hs).
      change (has_char LF (quoted s) = false). by rewrite has_char_quoted.
    + unfold csv_line, csv_fields. rewrite !fmap_cons.
      change (Array_join (String COMMA EmptyString)
                (quoted (csv_text r) :: quoted (csv_answer r)
                   :: (quoted <$> csv_options r)))
        with (String QUOTE
                ((csv_text r ++ String QUOTE EmptyString)
                   ++ String COMMA EmptyString
                   ++ Array_join (String COMMA EmptyString)
                        (quoted (csv_answer r)
                           :: (quoted <$> csv_options r)))).
      by apply String_trim_nonblank.
Qed.

Lemma convertFromCsv_round_trip_witness :
  let records :=
    [ {| csv_text := "What is 2+2, exactly?"; csv_answer := "4";
         csv_options := ["3"; "5"] |} ] in
  String_trim "question,answer,option1,option2" <> EmptyString /\
  has_char LF "question,answer,option1,option2" = false /\
  Forall (fun r => Forall csv_field (csv_fields r)
                   /\ Forall (fun o => o <> EmptyString) (csv_options r)
                   /\ (length (csv_options r) <= 4)%nat) records /\
  convertFromCsv
    (Array_join (String LF EmptyString)
       ("question,answer,option1,option2" :: (csv_line <$> records)))
  = Some (csv_record_question <$> records).
Proof.
  intros records.
  assert (Hheader : String_trim "question,answer,option1,option2"
                    <> EmptyString) by discriminate.
  assert (Hall : Forall (fun r => Forall csv_field (csv_fields r)
                   /\ Forall (fun o => o <> EmptyString) (csv_options r)
                   /\ (length (csv_options r) <= 4)%nat) records).
  { repeat constructor; discriminate. }
  split; [exact Hheader|]. split; [reflexivity|]. split; [exact Hall|].
  exact (convertFromCsv_round_trip _ records Hheader eq_refl Hall).
Defined.

Lemma str_length_nonempty s : s <> EmptyString -> 1 <= str_length s.
Proof. destruct s; [done|]. unfold str_length. simpl. lia. Qed.

Lemma forEach_option_default os index errs :
  Forall (fun o => o <> EmptyString) os ->
  forEach_option (spread DEFAULT_OPTIONS no_options) os index errs = []
  <-> errs = [] /\ Forall (fun o => str_length o <= 200) os.
Proof.
  intros Hne. revert index errs.
  induction Hne as [|o os Ho _ IH]; intros index errs; simpl.
  - split; [by intros -> | by intros [-> _]].
  - rewrite IH, Forall_cons. unfold validateField. simpl.
    rewrite bool_decide_eq_false_2 by done. simpl.
    pose proof (str_length_nonempty o Ho).
    rewrite (proj2 (Z.ltb_ge _ _)) by lia.
    destruct (str_length o >? 200) eqn:Hmax; simpl.
    + unfold push. split; [intros [Hnil _]; by destruct errs | lia].
    + split; [intros [-> ?] | intros [-> [? ?]]]; (split; [done|]);
        [split; [lia | done] | done].
Qed.

Lemma csv_question_valid line q :
  csv_question line = Some q ->
  exists os,
    options q = Some os /\ (length os <= 4)%nat /\
    (valid (validateQuizQuestion q no_options) = true
     <-> 5 <= str_length (question q) <= 500 /\ (2 <= length os)%nat
         /\ Forall (fun o => str_length o <= 200) os).
Proof.
  unfold csv_question.
  destruct (parseCSVLine line) as [|value0 [|value1 columns]]; [done..|].
  intros [= <-]. set (os := List.filter nonempty (take 4 columns)).
  assert (Hlen : (length os <= 4)%nat).
  { subst os. etransitivity; [apply filter_length_le|].
    rewrite length_take. lia. }
  assert (Hne : Forall (fun o => o <> EmptyString) os).
  { subst os. apply Forall_forall. intros o Ho.
    apply list_elem_of_In, filter_In in Ho as [_ Ho].
    unfold nonempty in Ho. by apply negb_true_iff, bool_decide_eq_false in Ho. }
  exists os. split; [done|]. split; [done|].
  rewrite valid_iff_no_errors. unfold validateQuizQuestion. simpl.
  fold os. clearbody os.
  assert (Hmax : (Z.of_nat (length os) >? 10) = false)
    by (rewrite Z.gtb_ltb; apply Z.ltb_ge; lia).
  rewrite Hmax.
  rewrite forEach_option_default by done.
  unfold validateField. simpl.
  destruct (decide (value0 = EmptyString)) as [->|Hv].
  - simpl. split; [|unfold str_length; simpl; lia].
    intros [Hnil _]. destruct (Z.of_nat (length os) <? 2); discriminate Hnil.
  - rewrite bool_decide_eq_false_2 by done. simpl.
    destruct (str_length value0 <? 5) eqn:H5; simpl.
    { split; [|lia]. intros [Hnil _].
      destruct (Z.of_nat (length os) <? 2); discriminate Hnil. }
    destruct (str_length value0 >? 500) eqn:H500; simpl.
    { split; [|lia]. intros [Hnil _].
      destruct (Z.of_nat (length os) <? 2); discriminate Hnil. }
    destruct (Z.of_nat (length os) <? 2) eqn:H2; simpl.
    { split; [by intros [? _] | lia]. }
    split; [intros [_ ?] | intros (_ & _ & ?)]; [|done].
    split; [lia|]. split; [lia | done].
Qed.

(** X12.  A question of [convertFromCsv] always has an [options] array, of
    at most four options; under the default options it is valid for
    [validateQuizQuestion] exactly when its text has 5 to 500 code units,
    it has at least two options and no option is longer than 200: a row
    with fewer than two option columns never passes. *)
Theorem convertFromCsv_valid content qs q :
  convertFromCsv content = Some qs -> q ∈ qs ->
  exists os,
    options q = Some os /\ (length os <= 4)%nat /\
    (valid (validateQuizQuestion q no_options) = true
     <-> 5 <= str_length (question q) <= 500 /\ (2 <= length os)%nat
         /\ Forall (fun o => str_length o <= 200) os).
Proof.
  unfold convertFromCsv. destruct (content_lines content) as [|header rows];
    [done|].
  intros [= <-] (line & _ & Hq)%list_elem_of_omap.
  by apply csv_question_valid in Hq.
Qed.

Lemma convertFromCsv_valid_witness :
  let content := Array_join (String LF EmptyString) ["q,a"; "What is 2+2?,4"] in
  let q :=
    {| id_ := None; question := "What is 2+2?"; options := Some [];
       correctAnswer := Some (VStr "4"); explanation := None;
       category := None; difficulty := None; extra := ∅ |} in
  convertFromCsv content = Some [q] /\
  valid (validateQuizQuestion q no_options) = false.
Proof.
  intros content q.
  assert (Hcsv : convertFromCsv content = Some [q]) by reflexivity.
  split; [exact Hcsv|].
  destruct (convertFromCsv_valid content [q] q Hcsv ltac:(left))
    as (os & Hos & _ & Hvalid).
  injection Hos as <-.
  apply not_true_is_false. intros Htrue. apply Hvalid in Htrue.
  destruct Htrue as (_ & Htwo & _). simpl in Htwo. lia.
Defined.

(** ** The validate command *)

Lemma validateField_not_required value f mn mx p cv msg :
  validateField value
    {| field := f; minLength := mn; maxLength := mx; required := None;
       pattern := p; customValidator := cv; errorMessage := msg |}
  = validateField value
      {| field := f; minLength := mn; maxLength := mx; required := Some false;
         pattern := p; customValidator := cv; errorMessage := msg |}.
Proof. reflexivity. Qed.

Lemma forEach_option_ext o1 o2 os index errs :
  optionMinLength o1 = optionMinLength o2 ->
  optionMaxLength o1 = optionMaxLength o2 ->
  forEach_option o1 os index errs = forEach_option o2 os index errs.
Proof.
  intros Hmin Hmax. revert index errs.
  induction os as [|option rest IH]; intros; simpl; [done|].
  by rewrite Hmin, Hmax, IH.
Qed.

Lemma validateQuizQuestion_not_strict q strict :
  strict <> Some true ->
  validateQuizQuestion q (validateCommand_options strict)
  = validateQuizQuestion q no_options.
Proof.
  intros Hs. destruct strict as [[]|]; [by destruct Hs | reflexivity |].
  unfold validateQuizQuestion.
  destruct (options q) as [os|]; [|reflexivity].
  rewrite (forEach_option_ext
             (spread DEFAULT_OPTIONS (validateCommand_options None))
             (spread DEFAULT_OPTIONS no_options)) by done.
  reflexivity.
Qed.

Lemma validateQuizSet_ext questions o1 o2 :
  (forall q, validateQuizQuestion q o1 = validateQuizQuestion q o2) ->
  validateQuizSet questions o1 = validateQuizSet questions o2.
Proof.
  intros Heq. unfold validateQuizSet.
  assert (Hmap : map (fun q => validateQuizQuestion q o1) questions
                 = map (fun q => validateQuizQuestion q o2) questions)
    by (apply map_ext; auto).
  by rewrite Hmap.
Qed.

(** X13.  Without [--strict] the command validates as the defaults do: the
    options object gets its three [require...] properties whatever
    [options.strict] is, and with [strict] left out ([undefined]) or false
    they override the defaults with a falsy value, so the result of
    [validateQuizSet] is the one of the call without options. *)
Theorem validateCommand_not_strict questions strict :
  strict <> Some true ->
  validateCommand_result questions strict
  = validateQuizSet questions no_options.
Proof.
  intros Hs. apply validateQuizSet_ext. intros q.
  by apply validateQuizQuestion_not_strict.
Qed.

Lemma filter_length_zero {A} (p : A -> bool) l :
  length (List.filter p l) = 0%nat <-> Forall (fun x => p x = false) l.
Proof.
  induction l as [|x l IH]; simpl; [by split; [constructor|]|].
  rewrite Forall_cons, <- IH. destruct (p x); simpl; [split; [lia|] | tauto].
  by intros [? _].
Qed.

Lemma set_valid_Forall questions o :
  set_valid (validateQuizSet questions o) = true
  <-> Forall (fun q => errors (validateQuizQuestion q o) = []) questions.
Proof.
  unfold validateQuizSet. simpl. rewrite Z.eqb_eq.
  rewrite <- Nat2Z.inj_0, Nat2Z.inj_iff, filter_length_zero, Forall_map.
  apply Forall_iff. intros q. rewrite negb_false_iff.
  apply valid_iff_no_errors.
Qed.

Lemma validateQuizQuestion_strict_absent q :
  absent (of_string (explanation q)) \/ absent (of_string (category q))
  \/ absent (of_any (difficulty q)) ->
  errors (validateQuizQuestion q (validateCommand_options (Some true))) <> [].
Proof.
  intros Habs Hnil. apply (f_equal length) in Hnil.
  revert Hnil. unfold validateQuizQuestion.
  destruct Habs as [Habs|[Habs|Habs]];
    rewrite (validateField_absent _ _ Habs);
    destruct (options q) as [os|]; simpl.
  all: repeat length_step.
  all: simpl in *; unfold push in *; rewrite ?length_app in *; simpl in *; lia.
Qed.

Lemma validateCommand_not_strict_witness :
  (None : option bool) <> Some true /\
  validateCommand_result [four_options] None
  = validateQuizSet [four_options] no_options.
Proof.
  assert (Hs : (None : option bool) <> Some true) by discriminate.
  split; [exact Hs|].
  exact (validateCommand_not_strict [four_options] None Hs).
Defined.

(** X14.  The exit code of a run that reaches the end: 0 when no question
    of the file has an error (so for an empty file too, and whatever the
    warnings are), 1 otherwise.  With [--strict] one question whose
    explanation, category or difficulty is missing or empty is enough for
    exit code 1. *)
Theorem validateCommand_exit_code questions strict :
  (validateCommand_exit questions strict = 0 <->
   Forall (fun q =>
             errors (validateQuizQuestion q (validateCommand_options strict))
             = []) questions) /\
  (validateCommand_exit questions strict = 1 <->
   ~ Forall (fun q =>
               errors (validateQuizQuestion q (validateCommand_options strict))
               = []) questions) /\
  (strict = Some true ->
   forall q, q ∈ questions ->
     absent (of_string (explanation q)) \/ absent (of_string (category q))
     \/ absent (of_any (difficulty q)) ->
     validateCommand_exit questions strict = 1).
Proof.
  unfold validateCommand_exit, validateCommand_result.
  pose proof (set_valid_Forall questions (validateCommand_options strict))
    as Hvalid.
  destruct (set_valid _).
  - split; [tauto|]. split; [split; [done|]; intros H; destruct H; tauto|].
    intros -> q Hq Hmiss. destruct Hvalid as [Hvalid _].
    specialize (Hvalid eq_refl). rewrite Forall_forall in Hvalid.
    by destruct (validateQuizQuestion_strict_absent q Hmiss); auto.
  - split; [split; [done|]; intros H%Hvalid; done|].
    split; [|done]. split; [|done]. intros _ H%Hvalid. done.
Qed.

Lemma validateCommand_exit_code_witness :
  four_options ∈ [four_options] /\
  absent (of_string (explanation four_options)) /\
  validateCommand_exit [four_options] (Some true) = 1 /\
  validateCommand_exit [four_options] None = 0.
Proof.
  assert (Hin : four_options ∈ [four_options]) by left.
  assert (Habs : absent (of_string (explanation four_options))) by (by left).
  destruct (validateCommand_exit_code [four_options] (Some true))
    as (_ & _ & Hstrict).
  destruct (validateCommand_exit_code [four_options] None) as (Hzero & _ & _).
  split; [exact Hin|]. split; [exact Habs|]. split.
  - exact (Hstrict eq_refl four_options Hin (or_introl Habs)).
  - apply Hzero. repeat constructor.
Defined.

(** ** Problematic questions *)

Lemma valid_score_100 q o :
  array_sized q o -> valid (validateQuizQuestion q o) = true ->
  score (validateQuizQuestion q o) = 100.
Proof.
  intros Hsz Hvalid%valid_iff_no_errors. rewrite score_eq, Hvalid. simpl.
  pose proof (totalChecks_range q o Hsz).
  apply compute_score_none_failed. lia.
Qed.

Lemma forEach_result_validateQuizSet o pre questions acc :
  Forall (fun q => array_sized q o) questions ->
  forEach_result (pre ++ questions)
    (map (fun q => validateQuizQuestion q o) questions) (length pre) acc
  = (acc ++ map (problem_of o) (List.filter (fails o) questions))%list.
Proof.
  intros Hall. revert pre acc.
  induction Hall as [|q questions Hq _ IH]; intros pre acc; simpl.
  - by rewrite app_nil_r.
  - replace (pre ++ q :: questions)%list with ((pre ++ [q]) ++ questions)%list
      by (by rewrite <- app_assoc).
    replace (S (length pre)) with (length (pre ++ [q])%list)
      by (rewrite length_app; simpl; lia).
    rewrite IH. unfold fails at 2.
    destruct (valid (validateQuizQuestion q o)) eqn:Hvalid; simpl.
    + rewrite (valid_score_100 q o Hq Hvalid). done.
    + rewrite <- app_assoc. simpl. do 2 f_equal.
      unfold problem_of. f_equal.
      rewrite <- app_assoc. simpl.
      by rewrite list_lookup_middle.
Qed.

(** X15.  The problematic questions of a validated set are the failed
    ones: for questions and rules of JavaScript size,
    [identifyProblematicQuestions] on the results of [validateQuizSet]
    lists the questions that have an error, in order, each with its
    messages (at least one) and its score; its [count] is [failed] of the
    summary.  The test [score < 70] adds nothing, a valid question scoring
    100. *)
Theorem identifyProblematicQuestions_validateQuizSet questions o :
  Forall (fun q => array_sized q o) questions ->
  let set := validateQuizSet questions o in
  let found := identifyProblematicQuestions questions (results set) in
  problematic found = map (problem_of o) (List.filter (fails o) questions) /\
  count found = failed (summary set) /\
  Forall (fun p => issues p <> []) (problematic found).
Proof.
  intros Hall set found.
  assert (Hprob : problematic found
                  = map (problem_of o) (List.filter (fails o) questions)).
  { subst found set. unfold identifyProblematicQuestions, validateQuizSet.
    simpl. apply (forEach_result_validateQuizSet o [] questions [] Hall). }
  split; [exact Hprob|]. split.
  - subst found set. unfold identifyProblematicQuestions in *. simpl in *.
    rewrite Hprob, length_map. f_equal. clear.
    induction questions as [|q questions IH]; simpl; [done|].
    unfold fails at 1. destruct (valid (validateQuizQuestion q o)); simpl; lia.
  - rewrite Hprob. apply Forall_map, Forall_forall. intros q Hq.
    apply list_elem_of_In, filter_In in Hq as [_ Hq]. unfold fails in Hq.
    simpl. intros Hnil. apply map_eq_nil in Hnil.
    apply valid_iff_no_errors in Hnil. rewrite Hnil in Hq. done.
Qed.

Lemma identifyProblematicQuestions_validateQuizSet_witness :
  let questions :=
    [plain_question "Valid question?" (Some ["A"; "B"]);
     plain_question EmptyString (Some ["C"])] in
  Forall (fun q => array_sized q no_options) questions /\
  count (identifyProblematicQuestions questions
           (results (validateQuizSet questions no_options))) = 1.
Proof.
  intros questions.
  assert (Hsized : Forall (fun q => array_sized q no_options) questions)
    by (repeat constructor; vm_compute; discriminate).
  split; [exact Hsized|].
  destruct (identifyProblematicQuestions_validateQuizSet questions no_options
              Hsized) as (_ & Hcount & _).
  rewrite Hcount. reflexivity.
Defined.

(** ** Reports *)

Lemma lines_forEach_app {A} (items : list A) line lines :
  lines_forEach items line lines = (lines ++ map line items)%list.
Proof.
  revert lines. induction items as [|item items IH]; intros lines; simpl.
  - by rewrite app_nil_r.
  - unfold lines_forEach in *. simpl. rewrite IH. unfold lines_push.
    by rewrite <- app_assoc.
Qed.

Lemma generateReport_lines_eq result questionId :
  generateReport_lines result questionId
  = (title_lines questionId
       ++ [score_line result;
           if valid result then "**Status**: ✅ PASS"
           else "**Status**: ❌ FAIL";
           EmptyString]
       ++ section_lines "### Errors" (errors result)
       ++ section_lines "### Warnings" (warnings result)
       ++ (if valid result then ["✅ All validation checks passed!"]
           else []))%list.
Proof.
  unfold generateReport_lines, title_lines, section_lines, score_line.
  rewrite !lines_forEach_app. unfold lines_push. fold error_line.
  destruct questionId, (errors result) as [|e es],
    (warnings result) as [|w ws], (valid result);
    simpl; rewrite <- ?app_assoc; simpl; rewrite ?app_nil_r;
    try reflexivity.
Qed.


(** X16.  The report of a validated question, line by line: after the
    title (if an id is given), the score, the status and an empty line,
    a question without errors gets the status PASS, the warnings section
    if it has a warning and the closing line "All validation checks
    passed!"; a question with errors gets the status FAIL, the errors
    section with one line per error, the warnings section if it has a
    warning, and no closing line. *)
Theorem generateReport_validateQuizQuestion q o questionId :
  let result := validateQuizQuestion q o in
  generateReport_lines result questionId
  = match errors result with
    | [] =>
        (title_lines questionId
           ++ [score_line result; "**Status**: ✅ PASS"; EmptyString]
           ++ section_lines "### Warnings" (warnings result)
           ++ ["✅ All validation checks passed!"])%list
    | _ =>
        (title_lines questionId
           ++ [score_line result; "**Status**: ❌ FAIL"; EmptyString]
           ++ section_lines "### Errors" (errors result)
           ++ section_lines "### Warnings" (warnings result))%list
    end.
Proof.
  intros result. rewrite generateReport_lines_eq.
  pose proof (valid_iff_no_errors q o) as Hvalid. fold result in Hvalid.
  destruct (errors result) as [|e es] eqn:He.
  - rewrite (proj2 Hvalid eq_refl). done.
  - destruct (valid result);
      [by destruct Hvalid as [Hvalid _]; specialize (Hvalid eq_refl)|].
    by rewrite app_nil_r.
Qed.

(** * Analytics and the batch report *)

(** ** Numbers: comparisons and exact results *)

Lemma Number_0 : Number 0 = S754_zero false.
Proof. reflexivity. Qed.

Lemma Number_lt_finite m1 e1 m2 e2 :
  Number_lt (S754_finite false m1 e1) (S754_finite false m2 e2)
  = (e1 <? e2) || (e1 =? e2) && (Z.pos m1 <? Z.pos m2).
Proof.
  unfold Number_lt, SFltb, SFcompare.
  destruct (Z.compare_spec e1 e2) as [->|Hlt|Hgt].
  - rewrite Z.ltb_irrefl, Z.eqb_refl. unfold Z.ltb. simpl.
    change (Pos.compare_cont Eq m1 m2) with (m1 ?= m2)%positive.
    by destruct (m1 ?= m2)%positive.
  - by rewrite (proj2 (Z.ltb_lt _ _) Hlt).
  - rewrite (proj2 (Z.ltb_ge _ _)), (proj2 (Z.eqb_neq _ _)) by lia. done.
Qed.

Lemma pow2_lt_double d1 d2 : 0 <= d1 < d2 -> 2 * 2 ^ d1 <= 2 ^ d2.
Proof.
  intros Hd. rewrite <- Binary64.pow2_succ by lia.
  apply Z.pow_le_mono_r; lia.
Qed.



(** The literal [0.8] is the double closest to 8/10: it is their double
    quotient, within half a unit of the last place of the exact one. *)
Example Number_0_8_nearest :
  Number_0_8 = Number_div (Number 8) (Number 10) /\
  Z.abs (10 * 7205759403792794 - 8 * 2 ^ 53) <= 5.
Proof. split; [reflexivity|]. vm_compute. discriminate. Qed.

(** A quotient of at most one is above the double [0.8] exactly when the
    exact quotient is above 4/5. *)
Lemma Number_div_gt_0_8 a b :
  0 <= a <= b -> 0 < b < 2 ^ 50 ->
  Number_lt Number_0_8 (Number_div (Number a) (Number b)) = true
  <-> 4 * b < 5 * a.
Proof.
  intros Ha Hb.
  destruct (decide (a = 0)) as [->|Ha0].
  { rewrite Number_0.
    destruct (Binary64.Number_pos b) as (mb & eb & -> & _); [lia|].
    simpl. split; [done | lia]. }
  destruct (decide (a = b)) as [->|Hab].
  { rewrite Binary64.Number_div_self by lia. split; [lia | done]. }
  destruct (Binary64.Number_div_enclosure a b)
    as (m & e & -> & Hm & He & Hlo & Hhi); [lia | lia |].
  unfold Number_0_8. rewrite Number_lt_finite.
  set (P := 2 ^ (- e)) in *.
  assert (HP : 0 < P) by (apply Binary64.pow2_pos; lia).
  (* the quotient is below one: its exponent is at most -53 *)
  assert (He53 : e <= -53).
  { destruct (decide (e <= -53)); [done|].
    assert (P <= 2 ^ 52) by (apply Z.pow_le_mono_r; lia).
    assert (P * b <= Z.pos m * b) by (apply Z.mul_le_mono_nonneg_r; lia).
    assert (a * P <= (b - 1) * P) by (apply Z.mul_le_mono_nonneg_r; lia).
    assert (1 <= P) by lia.
    replace ((b - 1) * P) with (P * b - P) in * by ring.
    assert (P <= b) by lia.
    assert (2 ^ 52 * b <= Z.pos m * b) by (apply Z.mul_le_mono_nonneg_r; lia).
    assert (a * P <= a * 2 ^ 52) by (apply Z.mul_le_mono_nonneg_l; lia).
    lia. }
  rewrite (proj2 (Z.ltb_ge (-53) e)) by lia. rewrite orb_false_l.
  destruct (Z.eqb_spec (-53) e) as [<-|Hne]; simpl andb.
  - change (2 ^ (- -53)) with (2 ^ 53) in *. subst P. rewrite Z.ltb_lt.
    split; intros H.
    + assert (7205759403792795 * b <= Z.pos m * b)
        by (apply Z.mul_le_mono_nonneg_r; lia).
      lia.
    + destruct (decide (7205759403792794 < Z.pos m)); [done|].
      assert ((Z.pos m + 1) * b <= 7205759403792795 * b)
        by (apply Z.mul_le_mono_nonneg_r; lia).
      lia.
  - split; [done|]. intros H.
    assert (2 ^ 54 <= P) by (apply Z.pow_le_mono_r; lia).
    assert (a * 2 ^ 54 <= a * P) by (apply Z.mul_le_mono_nonneg_l; lia).
    assert ((Z.pos m + 1) * b <= 2 ^ 53 * b)
      by (apply Z.mul_le_mono_nonneg_r; lia).
    lia.
Qed.

(** A double is its 53-bit mantissa and exponent, and no other. *)
Lemma normal_unique m1 m2 d1 d2 :
  2 ^ 52 <= m1 < 2 ^ 53 -> 2 ^ 52 <= m2 < 2 ^ 53 -> 0 <= d1 -> 0 <= d2 ->
  m1 * 2 ^ d1 = m2 * 2 ^ d2 -> m1 = m2 /\ d1 = d2.
Proof.
  intros Hm1 Hm2 Hd1 Hd2 Heq.
  assert (H1 : 0 < 2 ^ d1) by (by apply Binary64.pow2_pos).
  assert (H2 : 0 < 2 ^ d2) by (by apply Binary64.pow2_pos).
  destruct (Z.lt_trichotomy d1 d2) as [Hlt|[->|Hgt]].
  - assert (2 * 2 ^ d1 <= 2 ^ d2) by (apply pow2_lt_double; lia).
    assert (m1 * 2 ^ d1 < 2 ^ 53 * 2 ^ d1) by (apply Z.mul_lt_mono_pos_r; lia).
    assert (2 ^ 52 * 2 ^ d2 <= m2 * 2 ^ d2)
      by (apply Z.mul_le_mono_nonneg_r; lia).
    lia.
  - split; [|done]. apply Z.mul_cancel_r in Heq; lia.
  - assert (2 * 2 ^ d2 <= 2 ^ d1) by (apply pow2_lt_double; lia).
    assert (m2 * 2 ^ d2 < 2 ^ 53 * 2 ^ d2) by (apply Z.mul_lt_mono_pos_r; lia).
    assert (2 ^ 52 * 2 ^ d1 <= m1 * 2 ^ d1)
      by (apply Z.mul_le_mono_nonneg_r; lia).
    lia.
Qed.

Lemma Number_of_normal k m e :
  0 < k < 2 ^ 53 -> 2 ^ 52 <= Z.pos m < 2 ^ 53 -> e <= 0 ->
  Z.pos m = k * 2 ^ (- e) -> Number k = S754_finite false m e.
Proof.
  intros Hk Hm He Hv.
  destruct (Binary64.Number_pos k Hk) as (mk & ek & -> & Hmk & Hek & Hvk).
  destruct (normal_unique (Z.pos mk) (Z.pos m) (- e) (- ek))
    as [Heq1 Heq2]; [done | done | lia | lia | |].
  - rewrite Hv, Hvk. ring.
  - assert (ek = e) by lia. congruence.
Qed.

(** Rounding an exact result that is an integer below 2^53 gives that
    integer. *)
Lemma binary_round_aux_exact k s mx :
  0 < k < 2 ^ 53 -> 0 <= s <= 200 -> 2 ^ 52 <= Z.pos mx ->
  Z.pos mx = k * 2 ^ s ->
  binary_round_aux 53 1024 false (Z.pos mx) (- s) loc_Exact = Number k.
Proof.
  intros Hk Hs Hmx Hv.
  pose proof (Binary64.digits2_bounds mx) as [Hdlo Hdhi].
  set (d := Z.pos (digits2_pos mx)) in *.
  assert (Hd : 53 <= d).
  { destruct (decide (53 <= d)); [done|].
    assert (2 ^ d <= 2 ^ 52) by (apply Z.pow_le_mono_r; lia). lia. }
  set (n := d - 53).
  assert (Hn : 2 ^ (52 + n) <= Z.pos mx < 2 ^ (53 + n)).
  { subst n. replace (52 + (d - 53)) with (d - 1) by lia.
    replace (53 + (d - 53)) with d by lia. done. }
  assert (Hsn : n <= s).
  { destruct (decide (n <= s)); [done|].
    assert (2 * 2 ^ s <= 2 ^ n) by (apply pow2_lt_double; lia).
    assert (0 < 2 ^ s) by (apply Binary64.pow2_pos; lia).
    assert (k * 2 ^ s < 2 ^ 53 * 2 ^ s) by (apply Z.mul_lt_mono_pos_r; lia).
    assert (2 ^ (52 + n) = 2 ^ 52 * 2 ^ n) by (apply Z.pow_add_r; lia).
    lia. }
  assert (Hsplit : Z.pos mx = k * 2 ^ (s - n) * 2 ^ n).
  { rewrite Hv, <- Z.mul_assoc, <- Z.pow_add_r by lia. do 2 f_equal. lia. }
  assert (Hn0 : 0 < 2 ^ n) by (apply Binary64.pow2_pos; lia).
  destruct (Binary64.binary_round_aux_bound false mx (- s) loc_Exact n)
    as (m' & e' & -> & Hm' & He' & _ & Hexact); [lia | done | lia | lia |].
  specialize (Hexact eq_refl).
  rewrite Hsplit, Z.mod_mul, Z.div_mul in Hexact by lia.
  specialize (Hexact eq_refl).
  assert (He0 : e' <= 0).
  { destruct (decide (e' <= 0)); [done|].
    assert (e' = 1 /\ s = n) as [-> ->] by lia.
    replace (1 - (- n + n)) with 1 in Hexact by lia.
    rewrite Z.sub_diag in Hexact. simpl in Hexact. lia. }
  symmetry. apply Number_of_normal; [done | done | done |].
  set (j := e' - (- s + n)) in *.
  assert (0 < 2 ^ j) by (apply Binary64.pow2_pos; lia).
  assert (Hpow : 2 ^ (s - n) = 2 ^ (- e') * 2 ^ j).
  { rewrite <- Z.pow_add_r by lia. f_equal. lia. }
  rewrite Hpow, Z.mul_assoc in Hexact.
  apply Z.mul_cancel_r in Hexact; lia.
Qed.

(** The product of two integers is exact below 2^53. *)
Lemma Number_mul_exact a b :
  0 <= a < 2 ^ 53 -> 0 <= b < 2 ^ 53 -> a * b < 2 ^ 53 ->
  Number_mul (Number a) (Number b) = Number (a * b).
Proof.
  intros Ha Hb Hab.
  destruct (decide (a = 0)) as [->|Ha0].
  { rewrite Z.mul_0_l, Number_0. destruct (decide (b = 0)) as [->|Hb0].
    - reflexivity.
    - destruct (Binary64.Number_pos b) as (mb & eb & -> & _); [lia|].
      reflexivity. }
  destruct (decide (b = 0)) as [->|Hb0].
  { rewrite Z.mul_0_r, Number_0.
    destruct (Binary64.Number_pos a) as (ma & ea & -> & _); [lia|].
    reflexivity. }
  destruct (Binary64.Number_pos a) as (ma & ea & -> & Hma & Hea & Hva); [lia|].
  destruct (Binary64.Number_pos b) as (mb & eb & -> & Hmb & Heb & Hvb); [lia|].
  unfold Number_mul, SFmul. simpl xorb.
  replace (ea + eb) with (- (- ea - eb)) by lia.
  apply binary_round_aux_exact; [nia | lia | |].
  - rewrite Pos2Z.inj_mul.
    assert (2 ^ 52 * 2 ^ 52 <= Z.pos ma * Z.pos mb)
      by (apply Z.mul_le_mono_nonneg; lia).
    lia.
  - rewrite Pos2Z.inj_mul, Hva, Hvb.
    replace (- ea - eb) with (- ea + - eb) by lia.
    rewrite Z.pow_add_r by lia. ring.
Qed.

(** The quotient by a divisor that divides is exact. *)
Lemma Number_div_exact k t :
  0 < k -> 0 < t -> k * t < 2 ^ 53 ->
  Number_div (Number (k * t)) (Number t) = Number k.
Proof.
  intros Hk Ht Hkt.
  assert (Hk53 : k < 2 ^ 53) by nia.
  assert (Ht53 : t < 2 ^ 53) by nia.
  destruct (Binary64.Number_pos (k * t))
    as (ma & ea & -> & Hma & Hea & Hva); [nia|].
  destruct (Binary64.Number_pos t) as (mt & et & -> & Hmt & Het & Hvt); [lia|].
  unfold Number_div, SFdiv.
  rewrite Binary64.SFdiv_core_normal by (done || lia). simpl xorb.
  set (u := 53 - ea + et).
  assert (Hq : Z.pos ma * 2 ^ 53 = k * 2 ^ u * Z.pos mt).
  { rewrite Hva, Hvt. subst u.
    replace (53 - ea + et) with (53 + - ea - - et) by lia.
    rewrite Z.pow_sub_r, Z.pow_add_r by lia.
    assert (Hdiv : 2 ^ 53 * 2 ^ (- ea) = 2 ^ 53 * 2 ^ (- ea) / 2 ^ (- et)
                                        * 2 ^ (- et)).
    { assert (Hpow : 2 ^ 53 * 2 ^ (- ea)
                     = 2 ^ (53 + - ea - - et) * 2 ^ (- et)).
      { rewrite <- !Z.pow_add_r by lia. f_equal. lia. }
      rewrite Hpow at 2. rewrite Z.div_mul; [done|].
      pose proof (Binary64.pow2_pos (- et)). lia. }
    set (X := 2 ^ 53 * 2 ^ (- ea) / 2 ^ (- et)) in *.
    transitivity (k * t * (2 ^ 53 * 2 ^ (- ea))); [ring|].
    rewrite Hdiv. ring. }
  assert (Hpu : 0 < 2 ^ u) by (apply Binary64.pow2_pos; lia).
  rewrite Hq, Z.div_mul, Z.mod_mul, Binary64.new_location_exact by lia.
  replace (ea - et - 53) with (- u) by lia.
  assert (Hpos : 0 < k * 2 ^ u) by lia.
  destruct (k * 2 ^ u) as [|pq|pq] eqn:Hpq; [lia| |lia].
  apply binary_round_aux_exact; [lia | lia | | done].
  apply (Z.mul_le_mono_pos_r _ _ (Z.pos mt)); [lia|]. rewrite <- Hq.
  assert (2 ^ 52 * Z.pos mt <= 2 ^ 52 * 2 ^ 53)
    by (apply Z.mul_le_mono_nonneg_l; lia).
  assert (2 ^ 52 * 2 ^ 53 <= Z.pos ma * 2 ^ 53)
    by (apply Z.mul_le_mono_nonneg_r; lia).
  lia.
Qed.

Lemma Math_ceil_Number k : 0 <= k < 2 ^ 53 -> Math_ceil (Number k) = k.
Proof.
  intros Hk. destruct (decide (k = 0)) as [->|Hk0]; [done|].
  destruct (Binary64.Number_pos k) as (m & e & -> & Hm & He & Hv); [lia|].
  unfold Math_ceil. simpl cond_Zopp.
  destruct (Z.leb_spec 0 e).
  - assert (e = 0) as -> by lia. simpl in *. lia.
  - pose proof (Binary64.pow2_pos (- e)).
    rewrite Hv, <- Z.mul_opp_l, Z.div_mul by lia. lia.
Qed.

Lemma Math_floor_Number k : 0 <= k < 2 ^ 53 -> Math_floor (Number k) = k.
Proof.
  intros Hk. destruct (decide (k = 0)) as [->|Hk0]; [done|].
  destruct (Binary64.Number_pos k) as (m & e & -> & Hm & He & Hv); [lia|].
  unfold Math_floor. simpl cond_Zopp.
  destruct (Z.leb_spec 0 e).
  - assert (e = 0) as -> by lia. simpl in *. lia.
  - pose proof (Binary64.pow2_pos (- e)).
    rewrite Hv, Z.div_mul by lia. lia.
Qed.

(** The double quotient of two integers, when the divisor does not divide:
    it lies strictly between the integers around the exact quotient. *)
Lemma Number_div_between x t :
  0 < x < 2 ^ 51 -> 0 < t < 2 ^ 53 -> x mod t <> 0 ->
  exists m e,
    Number_div (Number x) (Number t) = S754_finite false m e /\ e < 0 /\
    x / t * 2 ^ (- e) < Z.pos m < (x / t + 1) * 2 ^ (- e).
Proof.
  intros Hx Ht Hmod.
  destruct (Binary64.Number_div_enclosure x t)
    as (m & e & -> & Hm & He & Hlo & Hhi); [lia | lia |].
  exists m, e. split; [done|]. split; [lia|].
  set (P := 2 ^ (- e)) in *.
  assert (HP : 0 < P) by (apply Binary64.pow2_pos; lia).
  pose proof (Z.div_mod x t ltac:(lia)) as Hdm.
  pose proof (Z.mod_pos_bound x t ltac:(lia)) as Hr.
  set (k := x / t) in *. set (r := x mod t) in *. clearbody P k r.
  assert (HPt : t < P).
  { destruct (decide (t < P)); [done|].
    assert (x * P <= x * t) by (apply Z.mul_le_mono_nonneg_l; lia).
    assert (2 ^ 52 * t <= Z.pos m * t) by (apply Z.mul_le_mono_nonneg_r; lia).
    assert (x * t < 2 ^ 51 * t) by (apply Z.mul_lt_mono_pos_r; lia).
    lia. }
  assert (HxP : x * P = k * P * t + r * P) by (rewrite Hdm; ring).
  assert (HrP : 1 * P <= r * P <= (t - 1) * P)
    by (split; apply Z.mul_le_mono_nonneg_r; lia).
  split.
  - apply (Z.mul_lt_mono_pos_r t); [lia|]. lia.
  - apply (Z.mul_lt_mono_pos_r t); [lia|].
    replace ((k + 1) * P * t) with (k * P * t + t * P) by ring. lia.
Qed.

(** [Math.ceil] and [Math.floor] of the double quotient of two integers
    are those of the exact quotient. *)
Lemma Math_ceil_div x t :
  0 <= x < 2 ^ 51 -> 0 < t < 2 ^ 53 ->
  Math_ceil (Number_div (Number x) (Number t)) = - ((- x) / t).
Proof.
  intros Hx Ht.
  destruct (decide (x = 0)) as [->|Hx0].
  { rewrite Number_0.
    destruct (Binary64.Number_pos t Ht) as (mt & et & -> & _). done. }
  destruct (decide (x mod t = 0)) as [Hmod|Hmod].
  - apply Z.div_exact in Hmod; [|lia].
    assert (Hk : 0 < x / t) by nia.
    rewrite Hmod at 1. rewrite (Z.mul_comm t), Number_div_exact by nia.
    rewrite Math_ceil_Number by nia.
    rewrite Hmod at 2. rewrite <- Z.mul_opp_r, (Z.mul_comm t), Z.div_mul by lia.
    lia.
  - destruct (Number_div_between x t) as (m & e & -> & He & Hm); [lia..|].
    unfold Math_ceil. simpl cond_Zopp.
    rewrite (proj2 (Z.leb_gt 0 e)) by lia.
    pose proof (Binary64.pow2_pos (- e) ltac:(lia)) as HP.
    pose proof (Z.div_mod x t ltac:(lia)) as Hdm.
    pose proof (Z.mod_pos_bound x t ltac:(lia)) as Hr.
    set (P := 2 ^ (- e)) in *. set (k := x / t) in *.
    rewrite <- (Z.div_unique (- Z.pos m) P (- (k + 1))
                 ((k + 1) * P - Z.pos m)) by lia.
    rewrite <- (Z.div_unique (- x) t (- (k + 1)) (t - x mod t)) by lia.
    done.
Qed.

Lemma Math_floor_div x t :
  0 <= x < 2 ^ 51 -> 0 < t < 2 ^ 53 ->
  Math_floor (Number_div (Number x) (Number t)) = x / t.
Proof.
  intros Hx Ht.
  destruct (decide (x = 0)) as [->|Hx0].
  { rewrite Number_0.
    destruct (Binary64.Number_pos t Ht) as (mt & et & -> & _). done. }
  destruct (decide (x mod t = 0)) as [Hmod|Hmod].
  - apply Z.div_exact in Hmod; [|lia].
    assert (Hk : 0 < x / t) by nia.
    rewrite Hmod at 1. rewrite (Z.mul_comm t), Number_div_exact by nia.
    by rewrite Math_floor_Number by nia.
  - destruct (Number_div_between x t) as (m & e & -> & He & Hm); [lia..|].
    unfold Math_floor. simpl cond_Zopp.
    rewrite (proj2 (Z.leb_gt 0 e)) by lia.
    pose proof (Binary64.pow2_pos (- e) ltac:(lia)) as HP.
    set (P := 2 ^ (- e)) in *. set (k := x / t) in *.
    symmetry. apply (Z.div_unique (Z.pos m) P k (Z.pos m - k * P)); lia.
Qed.

(** ** Completion time *)

Lemma ceil_div_60 x : - ((- x) / 60) = (x + 59) / 60.
Proof.
  pose proof (Z.div_mod (x + 59) 60 ltac:(lia)).
  pose proof (Z.mod_pos_bound (x + 59) 60 ltac:(lia)).
  rewrite <- (Z.div_unique (- x) 60 (- ((x + 59) / 60))
               (59 - (x + 59) mod 60)) by lia.
  lia.
Qed.

(** X17.  The completion time of a quiz, for a whole number of seconds per
    question (30 by default, at most 2^19) and an array of JavaScript
    size: [totalSeconds] is the product, exactly; [totalMinutes] is the
    least number of minutes that covers it; and [formatted] writes
    [totalMinutes] as hours and minutes ("2h 5m") from 60 minutes on, and
    as "[totalMinutes] minutes" below. *)
Theorem estimateCompletionTime_exact questions secondsPerQuestion :
  let n := Z.of_nat (length questions) in
  let s := default 30 secondsPerQuestion in
  let estimate := estimateCompletionTime questions secondsPerQuestion in
  n <= MAX_ARRAY_LENGTH -> 0 <= s < 2 ^ 19 ->
  totalSeconds estimate = Number (n * s) /\
  totalMinutes estimate = (n * s + 59) / 60 /\
  60 * (totalMinutes estimate - 1) < n * s <= 60 * totalMinutes estimate /\
  formatted estimate
  = if 60 <=? totalMinutes estimate then
      Number_toString (totalMinutes estimate / 60) ++ "h "
        ++ Number_toString (totalMinutes estimate mod 60) ++ "m"
    else Number_toString (totalMinutes estimate) ++ " minutes".
Proof.
  intros n s estimate Hn Hs. unfold MAX_ARRAY_LENGTH in Hn.
  assert (Hn0 : 0 <= n) by (subst n; lia).
  assert (Hns : 0 <= n * s < 2 ^ 51).
  { split; [nia|].
    assert (n * s <= 2 ^ 32 * s) by (apply Z.mul_le_mono_nonneg_r; lia).
    lia. }
  subst estimate. unfold estimateCompletionTime.
  cbn [totalSeconds totalMinutes formatted]. fold n s.
  rewrite Number_mul_exact, Math_ceil_div, ceil_div_60 by lia.
  set (M := (n * s + 59) / 60).
  pose proof (Z.div_mod (n * s + 59) 60 ltac:(lia)) as Hdm.
  pose proof (Z.mod_pos_bound (n * s + 59) 60 ltac:(lia)) as Hr.
  fold M in Hdm.
  assert (HM : 0 <= M < 2 ^ 51) by lia.
  split; [done|]. split; [done|]. split; [lia|].
  rewrite Math_floor_div by lia.
  rewrite Z.rem_mod_nonneg by lia.
  destruct (Z.leb_spec 60 M) as [H60|H60].
  - assert (0 < M / 60) by (apply Z.div_str_pos; lia).
    by rewrite (proj2 (Z.ltb_lt 0 (M / 60))) by lia.
  - rewrite Z.div_small, Z.mod_small by lia. done.
Qed.

Lemma estimateCompletionTime_exact_witness :
  let questions := List.repeat four_options 250 in
  Z.of_nat (length questions) <= MAX_ARRAY_LENGTH /\
  0 <= 30 < 2 ^ 19 /\
  totalMinutes (estimateCompletionTime questions None) = 125 /\
  formatted (estimateCompletionTime questions None) = "2h 5m".
Proof.
  intros questions.
  assert (Hn : Z.of_nat (length questions) <= MAX_ARRAY_LENGTH)
    by (vm_compute; discriminate).
  assert (Hs : 0 <= 30 < 2 ^ 19) by lia.
  destruct (estimateCompletionTime_exact questions None Hn Hs)
    as (_ & Hmin & _ & Hfmt).
  split; [exact Hn|]. split; [exact Hs|].
  split; [rewrite Hmin | rewrite Hfmt, Hmin]; reflexivity.
Defined.

(** ** Duplicates *)

Lemma String_toLowerCase_length s :
  String.length (String_toLowerCase s) = String.length s.
Proof. induction s as [|c s IH]; simpl; [done|]. by rewrite IH. Qed.

Lemma String_split_spaces_from_length s in_run :
  (1 <= length (String_split_spaces_from s in_run) <= S (String.length s))%nat.
Proof.
  revert in_run. induction s as [|c s IH]; intros in_run; simpl; [lia|].
  destruct (is_whitespace c).
  - destruct in_run; [specialize (IH true); lia|].
    specialize (IH true). simpl. lia.
  - specialize (IH false).
    destruct (String_split_spaces_from s false); simpl in *; lia.
Qed.

Lemma word_set_size text :
  1 <= Z.of_nat (size (word_set text)) <= str_length text + 1.
Proof.
  unfold word_set, String_split_spaces, str_length.
  pose proof (String_split_spaces_from_length (String_toLowerCase text) false)
    as [Hlo Hhi].
  rewrite String_toLowerCase_length in Hhi.
  set (pieces := String_split_spaces_from _ _) in *.
  pose proof (uniqueOptions_size pieces) as [Hle _].
  unfold uniqueOptions in Hle.
  split; [|lia].
  destruct pieces as [|piece pieces]; [simpl in Hlo; lia|].
  assert (size (list_to_set (piece :: pieces) : gset string) <> 0%nat);
    [|lia].
  apply size_non_empty_iff. set_solver.
Qed.

Lemma intersection_filter (X Y : gset string) :
  filter (fun w => w ∈ Y) X = X ∩ Y.
Proof. set_solver. Qed.

Lemma calculateSimilarity_eq text1 text2 :
  calculateSimilarity text1 text2
  = Number_div
      (Number (Z.of_nat (size (word_set text1 ∩ word_set text2))))
      (Number (Z.of_nat (size (word_set text1 ∪ word_set text2)))).
Proof. unfold calculateSimilarity. by rewrite intersection_filter. Qed.

(** X18.  The similarity of two texts does not depend on their order. *)
Theorem calculateSimilarity_comm text1 text2 :
  calculateSimilarity text1 text2 = calculateSimilarity text2 text1.
Proof.
  rewrite !calculateSimilarity_eq.
  by rewrite (comm_L (∩) (word_set text1)), (comm_L (∪) (word_set text1)).
Qed.

Lemma calculateSimilarity_gt text1 text2 :
  str_length text1 < 2 ^ 48 -> str_length text2 < 2 ^ 48 ->
  Number_lt Number_0_8 (calculateSimilarity text1 text2) = true
  <-> similar text1 text2.
Proof.
  intros H1 H2. rewrite calculateSimilarity_eq. unfold similar.
  pose proof (word_set_size text1) as Hs1.
  pose proof (word_set_size text2) as Hs2.
  set (X := word_set text1) in *. set (Y := word_set text2) in *.
  assert (Hsub : (size (X ∩ Y) <= size (X ∪ Y))%nat)
    by (apply subseteq_size; set_solver).
  assert (Hunion : (size (X ∪ Y) <= size X + size Y)%nat).
  { rewrite size_union_alt.
    assert (size (Y ∖ X) <= size Y)%nat by (apply subseteq_size; set_solver).
    lia. }
  assert (HX : (size X <= size (X ∪ Y))%nat)
    by (apply subseteq_size; set_solver).
  apply Number_div_gt_0_8; lia.
Qed.

(** X19.  The threshold of [findDuplicates], for texts of fewer than 2^48
    code units (the strings of every engine): the double quotient is above
    the double [0.8] exactly when the two texts share more than four fifths
    of their words, [5 * |A ∩ B| > 4 * |A ∪ B|] on the sets of lower-cased
    words; exactly four fifths is not enough.  Two texts with the same set
    of words, whatever case and spacing they are written in, are above the
    threshold. *)
Theorem calculateSimilarity_threshold text1 text2 :
  str_length text1 < 2 ^ 48 -> str_length text2 < 2 ^ 48 ->
  (Number_lt Number_0_8 (calculateSimilarity text1 text2) = true
   <-> similar text1 text2) /\
  (word_set text1 = word_set text2 ->
   Number_lt Number_0_8 (calculateSimilarity text1 text2) = true).
Proof.
  intros H1 H2. split; [by apply calculateSimilarity_gt|].
  intros Heq. apply calculateSimilarity_gt; [done..|].
  unfold similar. rewrite Heq.
  pose proof (word_set_size text2).
  replace (word_set text2 ∪ word_set text2) with (word_set text2)
    by set_solver.
  replace (word_set text2 ∩ word_set text2) with (word_set text2)
    by set_solver.
  lia.
Qed.

Lemma calculateSimilarity_threshold_witness :
  str_length "What is the capital of France?" < 2 ^ 48 /\
  str_length "what  is the CAPITAL of france?" < 2 ^ 48 /\
  Number_lt Number_0_8
    (calculateSimilarity "What is the capital of France?"
       "what  is the CAPITAL of france?") = true /\
  ~ similar "one two three four five" "one two three four".
Proof.
  assert (H1 : str_length "What is the capital of France?" < 2 ^ 48)
    by (vm_compute; reflexivity).
  assert (H2 : str_length "what  is the CAPITAL of france?" < 2 ^ 48)
    by (vm_compute; reflexivity).
  assert (H3 : str_length "one two three four five" < 2 ^ 48)
    by (vm_compute; reflexivity).
  assert (H4 : str_length "one two three four" < 2 ^ 48)
    by (vm_compute; reflexivity).
  split; [exact H1|]. split; [exact H2|]. split.
  - apply (calculateSimilarity_threshold _ _ H1 H2). vm_compute. reflexivity.
  - intros Hsim.
    apply (proj1 (calculateSimilarity_threshold _ _ H3 H4)) in Hsim.
    vm_compute in Hsim. discriminate Hsim.
Defined.

Lemma findDuplicates_inner_eq qi later duplicates :
  findDuplicates_inner qi later duplicates
  = (duplicates ++
       map (duplicate_of qi)
         (List.filter
            (fun qj =>
               Number_lt Number_0_8
                 (calculateSimilarity (question qi) (question qj)))
            later))%list.
Proof.
  revert duplicates. induction later as [|qj later IH]; intros duplicates.
  - simpl. by rewrite app_nil_r.
  - simpl. rewrite IH.
    destruct (Number_lt Number_0_8 _); simpl; [|done].
    by rewrite <- app_assoc.
Qed.

Lemma findDuplicates_outer_elem questions duplicates d :
  d ∈ findDuplicates_outer questions duplicates <->
  d ∈ duplicates \/
  exists i j qi qj,
    (i < j)%nat /\ questions !! i = Some qi /\ questions !! j = Some qj /\
    d = duplicate_of qi qj /\
    Number_lt Number_0_8
      (calculateSimilarity (question qi) (question qj)) = true.
Proof.
  revert duplicates.
  induction questions as [|q questions IH]; intros duplicates; simpl.
  - split; [by left|]. intros [?|(i & j & qi & qj & _ & Hi & _)]; [done|].
    by rewrite lookup_nil in Hi.
  - rewrite IH, findDuplicates_inner_eq, elem_of_app, list_elem_of_fmap.
    split.
    + intros [[Hd|(qj & -> & Hqj)]|(i & j & qi & qj & Hij & Hi & Hj & -> & Hs)].
      * by left.
      * apply list_elem_of_In, filter_In in Hqj as [Hin Hs].
        apply list_elem_of_In, list_elem_of_lookup in Hin as [j Hj].
        right. exists 0%nat, (S j), q, qj. repeat split; [lia|done..].
      * right. exists (S i), (S j), qi, qj. repeat split; [lia|done..].
    + intros [Hd|(i & j & qi & qj & Hij & Hi & Hj & -> & Hs)]; [by left; left|].
      destruct i as [|i]; destruct j as [|j]; try lia; simpl in *.
      * injection Hi as <-. left. right. exists qj. split; [done|].
        apply list_elem_of_In, filter_In. split; [|done].
        apply list_elem_of_In. by eapply list_elem_of_lookup_2.
      * right. exists i, j, qi, qj. repeat split; [lia|done..].
Qed.

(** X20.  [findDuplicates] reports the pairs of similar questions, once
    each: for question texts of fewer than 2^48 code units, an entry is in
    the result exactly when it is made of [questions[i]] and
    [questions[j]] with [i < j], in this order, with their similarity, and
    the two texts share more than four fifths of their words.  No question
    is paired with itself, and no pair is reported in both orders. *)
Theorem findDuplicates_spec questions d :
  Forall (fun q => str_length (question q) < 2 ^ 48) questions ->
  d ∈ findDuplicates questions <->
  exists i j qi qj,
    (i < j)%nat /\ questions !! i = Some qi /\ questions !! j = Some qj /\
    d = duplicate_of qi qj /\ similar (question qi) (question qj).
Proof.
  intros Hall. unfold findDuplicates. rewrite findDuplicates_outer_elem.
  rewrite Forall_lookup in Hall.
  split.
  - intros [Hnil|(i & j & qi & qj & Hij & Hi & Hj & -> & Hs)];
      [by apply elem_of_nil in Hnil|].
    exists i, j, qi, qj. repeat split; try done.
    apply calculateSimilarity_gt; eauto.
  - intros (i & j & qi & qj & Hij & Hi & Hj & -> & Hs). right.
    exists i, j, qi, qj. repeat split; try done.
    apply calculateSimilarity_gt; eauto.
Qed.

Lemma findDuplicates_spec_witness :
  let questions :=
    [plain_question "What is 2+2?" None;
     plain_question "Name the capital of France" None;
     plain_question "WHAT IS   2+2?" None] in
  Forall (fun q => str_length (question q) < 2 ^ 48) questions /\
  duplicate_of (plain_question "What is 2+2?" None)
    (plain_question "WHAT IS   2+2?" None)
  ∈ findDuplicates questions.
Proof.
  intros questions.
  assert (Hall : Forall (fun q => str_length (question q) < 2 ^ 48) questions)
    by (repeat constructor).
  split; [exact Hall|].
  apply (findDuplicates_spec questions _ Hall).
  exists 0%nat, 2%nat, (plain_question "What is 2+2?" None),
    (plain_question "WHAT IS   2+2?" None).
  split; [lia|]. do 3 (split; [reflexivity|]).
  apply calculateSimilarity_gt; vm_compute; reflexivity.
Defined.

(** ** Difficulty distribution *)












(** ** The quality score of a quiz set *)

Lemma only_message x :
  "Only " ++ x <> "Quiz set is well-balanced and high quality".
Proof. discriminate. Qed.

(** The score and the recommendations of a non-empty array, from the
    outcome of the six tests. *)
Lemma analyzeQuizSet_penalties questions :
  questions <> [] ->
  let n := Z.of_nat (length questions) in
  let c := Z.of_nat (length (explained questions)) in
  let state :=
    quality_penalties
      (Number_lt
         (Number_div (Number (total_of (fun q => str_length (question q))
                                questions)) (Number n))
         (Number 20))
      (Number_lt (explanationCoverage questions) (Number 80))
      (Number_lt
         (if 0 <? c then
            Number_div (Number (total_of explanation_length
                                  (explained questions))) (Number c)
          else Number 0)
         (Number 50) && (0 <? c))
      (Number_lt
         (Number_div (Number (total_of options_length questions)) (Number n))
         (Number 3))
      (Object_keys_length (fold_left count_difficulty questions ∅) =? 1)
      (Object_keys_length (fold_left count_category questions ∅) =? 0)
      ("Only " ++ Number_toFixed_0 (explanationCoverage questions)
         ++ "% of questions have explanations") in
  qualityScore (analyzeQuizSet questions) = Z.max 0 state.1 /\
  recommendations (analyzeQuizSet questions)
  = if Z.of_nat (length state.2) =? 0 then
      lines_push state.2 "Quiz set is well-balanced and high quality"
    else state.2.
Proof.
  intros Hne n c state. unfold analyzeQuizSet.
  assert (Hn : (Z.of_nat (length questions) =? 0) = false).
  { apply Z.eqb_neq. destruct questions; simpl; [done | lia]. }
  rewrite Hn. split; reflexivity.
Qed.

Lemma quality_penalties_range b1 b2 b3 b4 b5 b6 message :
  message <> "Quiz set is well-balanced and high quality" ->
  let state := quality_penalties b1 b2 b3 b4 b5 b6 message in
  let recommendations :=
    if Z.of_nat (length state.2) =? 0 then
      lines_push state.2 "Quiz set is well-balanced and high quality"
    else state.2 in
  40 <= Z.max 0 state.1 <= 100 /\
  Z.max 0 state.1 mod 5 = 0 /\
  (1 <= length recommendations <= 6)%nat /\
  (Z.max 0 state.1 = 100 <->
   recommendations = ["Quiz set is well-balanced and high quality"]).
Proof.
  intros Hmsg.
  destruct b1, b2, b3, b4, b5, b6; cbv zeta; simpl;
    (split; [lia|]); (split; [reflexivity|]); (split; [lia|]);
    (split; [intros H; try discriminate H; reflexivity
            | intros H; try reflexivity; injection H as H;
              try discriminate H; by destruct (Hmsg H) ]).
Qed.

(** X23.  The quality score of [analyzeQuizSet].  An empty array scores 0,
    with the one recommendation "No questions to analyze".  A non-empty one
    scores 100 less the penalties that apply, never less than 40 (the
    [Math.max(0, ...)] never takes effect), in steps of 5; there is always
    a recommendation, at most six, and the score is 100 exactly when the
    only recommendation is "Quiz set is well-balanced and high quality". *)
Theorem analyzeQuizSet_quality questions :
  let analytics := analyzeQuizSet questions in
  (questions = [] ->
   qualityScore analytics = 0 /\
   recommendations analytics = ["No questions to analyze"]) /\
  (questions <> [] ->
   40 <= qualityScore analytics <= 100 /\
   qualityScore analytics mod 5 = 0 /\
   (1 <= length (recommendations analytics) <= 6)%nat /\
   (qualityScore analytics = 100 <->
    recommendations analytics
    = ["Quiz set is well-balanced and high quality"])).
Proof.
  intros analytics. split; [by intros ->|].
  intros Hne. subst analytics.
  destruct (analyzeQuizSet_penalties questions Hne) as [-> ->].
  apply quality_penalties_range, only_message.
Qed.

Lemma analyzeQuizSet_quality_witness :
  let analytics := analyzeQuizSet [four_options] in
  [four_options] <> [] /\
  40 <= qualityScore analytics <= 100 /\
  qualityScore analytics mod 5 = 0 /\
  (1 <= length (recommendations analytics) <= 6)%nat /\
  (qualityScore analytics = 100 <->
   recommendations analytics
   = ["Quiz set is well-balanced and high quality"]).
Proof.
  intros analytics.
  assert (Hne : [four_options] <> []) by discriminate.
  split; [exact Hne|].
  destruct (analyzeQuizSet_quality [four_options]) as [_ Hsome].
  exact (Hsome Hne).
Defined.

(** ** The coverage of explanations *)



(** ** The penalties of the quality score, on integers *)





(** ** Suggestions *)




(** ** The batch report *)

(** The batch report of no results, whatever the questions are: both
    percentages are printed as "NaN%", and there is no section of failed
    questions. *)
Example generateBatchReport_empty questions :
  generateBatchReport questions []
  = Some
      (Array_join (String LF EmptyString)
         ["# Quiz Validation Report"; EmptyString; "## Summary";
          "- **Total Questions**: 0"; "- **Passed**: 0 (NaN%)";
          "- **Failed**: 0 (NaN%)"; "- **Average Score**: 0/100";
          EmptyString]).
Proof. reflexivity. Qed.

(** The rounded percentage of a part of a whole is the score of the
    whole with the rest failed. *)
Lemma Math_round_percent count n :
  0 <= count <= n -> 0 < n < 2 ^ 40 ->
  Math_round (Number_mul (Number_div (Number count) (Number n)) (Number 100))
  = compute_score n (n - count) /\
  exists s m e,
    Number_mul (Number_div (Number count) (Number n)) (Number 100)
    = match s with
      | true => S754_zero false
      | false => S754_finite false m e
      end.
Proof.
  intros Hcount Hn. unfold compute_score.
  replace (n - (n - count)) with count by lia.
  set (x := Number_mul (Number_div (Number count) (Number n)) (Number 100)).
  assert (Hx : exists s m e,
            x = match s with
                | true => S754_zero false
                | false => S754_finite false m e
                end).
  { subst x. destruct (decide (count = 0)) as [->|Hc0].
    - exists true, 1%positive, 0. rewrite Number_0.
      destruct (Binary64.Number_pos n) as (mn & en & -> & _); [lia|]. done.
    - destruct (Binary64.Number_div_enclosure count n)
        as (m1 & e1 & -> & Hm1 & He1 & Hlo1 & Hhi1); [lia | lia |].
      assert (He1' : e1 <= -52).
      { destruct (decide (e1 <= -52)); [done|].
        assert (2 ^ (- e1) <= 2 ^ 51) by (apply Z.pow_le_mono_r; lia).
        assert (2 ^ 52 * n <= Z.pos m1 * n)
          by (apply Z.mul_le_mono_nonneg_r; lia).
        assert (count * 2 ^ (- e1) <= count * 2 ^ 51)
          by (apply Z.mul_le_mono_nonneg_l; lia).
        assert (count * 2 ^ 51 <= n * 2 ^ 51)
          by (apply Z.mul_le_mono_nonneg_r; lia).
        lia. }
      destruct (Binary64.Number_mul_100_enclosure m1 e1)
        as (m2 & e2 & -> & _); [done | lia |].
      by exists false, m2, e2. }
  split; [|exact Hx]. destruct Hx as (s & m & e & ->).
  destruct s; [done|].
  rewrite Z.max_r; [done|]. unfold Math_round. simpl cond_Zopp.
  destruct (Z.leb_spec 0 e).
  - pose proof (Z.pow_nonneg 2 e ltac:(lia)). lia.
  - apply Z.div_pos; [|apply Z.pow_pos_nonneg; lia].
    pose proof (Z.pow_nonneg 2 (- e) ltac:(lia)). lia.
Qed.

(** X26.  The percentages of [generateBatchReport], for [count] results
    out of [n], an array of JavaScript size.  Without results the
    percentage is 0 / 0, a NaN, and is printed as "NaN".  Otherwise it is
    printed as an integer from 0 to 100: the exact percentage rounded half
    up, except that an exact tie may come out one lower. *)
Theorem generateBatchReport_percent count n :
  0 <= count <= n -> n <= MAX_ARRAY_LENGTH ->
  (n = 0 -> percent_of count n = "NaN") /\
  (0 < n ->
   exists k,
     percent_of count n = Number_toString k /\ 0 <= k <= 100 /\
     let exact := (200 * count + n) / (2 * n) in
     k = exact \/ (k = exact - 1 /\ 200 * count + n = 2 * exact * n)).
Proof.
  intros Hcount Hn. unfold MAX_ARRAY_LENGTH in Hn. split.
  - intros ->. assert (count = 0) as -> by lia. reflexivity.
  - intros Hn0.
    destruct (Math_round_percent count n) as [Hround (s & m & e & Hx)];
      [lia | lia |].
    exists (compute_score n (n - count)). split; [|split].
    + unfold percent_of, Math_round_toString. rewrite <- Hround, Hx.
      by destruct s.
    + apply compute_score_bounds; lia.
    + pose proof (compute_score_exact n (n - count) ltac:(lia) ltac:(lia))
        as Hexact.
      cbv zeta in *. replace (n - (n - count)) with count in Hexact by lia.
      exact Hexact.
Qed.

Lemma generateBatchReport_percent_witness :
  0 <= 23 <= 40 /\ 40 <= MAX_ARRAY_LENGTH /\
  percent_of 23 40 = "57" /\ percent_of 0 0 = "NaN".
Proof.
  assert (Hcount : 0 <= 23 <= 40) by lia.
  assert (Hn : 40 <= MAX_ARRAY_LENGTH) by (vm_compute; discriminate).
  destruct (generateBatchReport_percent 23 40 Hcount Hn) as [_ Hsome].
  destruct (Hsome ltac:(lia)) as (k & Hk & _).
  split; [exact Hcount|]. split; [exact Hn|].
  split; reflexivity.
Defined.

Lemma report_id_None questions index :
  report_id questions index = None <-> (length questions <= index)%nat.
Proof.
  unfold report_id. rewrite <- lookup_ge_None.
  by destruct (questions !! index).
Qed.

Lemma forEach_failed_None questions results index lines :
  forEach_failed questions results index lines = None <->
  exists i result,
    results !! i = Some result /\ valid result = false /\
    (length questions <= index + i)%nat.
Proof.
  revert index lines.
  induction results as [|r results IH]; intros index lines; simpl.
  - split; [done|]. intros (i & result & Hi & _). by rewrite lookup_nil in Hi.
  - destruct (valid r) eqn:Hvalid; simpl.
    + rewrite IH. split.
      * intros (i & result & Hi & Hv & Hlen).
        exists (S i), result. repeat split; [done..|lia].
      * intros (i & result & Hi & Hv & Hlen). destruct i as [|i].
        -- simpl in Hi. injection Hi as <-. congruence.
        -- exists i, result. repeat split; [done..|lia].
    + destruct (report_id questions index) as [id|] eqn:Hid.
      * rewrite IH. split.
        -- intros (i & result & Hi & Hv & Hlen).
           exists (S i), result. repeat split; [done..|lia].
        -- intros (i & result & Hi & Hv & Hlen). destruct i as [|i].
           ++ assert (report_id questions index = None)
                by (apply report_id_None; lia).
              congruence.
           ++ exists i, result. repeat split; [done..|lia].
      * split; [intros _|done]. apply report_id_None in Hid.
        exists 0%nat, r. repeat split; [done..|lia].
Qed.

Lemma generateBatchReport_None questions results :
  generateBatchReport questions results = None <->
  exists i result,
    results !! i = Some result /\ valid result = false /\
    (length questions <= i)%nat.
Proof.
  unfold generateBatchReport, generateBatchReport_lines.
  rewrite fmap_None.
  destruct (Z.ltb_spec 0
              (Z.of_nat (length (List.filter (fun r => negb (valid r))
                                   results)))) as [Hfailed|Hnone].
  - by rewrite forEach_failed_None.
  - split; [done|]. intros (i & result & Hi & Hv & _). exfalso.
    assert (Hzero : length (List.filter (fun r => negb (valid r)) results)
                    = 0%nat) by lia.
    apply filter_length_zero in Hzero. rewrite Forall_lookup in Hzero.
    specialize (Hzero _ _ Hi). simpl in Hzero. by rewrite Hv in Hzero.
Qed.

(** X27.  [generateBatchReport] throws exactly when a failed result has no
    question at its index (it reads the id of [questions[index]]); so it
    never throws on the questions and the results of one call of
    [validateQuizSet], nor when all results are valid, however short the
    array of questions is. *)
Theorem generateBatchReport_throws questions rs :
  (generateBatchReport questions rs = None <->
   exists i result,
     rs !! i = Some result /\ valid result = false /\
     (length questions <= i)%nat) /\
  (forall o,
     is_Some
       (generateBatchReport questions
          (results (validateQuizSet questions o)))).
Proof.
  split; [apply generateBatchReport_None|].
  intros o. apply not_eq_None_Some. rewrite generateBatchReport_None.
  intros (i & result & Hi & _ & Hlen).
  apply lookup_lt_Some in Hi. unfold validateQuizSet in Hi. simpl in Hi.
  rewrite length_map in Hi. lia.
Qed.

Lemma generateBatchReport_throws_witness :
  let failure := validateQuizQuestion (plain_question EmptyString None)
                   no_options in
  [failure] !! 0%nat = Some failure /\ valid failure = false /\
  generateBatchReport [] [failure] = None.
Proof.
  intros failure.
  destruct (generateBatchReport_throws [] [failure]) as [Hthrows _].
  split; [reflexivity|]. split; [reflexivity|].
  apply Hthrows. exists 0%nat, failure.
  split; [reflexivity|]. split; [reflexivity|]. simpl. lia.
Defined.
